(** * logx: an asynchronous, rotating file logger

    A shallow embedding of [logx/logx_v2.go] (package [logx]).

    The Go code is stateful and talks to the operating system, so the
    embedding threads two pieces of state through every function:
    the [Logger] struct and a [World] that stands for the part of the
    operating system the logger can observe (directory entries, file
    bodies, open file handles, the two console streams and the clock).
    Goroutines and the channel are modelled by a scheduler-driven
    transition system ([exec], [run]) at the end of the definitions. *)

From Stdlib Require Import ZArith Ascii.
From stdpp Require Import gmap strings list fin_maps.

(** ** Machine integers *)

(** Go's [int64] (and [int] on a 64-bit target): arithmetic wraps around
    modulo 2^64 into the signed range. *)
Definition wrap64 (z : Z) : Z := ((z + 2 ^ 63) mod 2 ^ 64 - 2 ^ 63)%Z.

Definition int64_add (a b : Z) : Z := wrap64 (a + b)%Z.
Definition int64_mul (a b : Z) : Z := wrap64 (a * b)%Z.

(** [len(s)]: the number of bytes of a Go string. *)
Definition len (s : string) : Z := Z.of_nat (String.length s).

(** ** Strings and formatting *)

Definition nl : string := String (ascii_of_nat 10) "".
Definition esc : string := String (ascii_of_nat 27) "".

(** [fmt.Sprintf] restricted to the verbs the package uses: [%s] and [%v]
    applied to strings; every other byte of the format is copied. An
    operand that is missing prints as Go prints it. *)
Fixpoint Sprintf (format : string) (args : list string) : string :=
  match format with
  | String "%"%char (String v rest) =>
      if bool_decide (v = "s"%char ∨ v = "v"%char) then
        match args with
        | a :: args' => a +:+ Sprintf rest args'
        | [] => "%!" +:+ String v "(MISSING)" +:+ Sprintf rest []
        end
      else String "%"%char (String v (Sprintf rest args))
  | String c rest => String c (Sprintf rest args)
  | EmptyString => ""
  end.

(** Decimal rendering of [n] on exactly [w] digits, zero padded. *)
Fixpoint digits (w n : nat) : string :=
  match w with
  | O => ""
  | S w' => digits w' (n / 10) +:+ String (ascii_of_nat (48 + n mod 10)) ""
  end.

(** A wall-clock reading, broken down as [time.Time.Format] sees it. *)
Record Time := mkTime {
  year : nat; month : nat; day : nat;
  hour : nat; minute : nat; second : nat
}.

(** [t.Format("20060102_150405")] *)
Definition Format_20060102_150405 (t : Time) : string :=
  digits 4 (year t) +:+ digits 2 (month t) +:+ digits 2 (day t) +:+ "_" +:+
  digits 2 (hour t) +:+ digits 2 (minute t) +:+ digits 2 (second t).

(** The header [log.LstdFlags] puts in front of every line:
    [2006/01/02 15:04:05 ]. *)
Definition LstdFlags_header (t : Time) : string :=
  digits 4 (year t) +:+ "/" +:+ digits 2 (month t) +:+ "/" +:+ digits 2 (day t) +:+ " " +:+
  digits 2 (hour t) +:+ ":" +:+ digits 2 (minute t) +:+ ":" +:+ digits 2 (second t) +:+ " ".

Fixpoint ends_with_newline (s : string) : bool :=
  match s with
  | EmptyString => false
  | String c EmptyString => bool_decide (c = ascii_of_nat 10)
  | String _ rest => ends_with_newline rest
  end.

(** What [log.Logger.Output] hands to its writer for message [s] at
    time [t]: header, message, and a newline unless the message already
    ends in one. *)
Definition std_line (t : Time) (s : string) : string :=
  LstdFlags_header t +:+ s +:+ (if ends_with_newline s then "" else nl).

(** ** Severities *)

(** [type LogLevel int] *)
Definition LogLevel := Z.

Definition DEBUG : LogLevel := 0%Z.
Definition INFO : LogLevel := 1%Z.
Definition WARN : LogLevel := 2%Z.
Definition ERROR : LogLevel := 3%Z.

(** [levelColors]: a Go map; a missing key reads as the empty string. *)
Definition levelColors : gmap Z string :=
  <[DEBUG := esc +:+ "[36m"]> (<[INFO := esc +:+ "[32m"]>
    (<[WARN := esc +:+ "[33m"]> (<[ERROR := esc +:+ "[31m"]> ∅))).

Definition resetColor : string := esc +:+ "[0m".

Definition levelString (level : LogLevel) : string :=
  if bool_decide (level = DEBUG) then "DEBUG"
  else if bool_decide (level = INFO) then "INFO"
  else if bool_decide (level = WARN) then "WARN"
  else if bool_decide (level = ERROR) then "ERROR"
  else "UNKNOWN".

(** [type logEntry struct] *)
Record logEntry := mkEntry {
  e_level : LogLevel;
  e_msg : string;
  e_time : Time
}.

(** ** The operating system *)

(** Calls that the environment may refuse for reasons of its own
    (permissions, a full disk, ...). *)
Inductive Syscall := SysMkdirAll | SysStat | SysRename | SysOpenFile | SysWrite.

Global Instance Syscall_eq_dec : EqDecision Syscall.
Proof. solve_decision. Defined.

Inductive error :=
| ErrClosed            (* os.ErrClosed: use of a closed *os.File *)
| ErrNotExist          (* os.ErrNotExist *)
| ErrRefused (c : Syscall).

Definition error_text (e : error) : string :=
  match e with
  | ErrClosed => "file already closed"
  | ErrNotExist => "no such file or directory"
  | ErrRefused SysMkdirAll => "mkdir: permission denied"
  | ErrRefused SysStat => "stat: permission denied"
  | ErrRefused SysRename => "rename: permission denied"
  | ErrRefused SysOpenFile => "open: permission denied"
  | ErrRefused SysWrite => "write: input/output error"
  end.

(** An [*os.File]: [fh_inode] is the file body it refers to, [fh_open]
    turns false at [Close]. Handles are numbered in order of creation. *)
Record Handle := mkHandle { fh_inode : nat; fh_open : bool }.

(** - [dirs]: the directories that exist;
    - [names]: the directory entries, path to inode number;
    - [bodies]: the body of every inode ever created, as the list of the
      chunks written to it, oldest first. An inode that lost its last
      name keeps its slot, so the table also records what was written;
    - [handles]: every [*os.File] ever returned;
    - [stdout], [stderr]: what was printed, oldest first;
    - [now]: the reading [time.Now()] returns;
    - [refused]: the calls the environment currently refuses. *)
Record World := mkWorld {
  dirs : gset string;
  names : gmap string nat;
  bodies : list (list string);
  handles : list Handle;
  stdout : list string;
  stderr : list string;
  now : Time;
  refused : Syscall → bool
}.

Definition set_dirs (d : gset string) (w : World) : World :=
  mkWorld d (names w) (bodies w) (handles w) (stdout w) (stderr w) (now w) (refused w).
Definition set_names (n : gmap string nat) (w : World) : World :=
  mkWorld (dirs w) n (bodies w) (handles w) (stdout w) (stderr w) (now w) (refused w).
Definition set_bodies (b : list (list string)) (w : World) : World :=
  mkWorld (dirs w) (names w) b (handles w) (stdout w) (stderr w) (now w) (refused w).
Definition set_handles (h : list Handle) (w : World) : World :=
  mkWorld (dirs w) (names w) (bodies w) h (stdout w) (stderr w) (now w) (refused w).
Definition set_stdout (o : list string) (w : World) : World :=
  mkWorld (dirs w) (names w) (bodies w) (handles w) o (stderr w) (now w) (refused w).
Definition set_stderr (o : list string) (w : World) : World :=
  mkWorld (dirs w) (names w) (bodies w) (handles w) (stdout w) o (now w) (refused w).
Definition set_env (t : Time) (r : Syscall → bool) (w : World) : World :=
  mkWorld (dirs w) (names w) (bodies w) (handles w) (stdout w) (stderr w) t r.

(** [f.Close()] *)
Definition os_Close (f : nat) (w : World) : option error * World :=
  match handles w !! f with
  | Some (mkHandle i true) => (None, set_handles (<[f := mkHandle i false]> (handles w)) w)
  | _ => (Some ErrClosed, w)
  end.

(** [os.MkdirAll(dir, 0755)] *)
Definition os_MkdirAll (dir : string) (w : World) : option error * World :=
  if refused w SysMkdirAll then (Some (ErrRefused SysMkdirAll), w)
  else (None, set_dirs ({[dir]} ∪ dirs w) w).

(** [os.Stat(path)], keeping only the error. *)
Definition os_Stat (path : string) (w : World) : option error :=
  if refused w SysStat then Some (ErrRefused SysStat)
  else match names w !! path with
       | Some _ => None
       | None => Some ErrNotExist
       end.

(** [os.Rename(old, new)]: the entry [old] becomes [new], replacing what
    [new] named before. *)
Definition os_Rename (old new : string) (w : World) : option error * World :=
  if refused w SysRename then (Some (ErrRefused SysRename), w)
  else match names w !! old with
       | Some i => (None, set_names (<[new := i]> (delete old (names w))) w)
       | None => (Some ErrNotExist, w)
       end.

(** [f.Write(chunk)] on an [*os.File] opened with [O_APPEND]. *)
Definition os_Write (f : nat) (chunk : string) (w : World) : option error * World :=
  match handles w !! f with
  | Some (mkHandle i true) =>
      if refused w SysWrite then (Some (ErrRefused SysWrite), w)
      else (None, set_bodies (alter (λ b, b ++ [chunk]) i (bodies w)) w)
  | _ => (Some ErrClosed, w)
  end.

(** [fmt.Printf]: one more chunk on standard output. *)
Definition Printf (format : string) (args : list string) (w : World) : World :=
  set_stdout (stdout w ++ [Sprintf format args]) w.

(** [fmt.Fprintf(os.Stderr, ...)] *)
Definition Fprintf_Stderr (format : string) (args : list string) (w : World) : World :=
  set_stderr (stderr w ++ [Sprintf format args]) w.

(** ** The logger *)

(** [chan logEntry] with a buffer: the entries waiting, oldest first.
    [NewLogger] always makes the channel, so there is no nil channel. *)
Record Chan := mkChan { buf : list logEntry; cap : nat; closed : bool }.

(** A call either returns, or blocks (the caller is suspended and the
    state is as before), or panics. *)
Inductive Outcome (A : Type) : Type :=
| Done (a : A)
| Blocked
| Panic.
Arguments Done {A} a.
Arguments Blocked {A}.
Arguments Panic {A}.

(** [c <- e] *)
Definition send (e : logEntry) (c : Chan) : Outcome Chan :=
  if closed c then Panic
  else if bool_decide (length (buf c) < cap c) then Done (mkChan (buf c ++ [e]) (cap c) false)
  else Blocked.

(** One iteration of [for entry := range c]: the next entry, or [None]
    when the channel is closed and empty and the loop ends. *)
Definition recv (c : Chan) : Outcome (option logEntry * Chan) :=
  match buf c with
  | e :: rest => Done (Some e, mkChan rest (cap c) (closed c))
  | [] => if closed c then Done (None, c) else Blocked
  end.

(** [close(c)] *)
Definition close (c : Chan) : Outcome Chan :=
  if closed c then Panic else Done (mkChan (buf c) (cap c) true).

(** [type Logger struct]. [file] and [fileWriter] are pointers: [None]
    is nil, [Some f] is handle number [f] of the world; [fileWriter] is
    the [log.Logger] built over that handle. The mutex [mu] has no field:
    the functions that hold it for their whole body ([write], [SetLevel])
    are single steps of the transition system below. [wg] is the
    counter of the wait group. *)
Record Logger := mkLogger {
  level : LogLevel;
  consoleOut : bool;
  file : option nat;
  fileWriter : option nat;
  maxSize : Z;
  filePath : string;
  currentSize : Z;
  logChan : Chan;
  wg : nat
}.

Definition with_level (v : LogLevel) (l : Logger) : Logger :=
  mkLogger v (consoleOut l) (file l) (fileWriter l) (maxSize l) (filePath l)
           (currentSize l) (logChan l) (wg l).
Definition with_currentSize (v : Z) (l : Logger) : Logger :=
  mkLogger (level l) (consoleOut l) (file l) (fileWriter l) (maxSize l) (filePath l)
           v (logChan l) (wg l).
Definition with_logChan (c : Chan) (l : Logger) : Logger :=
  mkLogger (level l) (consoleOut l) (file l) (fileWriter l) (maxSize l) (filePath l)
           (currentSize l) c (wg l).
Definition with_wg (n : nat) (l : Logger) : Logger :=
  mkLogger (level l) (consoleOut l) (file l) (fileWriter l) (maxSize l) (filePath l)
           (currentSize l) (logChan l) n.

(** [fw.Output(3, s)] for the writer [log.New(io.MultiWriter(f), "", log.LstdFlags)]:
    one [Write] of the stamped line to [f]; the error is the one of
    that [Write]. *)
Definition Output (f : nat) (s : string) (w : World) : option error * World :=
  os_Write f (std_line (now w) s) w.

Section Logx.

(** [filepath.Dir] *)
Variable Dir : string → string.

(** [os.OpenFile(path, os.O_CREATE|os.O_WRONLY|os.O_APPEND, 0644)]: opens
    the file the path names, or creates an empty one when there is none
    and its directory exists. The path is taken to be one that can name a
    regular file: what the call does with an empty path or with a path
    that names a directory (it fails) is not part of this model, and
    statements that conclude that an open succeeds are about such
    paths. *)
Definition os_OpenFile (path : string) (w : World) : (nat + error) * World :=
  if refused w SysOpenFile then (inr (ErrRefused SysOpenFile), w)
  else match names w !! path with
       | Some i => (inl (length (handles w)), set_handles (handles w ++ [mkHandle i true]) w)
       | None =>
           if bool_decide (Dir path ∈ dirs w) then
             let i := length (bodies w) in
             (inl (length (handles w)),
              set_handles (handles w ++ [mkHandle i true])
                (set_names (<[path := i]> (names w)) (set_bodies (bodies w ++ [[]]) w)))
           else (inr ErrNotExist, w)
       end.

Definition rotate (l : Logger) (w : World) : option error * Logger * World :=
  let w := match file l with
           | Some f => snd (os_Close f w)
           | None => w
           end in
  let dir := Dir (filePath l) in
  let w := snd (os_MkdirAll dir w) in
  let timestamp := Format_20060102_150405 (now w) in
  let newPath := Sprintf "%s.%s.log" [filePath l; timestamp] in
  let w := match os_Stat (filePath l) w with
           | None => snd (os_Rename (filePath l) newPath w)
           | Some _ => w
           end in
  match os_OpenFile (filePath l) w with
  | (inr err, w) => (Some err, l, w)
  | (inl f, w) =>
      (None,
       mkLogger (level l) (consoleOut l) (Some f) (Some f) (maxSize l) (filePath l)
                0%Z (logChan l) (wg l),
       w)
  end.

(** The part of [rotate] before the final [os.OpenFile]: the world it
    leaves, all errors dropped as [rotate] drops them. *)
Definition housekeeping (l : Logger) (w : World) : World :=
  let w := match file l with
           | Some f => snd (os_Close f w)
           | None => w
           end in
  let w := snd (os_MkdirAll (Dir (filePath l)) w) in
  let newPath := Sprintf "%s.%s.log" [filePath l; Format_20060102_150405 (now w)] in
  match os_Stat (filePath l) w with
  | None => snd (os_Rename (filePath l) newPath w)
  | Some _ => w
  end.

Definition NewLogger (filePath : string) (level : LogLevel) (maxSizeMB : Z)
    (consoleOut : bool) (w : World) : (Logger + error) * World :=
  let l := mkLogger level consoleOut None None
             (int64_mul (int64_mul maxSizeMB 1024) 1024) filePath 0%Z
             (mkChan [] 2000 false) 0 in
  match rotate l w with
  | (Some err, _, w) => (inr err, w)
  | (None, l, w) => (inl l, w)
  end.

Definition SetLevel (lv : LogLevel) (l : Logger) : Logger := with_level lv l.

Definition log (lv : LogLevel) (msg : string) (l : Logger) (w : World) : Outcome Logger :=
  if bool_decide (lv < level l)%Z then Done l
  else match send (mkEntry lv msg (now w)) (logChan l) with
       | Done c => Done (with_logChan c l)
       | Blocked => Blocked
       | Panic => Panic
       end.


(** The line [write] renders for an entry. *)
Definition formatted (entry : logEntry) : string :=
  Sprintf "[%s] %s" [levelString (e_level entry); e_msg entry].

(** [write], with the lock held from start to end. A nil [fileWriter]
    makes [Output] panic. *)
Definition write (entry : logEntry) (l : Logger) (w : World) : Outcome (Logger * World) :=
  let formatted := Sprintf "[%s] %s" [levelString (e_level entry); e_msg entry] in
  let w := if consoleOut l then
             let color := default "" (levelColors !! e_level entry) in
             Printf ("%s%s%s" +:+ nl) [color; formatted; resetColor] w
           else w in
  match fileWriter l with
  | None => Panic
  | Some fw =>
      let '(err, w) := Output fw formatted w in
      let w := match err with
               | Some e => Fprintf_Stderr ("log write error: %v" +:+ nl) [error_text e] w
               | None => w
               end in
      let l := with_currentSize (int64_add (currentSize l) (wrap64 (len formatted + 1))) l in
      if bool_decide (maxSize l ≤ currentSize l)%Z then
        let '(_, l, w) := rotate l w in Done (l, w)
      else Done (l, w)
  end.

(** The stages of [write], named for the statements below: the world
    after the console echo, the error [Output] returns, the world after
    [Output] and the report of its error, and the counter after the
    addition. *)
Definition echoed (entry : logEntry) (l : Logger) (w : World) : World :=
  if consoleOut l then
    Printf ("%s%s%s" +:+ nl)
      [default "" (levelColors !! e_level entry); formatted entry; resetColor] w
  else w.

Definition write_error (fw : nat) (entry : logEntry) (l : Logger) (w : World) : option error :=
  fst (Output fw (formatted entry) (echoed entry l w)).

Definition reported (err : option error) (w : World) : World :=
  match err with
  | Some e => Fprintf_Stderr ("log write error: %v" +:+ nl) [error_text e] w
  | None => w
  end.

Definition written (fw : nat) (entry : logEntry) (l : Logger) (w : World) : World :=
  let '(err, w') := Output fw (formatted entry) (echoed entry l w) in reported err w'.

Definition counted (entry : logEntry) (l : Logger) : Z :=
  int64_add (currentSize l) (wrap64 (len (formatted entry) + 1)).

(** The loop of the goroutine of [StartWorker], run without interruption
    on a closed channel whose buffer holds [es]: [write] on every entry,
    oldest first. *)
Fixpoint drain (es : list logEntry) (l : Logger) (w : World) : Outcome (Logger * World) :=
  match es with
  | [] => Done (l, w)
  | e :: es' =>
      match write e l w with
      | Done (l', w') => drain es' l' w'
      | Blocked => Blocked
      | Panic => Panic
      end
  end.

(** [StartWorker], the part that runs in the caller: [l.wg.Add(1)]. The
    goroutine it starts is a new worker of the program below. *)
Definition StartWorker (l : Logger) : Logger := with_wg (wg l + 1) l.

(** [l.wg.Done()], deferred by the goroutine of [StartWorker]. *)
Definition wg_Done (l : Logger) : Logger := with_wg (wg l - 1) l.

(** [Close], first statement: [close(l.logChan)]. *)
Definition Close_close (l : Logger) : Outcome Logger :=
  match close (logChan l) with
  | Done c => Done (with_logChan c l)
  | Blocked => Blocked
  | Panic => Panic
  end.

(** [Close], from [l.wg.Wait()] on: the wait returns once the counter is
    0, then the file, if there is one, is closed. *)
Definition Close_wait (l : Logger) (w : World) : Outcome World :=
  if bool_decide (wg l = 0%nat) then
    Done (match file l with
          | Some f => snd (os_Close f w)
          | None => w
          end)
  else Blocked.

(** ** Goroutines *)

(** The goroutine of [StartWorker]: between two entries ([Idle]), with
    an entry received and not yet written ([Holding]), or past the end of
    its loop, [wg.Done()] executed ([Exited]). *)
Inductive Worker := Idle | Holding (entry : logEntry) | Exited.

(** How far a call of [Close] has come. *)
Inductive ClosePc := NotCalled | Waiting | Returned.

(** The whole program: the logger, the world, the goroutines started by
    [StartWorker], the progress of [Close], and two history lists:
    [accepted], the entries the channel took, and [dispatched], the
    entries [write] was called on, both oldest first. *)
Record System := mkSystem {
  lg : Logger;
  os : World;
  workers : list Worker;
  close_pc : ClosePc;
  accepted : list logEntry;
  dispatched : list logEntry
}.

(** What the scheduler can pick next. *)
Inductive Action :=
| ALog (lv : LogLevel) (msg : string)   (* a caller runs l.log(lv, msg) *)
| ASetLevel (lv : LogLevel)             (* a caller runs l.SetLevel(lv) *)
| AStartWorker                          (* l.StartWorker() *)
| ARecv (i : nat)                       (* worker i: the range clause yields an entry *)
| AWrite (i : nat)                      (* worker i: l.write(entry) *)
| AExit (i : nat)                       (* worker i: the range clause ends, wg.Done() *)
| ACloseChan                            (* Close: close(l.logChan) *)
| ACloseWait                            (* Close: l.wg.Wait() returns, the file is closed *)
| AEnv (t : Time) (r : Syscall → bool). (* the clock moves, refusals change *)

(** One step. [Blocked] says the picked action cannot run in this state:
    a send on a full channel, a receive on an empty open one, a wait on
    a non-zero counter, or a goroutine that is not at that point of its
    code. *)
Definition exec (a : Action) (s : System) : Outcome System :=
  let l := lg s in
  match a with
  | ALog lv msg =>
      match log lv msg l (os s) with
      | Done l' =>
          Done (mkSystem l' (os s) (workers s) (close_pc s)
                  (accepted s ++ drop (length (buf (logChan l))) (buf (logChan l')))
                  (dispatched s))
      | Blocked => Blocked
      | Panic => Panic
      end
  | ASetLevel lv =>
      Done (mkSystem (SetLevel lv l) (os s) (workers s) (close_pc s) (accepted s) (dispatched s))
  | AStartWorker =>
      Done (mkSystem (StartWorker l) (os s) (workers s ++ [Idle]) (close_pc s)
              (accepted s) (dispatched s))
  | ARecv i =>
      match workers s !! i with
      | Some Idle =>
          match recv (logChan l) with
          | Done (Some e, c) =>
              Done (mkSystem (with_logChan c l) (os s) (<[i := Holding e]> (workers s))
                      (close_pc s) (accepted s) (dispatched s))
          | Done (None, _) => Blocked
          | Blocked => Blocked
          | Panic => Panic
          end
      | _ => Blocked
      end
  | AWrite i =>
      match workers s !! i with
      | Some (Holding e) =>
          match write e l (os s) with
          | Done (l', w') =>
              Done (mkSystem l' w' (<[i := Idle]> (workers s)) (close_pc s)
                      (accepted s) (dispatched s ++ [e]))
          | Blocked => Blocked
          | Panic => Panic
          end
      | _ => Blocked
      end
  | AExit i =>
      match workers s !! i with
      | Some Idle =>
          match recv (logChan l) with
          | Done (None, _) =>
              Done (mkSystem (wg_Done l) (os s) (<[i := Exited]> (workers s))
                      (close_pc s) (accepted s) (dispatched s))
          | Done (Some _, _) => Blocked
          | Blocked => Blocked
          | Panic => Panic
          end
      | _ => Blocked
      end
  | ACloseChan =>
      match Close_close l with
      | Done l' =>
          Done (mkSystem l' (os s) (workers s) Waiting (accepted s) (dispatched s))
      | Blocked => Blocked
      | Panic => Panic
      end
  | ACloseWait =>
      match close_pc s with
      | Waiting =>
          match Close_wait l (os s) with
          | Done w => Done (mkSystem l w (workers s) Returned (accepted s) (dispatched s))
          | Blocked => Blocked
          | Panic => Panic
          end
      | _ => Blocked
      end
  | AEnv t r =>
      Done (mkSystem l (set_env t r (os s)) (workers s) (close_pc s)
              (accepted s) (dispatched s))
  end.

(** A schedule, run from left to right; it stops at the first action
    that blocks or panics. *)
Fixpoint run (sched : list Action) (s : System) : Outcome System :=
  match sched with
  | [] => Done s
  | a :: sched' =>
      match exec a s with
      | Done s' => run sched' s'
      | Blocked => Blocked
      | Panic => Panic
      end
  end.

(** The program right after [NewLogger] returned [l] in world [w]. *)
Definition boot (l : Logger) (w : World) : System :=
  mkSystem l w [] NotCalled [] [].

End Logx.

(** A directory function for slash-separated paths without redundant
    elements, on which it agrees with [filepath.Dir]: the text before the
    last slash. *)
Fixpoint before_last_slash (s : string) : option string :=
  match s with
  | EmptyString => None
  | String c rest =>
      match before_last_slash rest with
      | Some d => Some (String c d)
      | None => if bool_decide (c = "/"%char) then Some "" else None
      end
  end.

Definition slash_dir (path : string) : string :=
  match before_last_slash path with
  | Some EmptyString => "/"
  | Some d => d
  | None => "."
  end.

(** An empty disk at 2026-10-30 22:54:00, nothing refused. *)
Definition world0 : World :=
  mkWorld ∅ ∅ [] [] [] [] (mkTime 2026 10 30 22 54 0) (λ _, false).

(** The logger of the package's test, [NewLogger("logs/app.log", DEBUG, 1, true)],
    on the empty disk. *)
Definition test_logger : Logger :=
  mkLogger DEBUG true (Some 0%nat) (Some 0%nat) 1048576 "logs/app.log" 0
           (mkChan [] 2000 false) 0.

Definition test_world : World :=
  mkWorld {["logs"]} {["logs/app.log" := 0%nat]} [[]] [mkHandle 0 true] [] []
          (mkTime 2026 10 30 22 54 0) (λ _, false).

(** ** Vocabulary of the statements *)

(** Every directory entry and every handle refers to a body that exists. *)
Definition wf_world (w : World) : Prop :=
  (∀ p i, names w !! p = Some i → i < length (bodies w)) ∧
  (∀ f h, handles w !! f = Some h → fh_inode h < length (bodies w)).

(** [grown w0 w segs]: the disk of [w] is the disk of [w0] with the
    chunks [segs !! i] appended to body [i], bodies created since
    starting out empty. *)
Definition grown (w0 w : World) (segs : list (list string)) : Prop :=
  length (bodies w0) ≤ length (bodies w) ∧
  length segs = length (bodies w) ∧
  ∀ i, bodies w !! i = (λ s, default [] (bodies w0 !! i) ++ s) <$> segs !! i.

(** [line] is the line [Output] writes for [e] at some time. *)
Definition line_of (line : string) (e : logEntry) : Prop :=
  ∃ t, line = std_line t (formatted e).

(** The line [write] prints on the diagnostic stream for error [e]. *)
Definition report (e : error) : string :=
  Sprintf ("log write error: %v" +:+ nl) [error_text e].

(** Given for each dispatched entry the error its file write returned:
    the entries that reached the disk, and the diagnostic lines, both in
    dispatch order. *)
Fixpoint persisted_of (es : list logEntry) (errs : list (option error)) : list logEntry :=
  match es, errs with
  | e :: es', None :: errs' => e :: persisted_of es' errs'
  | _ :: es', Some _ :: errs' => persisted_of es' errs'
  | _, _ => []
  end.

Fixpoint reports_of (errs : list (option error)) : list string :=
  match errs with
  | Some e :: errs' => report e :: reports_of errs'
  | None :: errs' => reports_of errs'
  | [] => []
  end.

(** What the entries [es] add to the counter. *)
Definition bytes_of (es : list logEntry) : Z :=
  foldr (λ e acc, len (formatted e) + 1 + acc)%Z 0%Z es.

(** The name [rotate] retires the file at [path] under at time [t]. *)
Definition retired_name (path : string) (t : Time) : string :=
  path +:+ "." +:+ Format_20060102_150405 t +:+ ".log".

(** The state a failed rotation leaves behind: the writer still targets
    handle [fw], which is closed, and the counter is at or over the
    threshold. *)
Definition stuck (l : Logger) (w : World) : Prop :=
  ∃ fw i, file l = Some fw ∧ fileWriter l = Some fw ∧
          handles w !! fw = Some (mkHandle i false) ∧
          (maxSize l ≤ currentSize l)%Z.

Definition is_start (a : Action) : bool :=
  match a with AStartWorker => true | _ => false end.

(** The number of calls of [StartWorker] in a schedule. *)
Definition count_starts (sched : list Action) : nat :=
  length (filter (λ a, is_start a = true) sched).


Definition is_running (wk : Worker) : bool :=
  match wk with Exited => false | _ => true end.

(** The goroutines that have not finished, and the entries they hold. *)
Definition running (ws : list Worker) : nat :=
  length (filter (λ wk, is_running wk = true) ws).

Fixpoint holding (ws : list Worker) : list logEntry :=
  match ws with
  | Holding e :: ws' => e :: holding ws'
  | _ :: ws' => holding ws'
  | [] => []
  end.

(** The calls of [log] in a schedule, oldest first. *)
Fixpoint emits (sched : list Action) : list (LogLevel * string) :=
  match sched with
  | ALog lv msg :: sched' => (lv, msg) :: emits sched'
  | _ :: sched' => emits sched'
  | [] => []
  end.

(** The disk and the diagnostic stream against the entries [ds] that
    [write] has handled since the world was [w0]: there is an error slot
    for each entry; the chunks added to the bodies, read body after body,
    are the lines of the entries whose slot is empty, in order, and the
    lines added to [stderr] are the reports of the other slots, in
    order. The writer targets handle [fw], a handle on body [c], no
    later body has been written to, and the configured path names
    nothing or [c]. *)
Definition disk_inv (w0 : World) (l : Logger) (w : World) (ds : list logEntry) : Prop :=
  ∃ segs errs fw c o,
    wf_world w ∧ grown w0 w segs ∧
    file l = Some fw ∧ fileWriter l = Some fw ∧
    handles w !! fw = Some (mkHandle c o) ∧
    (∀ j sg, c < j → segs !! j = Some sg → sg = []) ∧
    (names w !! filePath l = None ∨ names w !! filePath l = Some c) ∧
    length errs = length ds ∧
    Forall2 line_of (concat segs) (persisted_of ds errs) ∧
    stderr w = stderr w0 ++ reports_of errs.

(** What holds of every state the program reaches from [boot l w0]. *)
Definition sys_inv (w0 : World) (s : System) : Prop :=
  (closed (logChan (lg s)) = true ↔ close_pc s ≠ NotCalled) ∧
  wg (lg s) = running (workers s) ∧
  (Exited ∈ workers s → closed (logChan (lg s)) = true ∧ buf (logChan (lg s)) = []) ∧
  (length (workers s) ≤ 1 →
   accepted s = dispatched s ++ holding (workers s) ++ buf (logChan (lg s))) ∧
  disk_inv w0 (lg s) (os s) (dispatched s).

(** Once [Close] has returned, no goroutine is left and the handle of
    the logger is closed. *)
Definition closed_inv (s : System) : Prop :=
  close_pc s = Returned →
  running (workers s) = 0 ∧
  ∃ fw c, file (lg s) = Some fw ∧ handles (os s) !! fw = Some (mkHandle c false).

(** The severity and the message of an entry. *)
Definition call_of (e : logEntry) : LogLevel * string := (e_level e, e_msg e).

(** The world [w] with exactly the calls [cs] refused. *)
Definition refusing (cs : list Syscall) (w : World) : World :=
  set_env (now w) (λ c, bool_decide (c ∈ cs)) w.

Definition hello : logEntry := mkEntry INFO "hello" (mkTime 2026 10 30 22 53 59).

(** A logger 6 bytes below its threshold of one megabyte. *)
Definition full_logger : Logger :=
  mkLogger DEBUG true (Some 0%nat) (Some 0%nat) 1048576 "logs/app.log" 1048570
           (mkChan [] 2000 false) 0.

Definition one_second_later : Time := mkTime 2026 10 30 22 54 1.

(** A run in the manner of the package's test. One entry is logged before
    the worker starts, the level is raised before the debug line, and the
    disk refuses the write of the warning. *)
Definition test_pre : list Action :=
  [ALog INFO "This is an info message"; AStartWorker; ALog WARN "This is a warning";
   ARecv 0; AWrite 0; ALog ERROR "This is an error"; ASetLevel INFO;
   ALog DEBUG "Log line 0"].

Definition test_post : list Action :=
  [ARecv 0; AEnv one_second_later (λ c, bool_decide (c = SysWrite)); AWrite 0;
   AEnv one_second_later (λ _, false); ARecv 0; AWrite 0; AExit 0; ACloseWait].

Definition outcome_state (o : Outcome System) : System :=
  match o with
  | Done s => s
  | _ => boot test_logger test_world
  end.

Definition test_final : System :=
  outcome_state
    (run slash_dir (test_pre ++ ACloseChan :: test_post) (boot test_logger test_world)).

(** The test run split at its second call of [log]. *)
Definition warn_pre : list Action :=
  [ALog INFO "This is an info message"; AStartWorker].


Definition before_warn : System :=
  outcome_state (run slash_dir warn_pre (boot test_logger test_world)).


(** The same logger with two calls of [log] and no worker. *)
Definition idle_sched : list Action :=
  [ALog INFO "This is an info message"; ALog WARN "This is a warning"].

Definition idle_state : System :=
  outcome_state (run slash_dir idle_sched (boot test_logger test_world)).

(** ** Vocabulary of the further properties *)

(** The line the console echo of [write] prints for an entry. *)
Definition echo_line (e : logEntry) : string :=
  default "" (levelColors !! e_level e) +:+ formatted e +:+ resetColor +:+ nl.

(** What the final [os.OpenFile] of [rotate] needs, in terms of the
    world [rotate] starts from: the call is not refused, and either the
    directory of the path exists or can be made by [os.MkdirAll], or the
    file exists and stays where it is because [os.Stat] or [os.Rename] is
    refused. *)
Definition openable (Dir : string → string) (path : string) (w : World) : Prop :=
  refused w SysOpenFile = false ∧
  (Dir path ∈ dirs w ∨ refused w SysMkdirAll = false ∨
   (is_Some (names w !! path) ∧ (refused w SysStat = true ∨ refused w SysRename = true))).

(** The capacity [NewLogger] gives the channel. *)
Definition queue_capacity : nat := 2000.

(** The queue of every logger made by [NewLogger] keeps its capacity
    and never holds more than that. *)
Definition chan_inv (s : System) : Prop :=
  cap (logChan (lg s)) = queue_capacity ∧
  length (buf (logChan (lg s))) ≤ queue_capacity.

(** The console against the entries [write] has handled since the
    standard output was [out0], for a logger made with console flag
    [con]. *)
Definition console_inv (out0 : list string) (con : bool) (s : System) : Prop :=
  consoleOut (lg s) = con ∧
  stdout (os s) = out0 ++ (if con then echo_line <$> dispatched s else []).

(** The handles of the world against the handles [hs0] that existed
    before [NewLogger] was called: those are as they were; the file of the
    logger, which is also the target of its writer, is a handle made
    since; and no other handle made since is open. *)
Definition handle_inv (hs0 : list Handle) (l : Logger) (w : World) : Prop :=
  (∀ f h, hs0 !! f = Some h → handles w !! f = Some h) ∧
  (∃ fw, file l = Some fw ∧ fileWriter l = Some fw ∧
         length hs0 ≤ fw ∧ fw < length (handles w)) ∧
  (∀ f h, length hs0 ≤ f → handles w !! f = Some h → fh_open h = true → file l = Some f).

(** With any number of workers: the accepted entries are the ones
    [write] was called on, the ones the workers hold and the ones in the
    queue, in some order. *)
Definition perm_inv (s : System) : Prop :=
  accepted s ≡ₚ dispatched s ++ holding (workers s) ++ buf (logChan (lg s)).

(** A step that is not a refusal by the environment. *)
Definition calm (a : Action) : Prop :=
  match a with
  | AEnv _ r => ∀ c, r c = false
  | _ => True
  end.

(** While the environment refuses nothing: nothing has been reported
    since the diagnostic stream was [err0], and until [Close] returns the
    logger writes to an open handle. *)
Definition calm_inv (err0 : list string) (s : System) : Prop :=
  (∀ c, refused (os s) c = false) ∧ stderr (os s) = err0 ∧
  (close_pc s ≠ Returned →
   ∃ fw c, file (lg s) = Some fw ∧ fileWriter (lg s) = Some fw ∧
           handles (os s) !! fw = Some (mkHandle c true)).

(** A step that leaves the level alone and, if it is a call of [log],
    is at or above the level [lv0]. *)
Definition passes (lv0 : LogLevel) (a : Action) : Prop :=
  match a with
  | ALog lv _ => (lv0 ≤ lv)%Z
  | ASetLevel _ => False
  | _ => True
  end.

(** The steps by which the one worker, in state [wk], empties a closed
    queue holding [queue] and leaves its loop. *)
Definition finish_worker (wk : Worker) (queue : list logEntry) : list Action :=
  match wk with Holding _ => [AWrite 0] | _ => [] end ++
  flat_map (λ _, [ARecv 0; AWrite 0]) queue ++ [AExit 0].

(** Two workers and two entries in the queue. *)
Definition two_workers_state : System :=
  outcome_state
    (run slash_dir [AStartWorker; AStartWorker; ALog INFO "first"; ALog INFO "second"]
       (boot test_logger test_world)).

(** [TestLogxV2]: the calls of the test after [NewLogger] and before the
    deferred [Close], in program order. *)
Definition TestLogxV2_calls : list Action :=
  [AStartWorker;
   ALog INFO "This is an info message";
   ALog WARN "This is a warning";
   ALog ERROR "This is an error"] ++
  ((λ i, ALog DEBUG ("Log line " +:+ digits 1 i)) <$> seq 0 10).

(** One way for the test to run: the worker handles the first entry
    while the test is still logging, and the other twelve after [Close]
    has closed the channel. *)
Definition TestLogxV2_pre : list Action :=
  take 2 TestLogxV2_calls ++ [ARecv 0; AWrite 0] ++ drop 2 TestLogxV2_calls.

Definition TestLogxV2_post : list Action :=
  flat_map (λ _, [ARecv 0; AWrite 0]) (seq 0 12) ++ [AExit 0; ACloseWait].

Definition TestLogxV2_final : System :=
  outcome_state
    (run slash_dir (TestLogxV2_pre ++ ACloseChan :: TestLogxV2_post)
       (boot test_logger test_world)).

(** A run with two workers in which the second entry is written
    first. *)
Definition two_workers_pre : list Action :=
  [AStartWorker; AStartWorker; ALog INFO "first"; ALog INFO "second";
   ARecv 0; ARecv 1; AWrite 1; AWrite 0].

Definition two_workers_post : list Action := [AExit 1; AExit 0; ACloseWait].

Definition two_workers_final : System :=
  outcome_state
    (run slash_dir (two_workers_pre ++ ACloseChan :: two_workers_post)
       (boot test_logger test_world)).

(** The test's logger right after [Close] has closed the channel. *)
Definition closed_state : System :=
  outcome_state (run slash_dir [ACloseChan] (boot test_logger test_world)).

(** The test's logger left on its closed handle by a failed rotation,
    in a world that refuses nothing any more. *)
Definition stuck_logger : Logger :=
  mkLogger DEBUG true (Some 0%nat) (Some 0%nat) 1048576 "logs/app.log" 1048583
           (mkChan [] 2000 false) 0.

Definition stuck_world : World :=
  mkWorld {["logs"]} {["logs/app.log" := 0%nat]}
          [["2026/10/30 22:54:00 [INFO] hello" +:+ nl]] [mkHandle 0 false] [] []
          (mkTime 2026 10 30 22 54 0) (λ _, false).

(** The disk of the test one rotation later in the same second: the
    stamped name is taken by the file retired before. *)
Definition collide_world : World :=
  mkWorld {["logs"]}
          (<["logs/app.log" := 1%nat]> {["logs/app.log.20261030_225400.log" := 0%nat]})
          [["2026/10/30 22:54:00 [INFO] earlier" +:+ nl]; []] [mkHandle 1 true] [] []
          (mkTime 2026 10 30 22 54 0) (λ _, false).

(** A logger on the disk of the test whose queue is full: 2000 calls of
    [log] and no worker. *)
Definition full_queue_sched : list Action := replicate 2000 (ALog INFO "x").

Definition full_queue_state : System :=
  outcome_state (run slash_dir full_queue_sched (boot test_logger test_world)).

(** The test's logger with a threshold of 0 bytes, as
    [NewLogger("logs/app.log", DEBUG, 0, true)] makes it. *)
Definition zero_logger : Logger :=
  mkLogger DEBUG true (Some 0%nat) (Some 0%nat) 0 "logs/app.log" 0
           (mkChan [] 2000 false) 0.

(** A disk on which the log file of the test exists, with one line, and
    no handle on it. *)
Definition used_world : World :=
  mkWorld {["logs"]} {["logs/app.log" := 0%nat]} [["old line" +:+ nl]] [] [] []
          (mkTime 2026 10 30 22 54 0) (λ _, false).

(** ** Proofs *)

Arguments Sprintf : simpl never.
Arguments digits : simpl never.
Arguments wrap64 : simpl never.

(** *** The operating system calls, field by field *)

Lemma os_Close_fields f w :
  let w' := snd (os_Close f w) in
  dirs w' = dirs w ∧ names w' = names w ∧ bodies w' = bodies w ∧
  stdout w' = stdout w ∧ stderr w' = stderr w ∧ now w' = now w ∧
  refused w' = refused w ∧ length (handles w') = length (handles w).
Proof.
  unfold os_Close. destruct (handles w !! f) as [[i [|]]|]; simpl;
    rewrite ?length_insert; auto 10.
Qed.

Lemma os_Close_closes f w i o :
  handles w !! f = Some (mkHandle i o) →
  handles (snd (os_Close f w)) !! f = Some (mkHandle i false).
Proof.
  intros H. unfold os_Close. rewrite H. destruct o; simpl; [|done].
  apply list_lookup_insert_eq. by eapply lookup_lt_Some.
Qed.

Lemma os_Close_other f g w :
  f ≠ g → handles (snd (os_Close f w)) !! g = handles w !! g.
Proof.
  intros H. unfold os_Close. destruct (handles w !! f) as [[i [|]]|]; simpl; [|done..].
  by apply list_lookup_insert_ne.
Qed.

Lemma os_Close_inode f g w i o :
  handles w !! g = Some (mkHandle i o) →
  ∃ o', handles (snd (os_Close f w)) !! g = Some (mkHandle i o').
Proof.
  intros H. destruct (decide (f = g)) as [->|Hne].
  - eexists. by eapply os_Close_closes.
  - eexists. by rewrite os_Close_other.
Qed.

Lemma os_MkdirAll_fields d w :
  let w' := snd (os_MkdirAll d w) in
  names w' = names w ∧ bodies w' = bodies w ∧ handles w' = handles w ∧
  stdout w' = stdout w ∧ stderr w' = stderr w ∧ now w' = now w ∧
  refused w' = refused w ∧ dirs w ⊆ dirs w'.
Proof.
  unfold os_MkdirAll. destruct (refused w SysMkdirAll); simpl; repeat split; set_solver.
Qed.

Lemma os_Rename_fields old new w :
  let w' := snd (os_Rename old new w) in
  dirs w' = dirs w ∧ bodies w' = bodies w ∧ handles w' = handles w ∧
  stdout w' = stdout w ∧ stderr w' = stderr w ∧ now w' = now w ∧
  refused w' = refused w.
Proof.
  unfold os_Rename. destruct (refused w SysRename); simpl; [auto 10|].
  destruct (names w !! old); simpl; auto 10.
Qed.

Lemma os_Write_closed f chunk w i :
  handles w !! f = Some (mkHandle i false) → os_Write f chunk w = (Some ErrClosed, w).
Proof. intros H. unfold os_Write. by rewrite H. Qed.

(** *** Strings *)

Lemma string_app_cons c (a b : string) : String c a +:+ b = String c (a +:+ b).
Proof. reflexivity. Qed.
Lemma string_app_nil_r (s : string) : s +:+ "" = s.
Proof. induction s as [|c s IH]; [done|]. by rewrite string_app_cons, IH. Qed.
Lemma string_app_length (a b : string) :
  String.length (a +:+ b) = String.length a + String.length b.
Proof. induction a as [|c a IH]; [done|]. rewrite string_app_cons. simpl. by rewrite IH. Qed.
Lemma formatted_eq e :
  formatted e = "[" +:+ levelString (e_level e) +:+ "] " +:+ e_msg e.
Proof.
  transitivity ("[" +:+ levelString (e_level e) +:+ "] " +:+ e_msg e +:+ ""); [reflexivity|].
  by rewrite string_app_nil_r.
Qed.

Section Facts.

Variable Dir : string → string.

(** *** [rotate] *)

Lemma rotate_stages l w :
  rotate Dir l w =
  match os_OpenFile Dir (filePath l) (housekeeping Dir l w) with
  | (inr err, w') => (Some err, l, w')
  | (inl f, w') =>
      (None,
       mkLogger (level l) (consoleOut l) (Some f) (Some f) (maxSize l) (filePath l)
                0%Z (logChan l) (wg l),
       w')
  end.
Proof. reflexivity. Qed.

Lemma housekeeping_fields l w :
  let w' := housekeeping Dir l w in
  bodies w' = bodies w ∧ stdout w' = stdout w ∧ stderr w' = stderr w ∧
  now w' = now w ∧ refused w' = refused w ∧
  length (handles w') = length (handles w).
Proof.
  unfold housekeeping, os_Rename, os_Stat, os_MkdirAll, os_Close.
  repeat case_match; simpl; rewrite ?length_insert; auto 10.
Qed.

(** The three ways [os.OpenFile] can end. *)
Lemma os_OpenFile_cases p w :
  (∃ e, os_OpenFile Dir p w = (inr e, w)) ∨
  (∃ i, names w !! p = Some i ∧
        os_OpenFile Dir p w =
          (inl (length (handles w)), set_handles (handles w ++ [mkHandle i true]) w)) ∨
  (names w !! p = None ∧
   os_OpenFile Dir p w =
     (inl (length (handles w)),
      set_handles (handles w ++ [mkHandle (length (bodies w)) true])
        (set_names (<[p := length (bodies w)]> (names w)) (set_bodies (bodies w ++ [[]]) w)))).
Proof.
  unfold os_OpenFile. destruct (refused w SysOpenFile); [eauto|].
  destruct (names w !! p) as [i|]; [eauto 6|].
  case_bool_decide; eauto 6.
Qed.

Lemma rotate_frame l w err l' w' :
  rotate Dir l w = (err, l', w') →
  stdout w' = stdout w ∧ stderr w' = stderr w ∧ now w' = now w ∧
  refused w' = refused w ∧
  (bodies w' = bodies w ∨ bodies w' = bodies w ++ [[]]) ∧
  level l' = level l ∧ consoleOut l' = consoleOut l ∧ maxSize l' = maxSize l ∧
  filePath l' = filePath l ∧ logChan l' = logChan l ∧ wg l' = wg l.
Proof.
  rewrite rotate_stages.
  pose proof (housekeeping_fields l w) as (HB & HO & HE & HT & HR & HL).
  destruct (os_OpenFile_cases (filePath l) (housekeeping Dir l w))
    as [[e ->]|[(i & _ & ->)|[_ ->]]]; intros [= <- <- <-]; cbn;
    rewrite ?HB, ?HO, ?HE, ?HT, ?HR; auto 20.
Qed.

Lemma rotate_failed l w e l' w' :
  rotate Dir l w = (Some e, l', w') → l' = l ∧ w' = housekeeping Dir l w.
Proof.
  rewrite rotate_stages.
  destruct (os_OpenFile_cases (filePath l) (housekeeping Dir l w))
    as [[e' ->]|[(i & _ & ->)|[_ ->]]]; by intros [= <- <- <-].
Qed.

(** *** Handles keep their body *)

Lemma housekeeping_handles l w f h :
  handles w !! f = Some h →
  ∃ o, handles (housekeeping Dir l w) !! f = Some (mkHandle (fh_inode h) o) ∧
       (file l = Some f → o = false) ∧ (file l ≠ Some f → o = fh_open h).
Proof.
  intros Hf. destruct h as [i o].
  assert (∃ o', handles (match file l with Some g => snd (os_Close g w) | None => w end) !! f
                = Some (mkHandle i o') ∧
                (file l = Some f → o' = false) ∧ (file l ≠ Some f → o' = o)) as (o' & H1 & H2).
  { destruct (file l) as [g|]; [|by exists o].
    destruct (decide (g = f)) as [->|Hne].
    - exists false. split; [by eapply os_Close_closes|]. split; [done|congruence].
    - exists o. rewrite os_Close_other by done. split; [done|]. split; [congruence|done]. }
  exists o'. split; [|done]. clear H2.
  unfold housekeeping. cbv zeta.
  set (w1 := match file l with Some g => snd (os_Close g w) | None => w end) in *.
  unfold os_Rename, os_Stat, os_MkdirAll.
  repeat case_match; simpl; done.
Qed.

Lemma housekeeping_names l w c :
  names w !! filePath l = None ∨ names w !! filePath l = Some c →
  names (housekeeping Dir l w) !! filePath l = None ∨
  names (housekeeping Dir l w) !! filePath l = Some c.
Proof.
  intros H. unfold housekeeping. cbv zeta.
  set (w1 := match file l with Some g => snd (os_Close g w) | None => w end).
  assert (names w1 = names w) as Hn.
  { subst w1. destruct (file l); [|done]. by destruct (os_Close_fields n w) as (_ & ? & _). }
  set (w2 := snd (os_MkdirAll (Dir (filePath l)) w1)).
  assert (names w2 = names w) as Hn2.
  { subst w2. rewrite <- Hn. by destruct (os_MkdirAll_fields (Dir (filePath l)) w1) as (? & _). }
  set (np := Sprintf _ _).
  unfold os_Stat. destruct (refused w2 SysStat); [by rewrite Hn2|].
  destruct (names w2 !! filePath l) as [i|] eqn:Hi; [|by rewrite Hi; left].
  unfold os_Rename. destruct (refused w2 SysRename); simpl; [by rewrite Hn2|].
  rewrite Hi. simpl. rewrite Hn2 in Hi.
  destruct (decide (np = filePath l)) as [->|Hne].
  - rewrite lookup_insert_eq. destruct H; [congruence|]. right. congruence.
  - rewrite lookup_insert_ne by done. rewrite lookup_delete_eq. by left.
Qed.

Lemma housekeeping_names_from l w p i :
  names (housekeeping Dir l w) !! p = Some i → ∃ q, names w !! q = Some i.
Proof.
  unfold housekeeping. cbv zeta.
  set (w1 := match file l with Some g => snd (os_Close g w) | None => w end).
  assert (names w1 = names w) as Hn1.
  { subst w1. destruct (file l); [|done]. by destruct (os_Close_fields n w) as (_ & ? & _). }
  set (w2 := snd (os_MkdirAll (Dir (filePath l)) w1)).
  assert (names w2 = names w) as Hn2.
  { subst w2. rewrite <- Hn1. by destruct (os_MkdirAll_fields (Dir (filePath l)) w1) as (? & _). }
  set (np := Sprintf _ _).
  destruct (os_Stat (filePath l) w2); [rewrite Hn2; eauto|].
  unfold os_Rename. destruct (refused w2 SysRename); simpl; [rewrite Hn2; eauto|].
  destruct (names w2 !! filePath l) as [j|] eqn:Hj; simpl; [|rewrite Hn2; eauto].
  rewrite Hn2 in Hj. intros Hp. destruct (decide (np = p)) as [<-|Hne].
  - rewrite lookup_insert_eq in Hp. simplify_eq. eauto.
  - rewrite lookup_insert_ne in Hp by done.
    apply lookup_delete_Some in Hp as [_ Hp]. rewrite Hn2 in Hp. eauto.
Qed.

Lemma housekeeping_dirs l w : dirs w ⊆ dirs (housekeeping Dir l w).
Proof.
  unfold housekeeping. cbv zeta.
  set (w1 := match file l with Some g => snd (os_Close g w) | None => w end).
  assert (dirs w1 = dirs w) as Hd1.
  { subst w1. destruct (file l); [|done]. by destruct (os_Close_fields n w) as (? & _). }
  set (w2 := snd (os_MkdirAll (Dir (filePath l)) w1)).
  assert (dirs w ⊆ dirs w2) as Hd2.
  { subst w2. rewrite <- Hd1. by destruct (os_MkdirAll_fields (Dir (filePath l)) w1) as (_&_&_&_&_&_&_&?). }
  set (np := Sprintf _ _).
  destruct (os_Stat (filePath l) w2); [done|].
  by destruct (os_Rename_fields (filePath l) np w2) as (-> & _).
Qed.

Lemma housekeeping_wf l w : wf_world w → wf_world (housekeeping Dir l w).
Proof.
  intros [Hn Hh]. pose proof (housekeeping_fields l w) as (HB & _ & _ & _ & _ & HL).
  split; rewrite HB.
  - intros p i Hp. apply housekeeping_names_from in Hp as [q Hq]. eauto.
  - intros f h Hf.
    destruct (handles w !! f) as [h0|] eqn:H0.
    + destruct (housekeeping_handles l w f h0 H0) as (o & Ho & _).
      rewrite Ho in Hf. simplify_eq. simpl. by eapply (Hh f h0).
    + apply lookup_ge_None in H0. apply lookup_lt_Some in Hf. lia.
Qed.

Lemma os_OpenFile_wf p w r w' :
  wf_world w → os_OpenFile Dir p w = (r, w') → wf_world w'.
Proof.
  intros [Hn Hh].
  destruct (os_OpenFile_cases p w) as [[e ->]|[(i & Hi & ->)|[Hi ->]]];
    intros [= <- <-]; [done|split; simpl..].
  - done.
  - intros f h [Hf|[_ Heq]]%lookup_app_Some; [eauto|].
    apply list_lookup_singleton_Some in Heq as [_ <-]. simpl. eauto.
  - intros q j. rewrite length_app. simpl.
    destruct (decide (p = q)) as [<-|Hne].
    + rewrite lookup_insert_eq. intros [= <-]. lia.
    + rewrite lookup_insert_ne by done. intros ?%Hn. lia.
  - rewrite length_app. simpl.
    intros f h [Hf|[_ Heq]]%lookup_app_Some.
    + apply Hh in Hf. lia.
    + apply list_lookup_singleton_Some in Heq as [_ <-]. simpl. lia.
Qed.

Lemma rotate_wf l w err l' w' :
  wf_world w → rotate Dir l w = (err, l', w') → wf_world w'.
Proof.
  intros Hwf. rewrite rotate_stages.
  destruct (os_OpenFile _ _ _) as [[f|e] w1] eqn:Ho; intros [= <- <- <-];
    (eapply os_OpenFile_wf; [|exact Ho]; by apply housekeeping_wf).
Qed.

(** A successful [rotate] installs a handle that did not exist before,
    open, on the body the configured path now names, and zeroes the
    counter. The body is new and empty if the path named nothing after
    the housekeeping, and the body the path still named otherwise. *)
Lemma rotate_succeeded l w l' w' :
  rotate Dir l w = (None, l', w') →
  ∃ i, l' = mkLogger (level l) (consoleOut l) (Some (length (handles w)))
              (Some (length (handles w))) (maxSize l) (filePath l) 0%Z (logChan l) (wg l) ∧
       handles w' = handles (housekeeping Dir l w) ++ [mkHandle i true] ∧
       names w' !! filePath l = Some i ∧
       (names (housekeeping Dir l w) !! filePath l = None ∧
          i = length (bodies w) ∧ bodies w' = bodies w ++ [[]] ∨
        names (housekeeping Dir l w) !! filePath l = Some i ∧ bodies w' = bodies w).
Proof.
  rewrite rotate_stages.
  pose proof (housekeeping_fields l w) as (HB & _ & _ & _ & _ & HL).
  destruct (os_OpenFile_cases (filePath l) (housekeeping Dir l w))
    as [[e ->]|[(i & Hi & ->)|[Hi ->]]]; intros [= <- <-]; simpl.
  - exists i. rewrite HL, HB. split_and!; auto.
  - exists (length (bodies w)). rewrite HL, HB, lookup_insert_eq. split_and!; auto.
Qed.

(** *** [write] *)

Lemma write_stages e l w fw :
  fileWriter l = Some fw →
  write Dir e l w =
  if bool_decide (maxSize l ≤ counted e l)%Z then
    Done (let r := rotate Dir (with_currentSize (counted e l) l) (written fw e l w) in
          (r.1.2, r.2))
  else Done (with_currentSize (counted e l) l, written fw e l w).
Proof.
  intros H. unfold write, written, echoed, counted, formatted. rewrite H.
  destruct (Output _ _ _) as [err w1]. cbn [reported with_currentSize maxSize currentSize].
  case_bool_decide; [|done].
  by destruct (rotate _ _ _) as [[? ?] ?].
Qed.

(** The world after the file write and its report, against the world
    before: the echo is the only new output on [stdout]; either the
    write succeeded and appended the stamped line to the body of the
    handle, or it failed, nothing reached the disk and the error is the
    one new line on [stderr]. *)
Lemma written_cases fw e l w :
  let w' := written fw e l w in
  dirs w' = dirs w ∧ names w' = names w ∧ handles w' = handles w ∧
  now w' = now w ∧ refused w' = refused w ∧
  stdout w' = stdout (echoed e l w) ∧
  (write_error fw e l w = None ∧
     (∃ i, handles w !! fw = Some (mkHandle i true) ∧
           bodies w' = alter (λ b, b ++ [std_line (now w) (formatted e)]) i (bodies w)) ∧
     refused w SysWrite = false ∧ stderr w' = stderr w
   ∨ ∃ err, write_error fw e l w = Some err ∧ bodies w' = bodies w ∧
            stderr w' = stderr w ++ [report err] ∧
            (err = ErrClosed ∧ (∀ i, handles w !! fw ≠ Some (mkHandle i true)) ∨
             err = ErrRefused SysWrite ∧ refused w SysWrite = true)).
Proof.
  unfold written, write_error, Output, os_Write.
  set (we := echoed e l w).
  assert (dirs we = dirs w ∧ names we = names w ∧ handles we = handles w ∧
          now we = now w ∧ refused we = refused w ∧ bodies we = bodies w ∧
          stderr we = stderr w) as (HD & HN & HH & HT & HR & HB & HE).
  { subst we. unfold echoed. by destruct (consoleOut l). }
  rewrite HH, HT, HR.
  destruct (handles w !! fw) as [[i [|]]|] eqn:Hfw; cycle 1.
  - cbn. rewrite HB, HE. split_and!; try done. right. exists ErrClosed.
    split_and!; try done. left. split; [done|]. intros j. congruence.
  - cbn. rewrite HB, HE. split_and!; try done. right. exists ErrClosed.
    split_and!; try done. left. split; [done|]. intros j. congruence.
  - destruct (refused w SysWrite) eqn:Hr.
    + cbn. rewrite HB, HE. split_and!; try done. right. exists (ErrRefused SysWrite).
      split_and!; try done. by right.
    + cbn. rewrite HB, HE. split_and!; try done. left. split_and!; eauto.
Qed.

Lemma echoed_stdout e l w :
  stdout (echoed e l w) =
  stdout w ++ (if consoleOut l
               then [default "" (levelColors !! e_level e) +:+ formatted e +:+ resetColor +:+ nl]
               else []).
Proof. unfold echoed. destruct (consoleOut l); [done|]. by rewrite app_nil_r. Qed.

Lemma written_wf fw e l w : wf_world w → wf_world (written fw e l w).
Proof.
  intros [Hn Hh]. pose proof (written_cases fw e l w) as (_ & HN & HH & _ & _ & _ & Hc).
  cbv zeta in *. unfold wf_world. rewrite HN, HH.
  destruct Hc as [(_ & (i & _ & ->) & _)|(err & _ & -> & _)]; [|done].
  rewrite length_alter. done.
Qed.

(** The counter when no addition overflows. *)
Lemma wrap64_id z : (- 2 ^ 63 ≤ z < 2 ^ 63)%Z → wrap64 z = z.
Proof. intros H. unfold wrap64. rewrite Z.mod_small; lia. Qed.

Lemma len_nonneg s : (0 ≤ len s)%Z.
Proof. unfold len. lia. Qed.

(** *** Rendering *)

(** A file write that the handle and the disk allow: the stamped line is
    the new last chunk of the body, and the echo, if enabled, the new last
    chunk of [stdout]. A rotation this [write] may go on to trigger
    changes neither. *)
Lemma write_appends e l w fw i old :
  fileWriter l = Some fw →
  handles w !! fw = Some (mkHandle i true) →
  refused w SysWrite = false →
  bodies w !! i = Some old →
  ∃ l' w', write Dir e l w = Done (l', w') ∧
    bodies w' !! i = Some (old ++ [std_line (now w) (formatted e)]) ∧
    stdout w' = stdout w ++
      (if consoleOut l
       then [default "" (levelColors !! e_level e) +:+ formatted e +:+ resetColor +:+ nl]
       else []).
Proof.
  intros Hfw Hh Hr Hold.
  pose proof (written_cases fw e l w) as (_ & _ & _ & _ & _ & Hout & Hc).
  cbv zeta in Hout, Hc. rewrite echoed_stdout in Hout.
  assert (bodies (written fw e l w) !! i = Some (old ++ [std_line (now w) (formatted e)])) as Hb.
  { destruct Hc as [(_ & (j & Hj & ->) & _)|(err & _ & _ & _ & [[_ Hn]|[_ Hn]])].
    - rewrite Hh in Hj. injection Hj as <-.
      rewrite list_lookup_alter_eq, Hold. done.
    - by destruct (Hn i).
    - congruence. }
  rewrite (write_stages _ _ _ _ Hfw). case_bool_decide; [|eauto].
  destruct (rotate _ _ _) as [[err l'] w'] eqn:Hrot.
  apply rotate_frame in Hrot as (Ho & _ & _ & _ & Hbod & _).
  eexists _, _. split; [done|]. cbn. rewrite Ho. split; [|done].
  destruct Hbod as [->| ->]; [done|].
  rewrite lookup_app_l; [done|]. by eapply lookup_lt_Some.
Qed.

(** C7. [write] renders an entry as the bracketed name of its severity, a
    space and the message; that text, stamped by the file writer, is
    what a successful write appends to the active file, and, wrapped in
    the colour of the severity, what the console echo prints. The name
    is DEBUG, INFO, WARN or ERROR for the four severities and UNKNOWN
    for every other value. *)
Theorem rendering_contract e l w fw i old :
  fileWriter l = Some fw →
  handles w !! fw = Some (mkHandle i true) →
  refused w SysWrite = false →
  bodies w !! i = Some old →
  let line := "[" +:+ levelString (e_level e) +:+ "] " +:+ e_msg e in
  formatted e = line ∧
  (∃ l' w', write Dir e l w = Done (l', w') ∧
     bodies w' !! i = Some (old ++ [std_line (now w) line]) ∧
     stdout w' = stdout w ++
       (if consoleOut l
        then [default "" (levelColors !! e_level e) +:+ line +:+ resetColor +:+ nl]
        else [])) ∧
  levelString DEBUG = "DEBUG" ∧ levelString INFO = "INFO" ∧
  levelString WARN = "WARN" ∧ levelString ERROR = "ERROR" ∧
  (∀ lv : LogLevel, (lv < DEBUG ∨ ERROR < lv)%Z → levelString lv = "UNKNOWN").
Proof.
  intros Hfw Hh Hr Hold line.
  assert (formatted e = line) as Hline by apply formatted_eq.
  split; [done|]. split.
  - rewrite <- Hline. by apply (write_appends e l w fw).
  - split_and!; try done.
    intros lv Hlv. unfold levelString, DEBUG, INFO, WARN, ERROR in *.
    repeat case_bool_decide; try done; lia.
Qed.

Lemma same_call_write e1 e2 l w :
  call_of e1 = call_of e2 → write Dir e1 l w = write Dir e2 l w.
Proof. destruct e1, e2. intros [= -> ->]. reflexivity. Qed.

(** C10. What [write] does with an entry depends on its severity and its
    message only: two entries that differ in nothing but their creation
    time leave the same logger and the same world (files, console,
    diagnostics), and so do two queues of such entries. The time on a
    persisted line is the reading of the clock when [write] runs. *)
Theorem write_ignores_creation_time e1 e2 l w :
  e_level e1 = e_level e2 → e_msg e1 = e_msg e2 →
  write Dir e1 l w = write Dir e2 l w ∧
  (∀ es1 es2, Forall2 (λ a b, call_of a = call_of b) es1 es2 →
     ∀ l0 w0, drain Dir es1 l0 w0 = drain Dir es2 l0 w0) ∧
  (∀ fw i old,
     fileWriter l = Some fw → handles w !! fw = Some (mkHandle i true) →
     refused w SysWrite = false → bodies w !! i = Some old →
     ∃ l' w', write Dir e1 l w = Done (l', w') ∧
       bodies w' !! i =
         Some (old ++ [std_line (now w)
                         ("[" +:+ levelString (e_level e2) +:+ "] " +:+ e_msg e2)])).
Proof.
  intros Hlv Hmsg.
  assert (call_of e1 = call_of e2) as Hcall by (unfold call_of; congruence).
  split_and!.
  - by apply same_call_write.
  - intros es1 es2 HF. induction HF as [|a b es1 es2 Hab HF IH]; intros l0 w0; [done|].
    cbn [drain]. rewrite (same_call_write a b l0 w0 Hab).
    destruct (write Dir b l0 w0) as [[l1 w1]| |]; [apply IH|done..].
  - intros fw i old Hfw Hh Hr Hold.
    destruct (write_appends e1 l w fw i old Hfw Hh Hr Hold) as (l' & w' & Hw & Hb & _).
    exists l', w'. split; [done|].
    by rewrite Hb, formatted_eq, Hlv, Hmsg.
Qed.

(** *** The byte counter *)

Lemma counted_exact e l :
  (0 ≤ currentSize l)%Z → (currentSize l + len (formatted e) + 1 < 2 ^ 63)%Z →
  counted e l = (currentSize l + len (formatted e) + 1)%Z.
Proof.
  intros H1 H2. pose proof (len_nonneg (formatted e)).
  unfold counted, int64_add.
  rewrite (wrap64_id (len (formatted e) + 1)) by lia. rewrite wrap64_id by lia. lia.
Qed.

(** C4, as amended. The counter grows by the length of the rendered line
    plus one for every entry [write] handles, whatever the file write
    returned; it reads 0 afterwards only if that sum reached the
    threshold and the rotation it triggered succeeded. *)
Theorem counter_counts_every_dispatch e l w fw :
  fileWriter l = Some fw →
  counted e l = wrap64 (currentSize l + wrap64 (len (formatted e) + 1)) ∧
  ((0 ≤ currentSize l)%Z → (currentSize l + len (formatted e) + 1 < 2 ^ 63)%Z →
   counted e l = (currentSize l + len (formatted e) + 1)%Z) ∧
  ∃ l' w', write Dir e l w = Done (l', w') ∧
    ((counted e l < maxSize l)%Z → currentSize l' = counted e l) ∧
    (currentSize l' = counted e l ∨
     (maxSize l ≤ counted e l)%Z ∧ currentSize l' = 0%Z ∧
     (rotate Dir (with_currentSize (counted e l) l) (written fw e l w)).1.1 = None).
Proof.
  intros Hfw. split; [done|]. split.
  - apply counted_exact.
  - rewrite (write_stages _ _ _ _ Hfw). case_bool_decide as Hc.
    + destruct (rotate _ _ _) as [[[err|] l'] w'] eqn:Hrot; eexists _, _; (split; [done|]).
      * apply rotate_failed in Hrot as [-> _]. cbn. split; [lia|by left].
      * apply rotate_succeeded in Hrot as (j & -> & _). cbn. split; [lia|]. right. auto.
    + eexists _, _. split; [done|]. cbn. split; [done|by left].
Qed.

(** *** Errors of [rotate] *)


(** *** Rotation *)

Lemma retired_name_eq path t :
  Sprintf "%s.%s.log" [path; Format_20060102_150405 t] = retired_name path t.
Proof. reflexivity. Qed.

Lemma retired_name_fresh path t : retired_name path t ≠ path.
Proof.
  intros H. apply (f_equal String.length) in H.
  unfold retired_name in H. rewrite string_app_length in H. simpl in H. lia.
Qed.

(** The housekeeping when the calls it makes are honoured: the old
    handle is closed, the directory exists, and the entry of the
    configured path has moved to the retirement name. *)
Lemma housekeeping_retires l w fw i o :
  file l = Some fw → handles w !! fw = Some (mkHandle i o) →
  names w !! filePath l = Some i →
  refused w SysStat = false → refused w SysRename = false →
  names (housekeeping Dir l w) =
    <[retired_name (filePath l) (now w) := i]> (delete (filePath l) (names w)) ∧
  handles (housekeeping Dir l w) !! fw = Some (mkHandle i false) ∧
  (refused w SysMkdirAll = false → Dir (filePath l) ∈ dirs (housekeeping Dir l w)).
Proof.
  intros Hf Hh Hn Hs Hr. split_and!.
  - unfold housekeeping. rewrite Hf. cbv zeta.
    destruct (os_Close_fields fw w) as (_ & HN1 & _ & _ & _ & HT1 & HR1 & _).
    cbv zeta in *. set (w1 := snd (os_Close fw w)) in *.
    destruct (os_MkdirAll_fields (Dir (filePath l)) w1) as (HN2 & _ & _ & _ & _ & HT2 & HR2 & _).
    cbv zeta in *. set (w2 := snd (os_MkdirAll (Dir (filePath l)) w1)) in *.
    unfold os_Stat, os_Rename. rewrite HR2, HR1, Hs, Hr, HN2, HN1, Hn. cbn.
    by rewrite retired_name_eq, HT2, HT1.
  - destruct (housekeeping_handles l w fw _ Hh) as (o' & Ho & Hc & _).
    by rewrite Ho, (Hc Hf).
  - intros Hm. unfold housekeeping. rewrite Hf. cbv zeta.
    destruct (os_Close_fields fw w) as (_ & _ & _ & _ & _ & _ & HR1 & _).
    cbv zeta in *. set (w1 := snd (os_Close fw w)) in *.
    set (w2 := snd (os_MkdirAll (Dir (filePath l)) w1)).
    assert (Dir (filePath l) ∈ dirs w2) as Hd.
    { subst w2. unfold os_MkdirAll. rewrite HR1, Hm. simpl. set_solver. }
    set (np := Sprintf _ _).
    destruct (os_Stat (filePath l) w2); [done|].
    by destruct (os_Rename_fields (filePath l) np w2) as (-> & _).
Qed.

Lemma NewLogger_maxSize path lv mb con w l w' :
  NewLogger Dir path lv mb con w = (inl l, w') →
  maxSize l = wrap64 (wrap64 (mb * 1024) * 1024) ∧
  ((0 ≤ mb < 2 ^ 43)%Z → maxSize l = (mb * 1024 * 1024)%Z).
Proof.
  unfold NewLogger. destruct (rotate _ _ _) as [[[e|] l1] w1] eqn:Hrot; [done|].
  intros [= <- <-]. apply rotate_frame in Hrot as (_ & _ & _ & _ & _ & _ & _ & -> & _).
  cbn. unfold int64_mul. split; [done|]. intros H.
  rewrite (wrap64_id (mb * 1024)) by lia. rewrite wrap64_id by lia. done.
Qed.

(** C2. The threshold of a logger built with [mb] megabytes is
    [mb * 1024 * 1024] bytes. Once the counter, which every line raises by
    its rendered length plus one, is at or over the threshold at the end of
    a [write], that same [write] rotates before anything else is written:
    with the active file under the configured path and the calls of the
    rotation honoured, the file is renamed to the path followed by a time
    stamp, its handle is closed, a new empty file is created under the
    configured path and becomes the target of the next write, and the
    counter is 0. For every [write], the counter ends at 0 with a new
    handle installed, or keeps the sum with the handle unchanged. *)
Theorem rotation_trigger e l w fw i o :
  file l = Some fw → fileWriter l = Some fw →
  handles w !! fw = Some (mkHandle i o) →
  wf_world w →
  ∃ l' w', write Dir e l w = Done (l', w') ∧
    (* the counter is reset exactly when a new file is opened *)
    (file l' = file l ∧ fileWriter l' = fileWriter l ∧ currentSize l' = counted e l ∨
     (maxSize l ≤ counted e l)%Z ∧
     file l' = Some (length (handles w)) ∧ fileWriter l' = Some (length (handles w)) ∧
     (∃ j, handles w' !! length (handles w) = Some (mkHandle j true)) ∧
     currentSize l' = 0%Z) ∧
    ((counted e l < maxSize l)%Z → file l' = file l ∧ names w' = names w) ∧
    (* the rotation at the threshold *)
    ((maxSize l ≤ counted e l)%Z →
     names w !! filePath l = Some i →
     refused w SysStat = false → refused w SysRename = false →
     refused w SysOpenFile = false →
     Dir (filePath l) ∈ dirs w ∨ refused w SysMkdirAll = false →
     names w' !! retired_name (filePath l) (now w) = Some i ∧
     names w' !! filePath l = Some (length (bodies w)) ∧
     bodies w' !! length (bodies w) = Some [] ∧
     handles w' !! fw = Some (mkHandle i false) ∧
     file l' = Some (length (handles w)) ∧
     fileWriter l' = Some (length (handles w)) ∧
     handles w' !! length (handles w) = Some (mkHandle (length (bodies w)) true) ∧
     currentSize l' = 0%Z ∧
     ∀ e2, refused w SysWrite = false →
       ∃ l2 w2, write Dir e2 l' w' = Done (l2, w2) ∧
         bodies w2 !! length (bodies w) = Some [std_line (now w) (formatted e2)] ∧
         bodies w2 !! i = bodies w' !! i) ∧
  (∀ path lv mb con w0 l0 w1,
     NewLogger Dir path lv mb con w0 = (inl l0, w1) → (0 ≤ mb < 2 ^ 43)%Z →
     maxSize l0 = (mb * 1024 * 1024)%Z).
Proof.
  intros Hf Hfw Hh Hwf.
  pose proof (written_cases fw e l w) as (HD & HN & HH & HT & HR & _ & Hbod).
  cbv zeta in *.
  set (l1 := with_currentSize (counted e l) l) in *.
  set (w1 := written fw e l w) in *.
  assert (length (bodies w1) = length (bodies w)) as HBL.
  { destruct Hbod as [(_ & (j & _ & ->) & _)|(err & _ & -> & _)];
      [apply length_alter|done]. }
  assert (i < length (bodies w)) as Hi by (destruct Hwf as [_ Hw]; apply (Hw _ _ Hh)).
  rewrite (write_stages _ _ _ _ Hfw). fold l1 w1.
  case_bool_decide as Hc; cycle 1.
  { eexists _, _. split; [done|]. split_and!.
    - left. done.
    - intros _. split; [done|]. by rewrite HN.
    - lia.
    - intros. by eapply NewLogger_maxSize. }
  destruct (rotate Dir l1 w1) as [[err l'] w'] eqn:Hrot.
  eexists _, _. split; [done|]. cbn [fst snd]. split_and!.
  - destruct err as [err|].
    + apply rotate_failed in Hrot as [-> _]. by left.
    + apply rotate_succeeded in Hrot as (j & -> & Hh' & _). right. cbn. rewrite HH.
      split_and!; try done. exists j. rewrite Hh'.
      destruct (housekeeping_fields l1 w1) as (_ & _ & _ & _ & _ & HL).
      rewrite lookup_app_r, HL, HH, Nat.sub_diag by (rewrite HL, HH; lia). done.
  - lia.
  - intros _ Hn Hs Hr Ho Hd.
    assert (file l1 = Some fw) as Hf1 by done.
    assert (filePath l1 = filePath l) as Hp1 by done.
    destruct (housekeeping_retires l1 w1 fw i o Hf1) as (Hnames & Hclosed & Hdir);
      rewrite ?HH, ?HN, ?HR; try done.
    rewrite Hp1, HT, HN in Hnames.
    destruct (housekeeping_fields l1 w1) as (HB2 & _ & _ & _ & HR2 & HL2).
    pose proof (housekeeping_dirs l1 w1) as HD2. rewrite HD in HD2.
    assert (names (housekeeping Dir l1 w1) !! filePath l = None) as Hnone.
    { rewrite Hnames, lookup_insert_ne by apply retired_name_fresh.
      apply lookup_delete_eq. }
    assert (Dir (filePath l) ∈ dirs (housekeeping Dir l1 w1)) as Hdir'.
    { destruct Hd as [Hd|Hd]; [by apply HD2|]. apply Hdir. by rewrite HR. }
    assert (now (housekeeping Dir l1 w1) = now w) as HT2.
    { destruct (housekeeping_fields l1 w1) as (_ & _ & _ & -> & _). done. }
    rewrite rotate_stages in Hrot.
    set (hk := housekeeping Dir l1 w1) in *. clearbody hk.
    unfold os_OpenFile in Hrot.
    rewrite HR2, HR, Ho, Hp1, Hnone, bool_decide_eq_true_2 in Hrot by done.
    injection Hrot as _ Hl3 Hw3.
    set (l3 := mkLogger _ _ _ _ _ _ _ _ _) in Hl3.
    set (w3 := set_handles _ _) in Hw3.
    assert (names w3 = <[filePath l := length (bodies w)]> (names hk)) as Hn3.
    { subst w3. cbn. by rewrite HB2, HBL. }
    assert (bodies w3 = bodies w1 ++ [[]]) as Hb3.
    { subst w3. cbn. by rewrite HB2. }
    assert (handles w3 = handles hk ++ [mkHandle (length (bodies w)) true]) as Hh3'.
    { subst w3. cbn. by rewrite HB2, HBL. }
    assert (now w3 = now w) as Ht3 by (subst w3; cbn; done).
    assert (refused w3 SysWrite = refused w SysWrite) as Hr3'.
    { subst w3. cbn. by rewrite HR2, HR. }
    assert (fileWriter l3 = Some (length (handles w)) ∧ file l3 = Some (length (handles w)) ∧
            currentSize l3 = 0%Z) as (Hfw3 & Hf3 & Hc3).
    { subst l3. cbn. by rewrite HL2, HH. }
    assert (handles w3 !! length (handles w) = Some (mkHandle (length (bodies w)) true)) as Hh3.
    { rewrite Hh3', lookup_app_r, HL2, HH, Nat.sub_diag by (rewrite HL2, HH; lia). done. }
    clearbody l3 w3. subst l' w'.
    split_and!; try done.
    + rewrite Hn3, lookup_insert_ne
        by (intros Heq; symmetry in Heq; by apply retired_name_fresh in Heq).
      rewrite Hnames. apply lookup_insert_eq.
    + rewrite Hn3. apply lookup_insert_eq.
    + rewrite Hb3, lookup_app_r, HBL, Nat.sub_diag by (rewrite HBL; lia). done.
    + rewrite Hh3', lookup_app_l by (rewrite HL2, HH; by eapply lookup_lt_Some). done.
    + intros e2 Hw2.
      assert (refused w3 SysWrite = false) as Hr3 by congruence.
      pose proof (written_cases (length (handles w)) e2 l3 w3) as (_ & _ & _ & _ & _ & _ & Hcs).
      cbv zeta in Hcs.
      assert (bodies (written (length (handles w)) e2 l3 w3) =
              alter (λ b, b ++ [std_line (now w) (formatted e2)]) (length (bodies w)) (bodies w3))
        as Hb4.
      { destruct Hcs as [(_ & (j & Hj & ->) & _)|(err' & _ & _ & _ & [[_ Hx]|[_ Hx]])].
        - rewrite Hh3 in Hj. injection Hj as <-. by rewrite Ht3.
        - by destruct (Hx (length (bodies w))).
        - congruence. }
      assert (∀ k, k ≤ length (bodies w) →
                bodies (written (length (handles w)) e2 l3 w3) !! k =
                (if decide (k = length (bodies w))
                 then Some [std_line (now w) (formatted e2)] else bodies w3 !! k)) as Hlk.
      { intros k Hk. rewrite Hb4. case_decide as Hk'.
        - subst k. rewrite list_lookup_alter_eq, Hb3, lookup_app_r, HBL, Nat.sub_diag by lia. done.
        - by rewrite list_lookup_alter_ne. }
      rewrite (write_stages _ _ _ _ Hfw3).
      case_bool_decide.
      * destruct (rotate _ _ _) as [[err2 l4] w4] eqn:Hrot2.
        apply rotate_frame in Hrot2 as (_ & _ & _ & _ & Hbod4 & _).
        eexists _, _. split; [done|]. cbn.
        assert (length (bodies w) < length (bodies (written (length (handles w)) e2 l3 w3))) as Hlt.
        { rewrite Hb4, length_alter, Hb3, length_app, HBL. simpl. lia. }
        assert (∀ k, k ≤ length (bodies w) →
                  bodies w4 !! k = bodies (written (length (handles w)) e2 l3 w3) !! k) as Hsame.
        { intros k Hk. destruct Hbod4 as [->| ->]; [done|]. apply lookup_app_l. lia. }
        rewrite !Hsame, !Hlk by lia.
        rewrite decide_True by done. rewrite decide_False by lia. done.
      * eexists _, _. split; [done|]. rewrite !Hlk by lia.
        rewrite decide_True by done. rewrite decide_False by lia. done.
  - intros. by eapply NewLogger_maxSize.
Qed.

(** *** After a failed rotation *)

Lemma rotate_failed_stuck l w fw i o err l' w' :
  file l = Some fw → fileWriter l = Some fw →
  handles w !! fw = Some (mkHandle i o) →
  (maxSize l ≤ currentSize l)%Z →
  rotate Dir l w = (Some err, l', w') →
  l' = l ∧ handles w' !! fw = Some (mkHandle i false) ∧ stuck l' w' ∧
  stderr w' = stderr w ∧ stdout w' = stdout w ∧ bodies w' = bodies w ∧
  refused w' = refused w.
Proof.
  intros Hf Hfw Hh Hc Hrot.
  pose proof (rotate_frame _ _ _ _ _ Hrot) as (Ho & He & _ & Hr & _).
  apply rotate_failed in Hrot as [-> ->].
  destruct (housekeeping_handles l w fw _ Hh) as (o' & Ho' & Hcl & _).
  rewrite (Hcl Hf) in Ho'. cbn in Ho'.
  destruct (housekeeping_fields l w) as (HB & _).
  split_and!; try done. by exists fw, i.
Qed.

(** In the stuck state a [write] cannot reach the disk: it reports
    the closed file and, the counter still being over the threshold,
    goes through [rotate] again. *)
Lemma stuck_write e l w :
  stuck l w →
  (0 ≤ currentSize l)%Z → (currentSize l + len (formatted e) + 1 < 2 ^ 63)%Z →
  ∃ fw, fileWriter l = Some fw ∧ file l = Some fw ∧
    write_error fw e l w = Some ErrClosed ∧
    stderr (written fw e l w) = stderr w ++ [report ErrClosed] ∧
    bodies (written fw e l w) = bodies w ∧
    handles (written fw e l w) = handles w ∧
    refused (written fw e l w) = refused w ∧
    counted e l = (currentSize l + len (formatted e) + 1)%Z ∧
    write Dir e l w =
      Done (let r := rotate Dir (with_currentSize (counted e l) l) (written fw e l w) in
            (r.1.2, r.2)).
Proof.
  intros (fw & i & Hf & Hfw & Hh & Hc) H0 Hlt. exists fw.
  pose proof (written_cases fw e l w) as (_ & _ & HH & _ & HR & _ & Hcs). cbv zeta in *.
  pose proof (counted_exact e l H0 Hlt) as Hcnt. pose proof (len_nonneg (formatted e)).
  assert (write Dir e l w =
          Done (let r := rotate Dir (with_currentSize (counted e l) l) (written fw e l w) in
                (r.1.2, r.2))) as Hw.
  { rewrite (write_stages _ _ _ _ Hfw). rewrite bool_decide_eq_true_2 by lia. done. }
  assert (handles (echoed e l w) !! fw = Some (mkHandle i false)) as Hhe.
  { unfold echoed. by destruct (consoleOut l). }
  destruct Hcs as [(_ & (j & Hj & _) & _)|(err & He & Hb & Hs & _)]; [congruence|].
  assert (err = ErrClosed) as ->.
  { unfold write_error, Output in He. rewrite (os_Write_closed _ _ _ i) in He by done.
    cbn in He. congruence. }
  split_and!; done.
Qed.

Lemma drain_stuck es : ∀ l w,
  stuck l w → refused w SysOpenFile = true →
  (0 ≤ currentSize l)%Z → (currentSize l + bytes_of es < 2 ^ 63)%Z →
  ∃ l' w', drain Dir es l w = Done (l', w') ∧ stuck l' w' ∧
    file l' = file l ∧ fileWriter l' = fileWriter l ∧
    currentSize l' = (currentSize l + bytes_of es)%Z ∧
    stderr w' = stderr w ++ replicate (length es) (report ErrClosed) ∧
    bodies w' = bodies w.
Proof.
  induction es as [|e es IH]; intros l w Hst Hro H0 Hlt.
  - exists l, w. cbn. rewrite app_nil_r, Z.add_0_r. done.
  - cbn [bytes_of foldr] in Hlt. fold (bytes_of es) in Hlt.
    pose proof (len_nonneg (formatted e)).
    assert (0 ≤ bytes_of es)%Z as Hb0.
    { clear. induction es as [|e' es IH]; [done|]. cbn. pose proof (len_nonneg (formatted e')).
      fold (bytes_of es). lia. }
    destruct (stuck_write e l w Hst H0) as (fw & Hfw & Hf & _ & Hs & Hb & Hh & Hr & Hcnt & Hw);
      [lia|].
    destruct Hst as (fw' & i & Hf' & _ & Hhi & Hc).
    assert (fw' = fw) as -> by congruence.
    destruct (rotate Dir (with_currentSize (counted e l) l) (written fw e l w))
      as [[[err|] l1] w1] eqn:Hrot; cycle 1.
    { exfalso. rewrite rotate_stages in Hrot. unfold os_OpenFile in Hrot.
      destruct (housekeeping_fields (with_currentSize (counted e l) l) (written fw e l w))
        as (_ & _ & _ & _ & HR2 & _).
      rewrite HR2, Hr, Hro in Hrot. done. }
    eapply (rotate_failed_stuck _ _ fw i false) in Hrot
      as (-> & Hh1 & Hst1 & He1 & _ & Hb1 & Hr1);
      [|done|done|by rewrite Hh|cbn; lia].
    destruct (IH (with_currentSize (counted e l) l) w1 Hst1) as (l2 & w2 & Hd & Hst2 & Hf2 & Hfw2 & Hc2 & He2 & Hb2).
    + by rewrite Hr1, Hr.
    + cbn. lia.
    + cbn. lia.
    + exists l2, w2. cbn [drain]. rewrite Hw. cbn. split_and!; try done.
      * rewrite Hc2. cbn. fold (bytes_of es). lia.
      * rewrite He2, He1, Hs, <- app_assoc. done.
      * by rewrite Hb2, Hb1, Hb.
Qed.

(** A file write that the handle and the disk allow reports nothing. *)
Lemma write_appends_quietly e l w fw i old :
  fileWriter l = Some fw → handles w !! fw = Some (mkHandle i true) →
  refused w SysWrite = false → bodies w !! i = Some old →
  ∃ l' w', write Dir e l w = Done (l', w') ∧
    bodies w' !! i = Some (old ++ [std_line (now w) (formatted e)]) ∧
    stderr w' = stderr w.
Proof.
  intros Hfw Hh Hr Hold.
  pose proof (written_cases fw e l w) as (_ & _ & _ & _ & _ & _ & Hc). cbv zeta in Hc.
  assert (bodies (written fw e l w) !! i = Some (old ++ [std_line (now w) (formatted e)]) ∧
          stderr (written fw e l w) = stderr w) as [Hb He].
  { destruct Hc as [(_ & (j & Hj & ->) & _ & ->)|(err & _ & _ & _ & [[_ Hn]|[_ Hn]])].
    - rewrite Hh in Hj. injection Hj as <-. by rewrite list_lookup_alter_eq, Hold.
    - by destruct (Hn i).
    - congruence. }
  rewrite (write_stages _ _ _ _ Hfw). case_bool_decide; [|eauto].
  destruct (rotate _ _ _) as [[err l'] w'] eqn:Hrot.
  apply rotate_frame in Hrot as (_ & Hs & _ & _ & Hbod & _).
  eexists _, _. split; [done|]. cbn. rewrite Hs. split; [|done].
  destruct Hbod as [->| ->]; [done|].
  rewrite lookup_app_l; [done|]. by eapply lookup_lt_Some.
Qed.

(** C8, as amended. When the rotation a [write] triggers fails, [write]
    still returns and prints nothing for that error: the only new
    diagnostic line is the one of its own file write, if that failed. The
    logger keeps the old handle, now closed, as file and as target of the
    writer, and the counter keeps its sum. In that state the [write] of
    the next entry (the counter not overflowing) fails with the closed
    file, reports it, writes nothing to any file and goes through [rotate]
    again. If that rotation fails as well the state is the same again; so,
    for as long as opening is refused, each entry of the queue adds one
    report and nothing else. If that rotation succeeds the condition is
    over: the entry that triggered it stays reported and unwritten, but
    the logger is on a new open handle on the file at the configured path
    with the counter at 0, and the entry after it is appended to that file
    and nothing is reported. *)
Theorem failed_rotation_sticks e l w fw i o err :
  file l = Some fw → fileWriter l = Some fw →
  handles w !! fw = Some (mkHandle i o) →
  (maxSize l ≤ counted e l)%Z →
  (rotate Dir (with_currentSize (counted e l) l) (written fw e l w)).1.1 = Some err →
  ∃ w1, write Dir e l w = Done (with_currentSize (counted e l) l, w1) ∧
    stderr w1 = stderr w ++ match write_error fw e l w with
                            | Some e' => [report e']
                            | None => []
                            end ∧
    handles w1 !! fw = Some (mkHandle i false) ∧
    stuck (with_currentSize (counted e l) l) w1 ∧
    (∀ e2 l2 w2, stuck l2 w2 →
       (0 ≤ currentSize l2)%Z → (currentSize l2 + len (formatted e2) + 1 < 2 ^ 63)%Z →
       ∃ fw2 r l3 w3, fileWriter l2 = Some fw2 ∧
         write_error fw2 e2 l2 w2 = Some ErrClosed ∧
         rotate Dir (with_currentSize (counted e2 l2) l2) (written fw2 e2 l2 w2) = (r, l3, w3) ∧
         write Dir e2 l2 w2 = Done (l3, w3) ∧
         stderr w3 = stderr w2 ++ [report ErrClosed] ∧
         (bodies w3 = bodies w2 ∨ bodies w3 = bodies w2 ++ [[]]) ∧
         (* the rotation failed again: the same state *)
         (r ≠ None → stuck l3 w3) ∧
         (* the rotation succeeded: the logger is back in service *)
         (r = None →
          ∃ j, file l3 = Some (length (handles w2)) ∧
            fileWriter l3 = Some (length (handles w2)) ∧
            handles w3 !! length (handles w2) = Some (mkHandle j true) ∧
            names w3 !! filePath l2 = Some j ∧ currentSize l3 = 0%Z ∧
            ∀ e3 old, refused w3 SysWrite = false → bodies w3 !! j = Some old →
              ∃ l4 w4, write Dir e3 l3 w3 = Done (l4, w4) ∧
                bodies w4 !! j = Some (old ++ [std_line (now w3) (formatted e3)]) ∧
                stderr w4 = stderr w3)) ∧
    (∀ es, refused w1 SysOpenFile = true →
       (0 ≤ counted e l)%Z → (counted e l + bytes_of es < 2 ^ 63)%Z →
       ∃ l2 w2, drain Dir es (with_currentSize (counted e l) l) w1 = Done (l2, w2) ∧
         stderr w2 = stderr w1 ++ replicate (length es) (report ErrClosed) ∧
         bodies w2 = bodies w1 ∧
         file l2 = Some fw ∧ fileWriter l2 = Some fw ∧
         currentSize l2 = (counted e l + bytes_of es)%Z ∧
         stuck l2 w2).
Proof.
  intros Hf Hfw Hh Hc Hrot.
  destruct (rotate _ _ _) as [[err' l1] w1] eqn:Hr. cbn in Hrot. subst err'.
  pose proof (written_cases fw e l w) as (_ & _ & HH & _ & _ & _ & Hcs). cbv zeta in *.
  pose proof Hr as Hr'.
  eapply (rotate_failed_stuck _ _ fw i o) in Hr' as (-> & Hh1 & Hst & He & _ & _ & _);
    [|done|done|by rewrite HH|done].
  exists w1. split_and!; try done.
  - by rewrite (write_stages _ _ _ _ Hfw), bool_decide_eq_true_2, Hr by done.
  - rewrite He.
    destruct Hcs as [(-> & _ & _ & ->)|(err' & -> & _ & -> & _)];
      [by rewrite app_nil_r|done].
  - intros e2 l2 w2 Hst2 H0 Hlt.
    destruct (stuck_write e2 l2 w2 Hst2 H0 Hlt)
      as (fw2 & Hfw2 & Hf2 & Hwe & Hs2 & Hb2 & Hh2 & _ & Hcnt & Hw2).
    destruct (rotate Dir (with_currentSize (counted e2 l2) l2) (written fw2 e2 l2 w2))
      as [[r l3] w3] eqn:Hr2.
    exists fw2, r, l3, w3.
    pose proof (rotate_frame _ _ _ _ _ Hr2) as (_ & He3 & _ & _ & Hb3 & _).
    split_and!; try done.
    + by rewrite He3, Hs2.
    + by rewrite <- Hb2.
    + intros Hne. destruct r as [err2|]; [|done].
      destruct Hst2 as (fw' & i' & Hf' & _ & Hh' & Hc').
      assert (fw' = fw2) as -> by congruence.
      pose proof (len_nonneg (formatted e2)).
      eapply (rotate_failed_stuck _ _ fw2 i' false) in Hr2 as (_ & _ & Hst3 & _);
        [done|done|done|by rewrite Hh2|cbn; lia].
    + intros ->.
      pose proof (housekeeping_fields (with_currentSize (counted e2 l2) l2)
                    (written fw2 e2 l2 w2)) as (_ & _ & _ & _ & _ & HL).
      apply rotate_succeeded in Hr2 as (j & -> & Hh' & Hn & _).
      assert (handles w3 !! length (handles w2) = Some (mkHandle j true)) as Hnew.
      { rewrite Hh', lookup_app_r, HL, Hh2, Nat.sub_diag by (rewrite HL, Hh2; lia). done. }
      exists j. cbn [file fileWriter currentSize]. rewrite Hh2. split_and!; try done.
      intros e3 old Hwr Hold.
      by apply (write_appends_quietly e3 _ w3 (length (handles w2)) j old).
  - intros es Hro H0 Hlt.
    destruct (drain_stuck es _ w1 Hst Hro) as (l2 & w2 & Hd & Hst2 & Hf2 & Hfw2 & Hc2 & He2 & Hb2);
      [done..|].
    exists l2, w2. split_and!; try done.
    + by rewrite Hf2.
    + by rewrite Hfw2.
Qed.

(** *** The disk, body by body *)

Lemma grown_refl w : grown w w (replicate (length (bodies w)) []).
Proof.
  split; [done|]. split; [apply length_replicate|]. intros i.
  destruct (bodies w !! i) as [b|] eqn:Hb.
  - rewrite lookup_replicate_2 by (by eapply lookup_lt_Some). cbn. by rewrite app_nil_r.
  - apply lookup_ge_None in Hb.
    rewrite (lookup_ge_None_2 (replicate _ _)) by (rewrite length_replicate; lia). done.
Qed.

Lemma grown_same w0 w w' segs :
  bodies w' = bodies w → grown w0 w segs → grown w0 w' segs.
Proof. intros Hb (H1 & H2 & H3). unfold grown. by rewrite Hb. Qed.

Lemma grown_snoc w0 w w' segs :
  bodies w' = bodies w ++ [[]] → grown w0 w segs → grown w0 w' (segs ++ [[]]).
Proof.
  intros Hb (H1 & H2 & H3). unfold grown. rewrite Hb, !length_app. cbn.
  split; [lia|]. split; [lia|]. intros i.
  destruct (decide (i < length segs)) as [Hi|Hi].
  - rewrite !lookup_app_l by lia. apply H3.
  - rewrite !lookup_app_r by lia. rewrite H2.
    destruct (i - length (bodies w)) as [|k] eqn:Hk; [|done]. cbn.
    rewrite (lookup_ge_None_2 (bodies w0)) by lia. done.
Qed.

Lemma grown_alter w0 w w' segs c x :
  bodies w' = alter (λ b, b ++ [x]) c (bodies w) → grown w0 w segs →
  grown w0 w' (alter (λ b, b ++ [x]) c segs).
Proof.
  intros Hb (H1 & H2 & H3). unfold grown. rewrite Hb, !length_alter.
  split; [done|]. split; [done|]. intros i.
  destruct (decide (c = i)) as [->|Hne].
  - rewrite !list_lookup_alter_eq, H3. destruct (segs !! i); cbn; [|done].
    by rewrite app_assoc.
  - rewrite !list_lookup_alter_ne by done. apply H3.
Qed.

Lemma grown_length w0 w segs : grown w0 w segs → length segs = length (bodies w).
Proof. by intros (_ & ? & _). Qed.

Lemma concat_all_nil (segs : list (list string)) :
  (∀ j sg, segs !! j = Some sg → sg = []) → concat segs = [].
Proof.
  induction segs as [|sg segs IH]; intros H; [done|]. cbn.
  rewrite (H 0 sg) by done. rewrite IH; [done|]. intros j sg'. apply (H (S j)).
Qed.

Lemma concat_alter_last (segs : list (list string)) c x :
  c < length segs →
  (∀ j sg, c < j → segs !! j = Some sg → sg = []) →
  concat (alter (λ b, b ++ [x]) c segs) = concat segs ++ [x].
Proof.
  revert c. induction segs as [|sg segs IH]; intros c Hc H; [cbn in Hc; lia|].
  destruct c as [|c]; cbn.
  - rewrite (concat_all_nil segs), !app_nil_r; [done|].
    intros j sg'. apply (H (S j)). lia.
  - rewrite IH, app_assoc; [done|cbn in Hc; lia|].
    intros j sg' Hj. apply (H (S j)). lia.
Qed.

Lemma persisted_of_snoc ds errs e r :
  length errs = length ds →
  persisted_of (ds ++ [e]) (errs ++ [r]) =
  persisted_of ds errs ++ match r with None => [e] | Some _ => [] end.
Proof.
  revert errs. induction ds as [|d ds IH]; intros [|r' errs] Hl; try done.
  cbn in Hl. cbn. destruct r'; rewrite IH by lia; reflexivity.
Qed.

Lemma reports_of_snoc errs r :
  reports_of (errs ++ [r]) =
  reports_of errs ++ match r with Some e => [report e] | None => [] end.
Proof.
  induction errs as [|r' errs IH]; [destruct r; reflexivity|].
  cbn. destruct r'; rewrite IH; reflexivity.
Qed.

Lemma persisted_of_sublist ds errs : persisted_of ds errs `sublist_of` ds.
Proof.
  revert errs. induction ds as [|d ds IH]; intros [|[e|] errs]; cbn;
    try apply sublist_nil_l.
  - by apply sublist_cons.
  - by apply sublist_skip.
Qed.

(** *** The disk invariant *)

Lemma disk_inv_logger w0 l l' w ds :
  file l' = file l → fileWriter l' = fileWriter l → filePath l' = filePath l →
  disk_inv w0 l w ds → disk_inv w0 l' w ds.
Proof.
  intros H1 H2 H3 (segs & errs & fw & c & o & H). unfold disk_inv.
  rewrite H1, H2, H3. eauto 10.
Qed.

Lemma written_disk w0 l w ds fw e :
  fileWriter l = Some fw → disk_inv w0 l w ds →
  disk_inv w0 l (written fw e l w) (ds ++ [e]).
Proof.
  intros Hfw (segs & errs & fw' & c & o & Hwf & Hg & Hf & Hfw' & Hh & Htl & Hn & Hl & Hlines & Herr).
  assert (fw' = fw) as -> by congruence.
  pose proof (written_cases fw e l w) as (_ & HN & HH & _ & _ & _ & Hcs). cbv zeta in *.
  pose proof (written_wf fw e l w Hwf) as Hwf'.
  assert (c < length segs) as Hc.
  { rewrite (grown_length _ _ _ Hg). destruct Hwf as [_ Hw]. apply (Hw _ _ Hh). }
  destruct Hcs as [(_ & (i & Hi & Hb) & _ & He)|(err & _ & Hb & He & _)].
  - rewrite Hh in Hi. injection Hi as <- ->.
    exists (alter (λ b, b ++ [std_line (now w) (formatted e)]) c segs), (errs ++ [None]), fw, c, true.
    rewrite HN, HH, He. split_and!; try done.
    + by eapply grown_alter.
    + intros j sg Hj. rewrite list_lookup_alter_ne by lia. by apply Htl.
    + rewrite !length_app. cbn. lia.
    + rewrite concat_alter_last, persisted_of_snoc by done.
      apply Forall2_app; [done|]. repeat constructor. by eexists.
    + by rewrite reports_of_snoc, app_nil_r.
  - exists segs, (errs ++ [Some err]), fw, c, o.
    rewrite HN, HH, He. split_and!; try done.
    + by eapply grown_same.
    + rewrite !length_app. cbn. lia.
    + by rewrite persisted_of_snoc, app_nil_r.
    + by rewrite reports_of_snoc, Herr, app_assoc.
Qed.

Lemma rotate_disk w0 l w ds err l' w' :
  disk_inv w0 l w ds → rotate Dir l w = (err, l', w') → disk_inv w0 l' w' ds.
Proof.
  intros (segs & errs & fw & c & o & Hwf & Hg & Hf & Hfw & Hh & Htl & Hn & Hl & Hlines & Herr) Hrot.
  pose proof (rotate_wf _ _ _ _ _ Hwf Hrot) as Hwf'.
  pose proof (rotate_frame _ _ _ _ _ Hrot) as (_ & He & _ & _ & _ & _ & _ & _ & Hp & _).
  pose proof (housekeeping_fields l w) as (HB & _ & _ & _ & _ & HL).
  destruct (housekeeping_handles l w fw _ Hh) as (o' & Ho' & _). cbn in Ho'.
  pose proof (housekeeping_names l w c Hn) as Hn'.
  assert (c < length segs) as Hc.
  { rewrite (grown_length _ _ _ Hg). destruct Hwf as [_ Hw]. apply (Hw _ _ Hh). }
  destruct err as [err|].
  - apply rotate_failed in Hrot as [-> ->].
    exists segs, errs, fw, c, o'. rewrite He in *. split_and!; try done.
    by eapply grown_same.
  - apply rotate_succeeded in Hrot as (i & -> & Hh' & Hni & [(Hnone & -> & Hb)|(Hsome & Hb)]).
    + exists (segs ++ [[]]), errs, (length (handles w)), (length (bodies w)), true.
      cbn [file fileWriter filePath]. rewrite He. split_and!; try done.
      * by eapply grown_snoc.
      * rewrite Hh', <- HL. by rewrite lookup_app_r, Nat.sub_diag.
      * intros j sg Hj Hs. apply lookup_lt_Some in Hs.
        rewrite length_app, (grown_length _ _ _ Hg) in Hs. cbn in Hs. lia.
      * by right.
      * by rewrite concat_app, app_nil_r.
    + assert (i = c) as -> by (destruct Hn'; congruence).
      exists segs, errs, (length (handles w)), c, true.
      cbn [file fileWriter filePath]. rewrite He. split_and!; try done.
      * by eapply grown_same.
      * rewrite Hh', <- HL. by rewrite lookup_app_r, Nat.sub_diag.
      * by right.
Qed.

Lemma write_disk w0 l w ds e l' w' :
  disk_inv w0 l w ds → write Dir e l w = Done (l', w') → disk_inv w0 l' w' (ds ++ [e]).
Proof.
  intros Hd Hw.
  destruct Hd as (segs & errs & fw & c & o & Hd). pose proof Hd as (_ & _ & _ & Hfw & _).
  assert (disk_inv w0 l w ds) as Hd' by (by exists segs, errs, fw, c, o).
  rewrite (write_stages _ _ _ _ Hfw) in Hw.
  pose proof (written_disk _ _ _ _ _ e Hfw Hd') as Hd1.
  apply (disk_inv_logger _ _ (with_currentSize (counted e l) l)) in Hd1; [|done..].
  case_bool_decide; injection Hw as <- <-; [|done].
  destruct (rotate _ _ _) as [[err l1] w1] eqn:Hrot. by eapply rotate_disk.
Qed.

Lemma write_frame e l w l' w' :
  write Dir e l w = Done (l', w') →
  level l' = level l ∧ consoleOut l' = consoleOut l ∧ maxSize l' = maxSize l ∧
  filePath l' = filePath l ∧ logChan l' = logChan l ∧ wg l' = wg l.
Proof.
  intros Hw. destruct (fileWriter l) as [fw|] eqn:Hfw; [|by unfold write in Hw; rewrite Hfw in Hw].
  rewrite (write_stages _ _ _ _ Hfw) in Hw.
  case_bool_decide; injection Hw as <- <-; [|done].
  destruct (rotate _ _ _) as [[err l1] w1] eqn:Hrot.
  apply rotate_frame in Hrot as (_ & _ & _ & _ & _ & ? & ? & ? & ? & ? & ?). done.
Qed.

Lemma NewLogger_disk path lv mb con w l w0 :
  wf_world w → NewLogger Dir path lv mb con w = (inl l, w0) →
  disk_inv w0 l w0 [] ∧ logChan l = mkChan [] 2000 false ∧ wg l = 0 ∧
  level l = lv ∧ filePath l = path ∧ consoleOut l = con.
Proof.
  intros Hwf. unfold NewLogger.
  destruct (rotate _ _ _) as [[[e|] l1] w1] eqn:Hrot; [done|]. intros [= <- <-].
  pose proof (rotate_wf _ _ _ _ _ Hwf Hrot) as Hwf'.
  pose proof (rotate_succeeded _ _ _ _ Hrot) as (i & -> & Hh & Hn & _).
  split; [|done].
  exists (replicate (length (bodies w1)) []), [], (length (handles w)), i, true.
  cbn [file fileWriter filePath]. split_and!; try done.
  - apply grown_refl.
  - rewrite Hh. destruct (housekeeping_fields
      (mkLogger lv con None None (int64_mul (int64_mul mb 1024) 1024) path 0 (mkChan [] 2000 false) 0) w)
      as (_ & _ & _ & _ & _ & <-).
    by rewrite lookup_app_r, Nat.sub_diag.
  - intros j sg _ Hs. apply lookup_replicate in Hs as [-> _]. done.
  - by right.
  - cbn. rewrite concat_all_nil; [constructor|].
    intros j sg Hs. apply lookup_replicate in Hs as [-> _]. done.
  - cbn. by rewrite app_nil_r.
Qed.

(** *** Goroutines and the channel *)

Lemma running_app ws1 ws2 : running (ws1 ++ ws2) = running ws1 + running ws2.
Proof. unfold running. by rewrite filter_app, length_app. Qed.

Lemma running_cons wk ws :
  running (wk :: ws) = (if is_running wk then 1 else 0) + running ws.
Proof.
  unfold running. rewrite filter_cons. destruct (is_running wk) eqn:H.
  - by rewrite decide_True.
  - by rewrite decide_False.
Qed.

Lemma running_insert ws i x y :
  ws !! i = Some x →
  running (<[i := y]> ws) + (if is_running x then 1 else 0) =
  running ws + (if is_running y then 1 else 0).
Proof.
  revert i. induction ws as [|wk ws IH]; intros [|i] H; try done.
  - injection H as ->. change (<[0:=y]> (x :: ws)) with (y :: ws).
    rewrite !running_cons. lia.
  - change (<[S i:=y]> (wk :: ws)) with (wk :: <[i:=y]> ws).
    rewrite !running_cons. specialize (IH i H). lia.
Qed.

Lemma running_zero ws : running ws = 0 → ∀ i wk, ws !! i = Some wk → wk = Exited.
Proof.
  induction ws as [|wk' ws IH]; intros H i wk Hi; [done|].
  rewrite running_cons in H. destruct i as [|i].
  - injection Hi as ->. destruct wk; cbn in H; [lia..|done].
  - apply (IH ltac:(lia) i). done.
Qed.

Lemma single_worker (ws : list Worker) i wk :
  length ws ≤ 1 → ws !! i = Some wk → ws = [wk] ∧ i = 0.
Proof.
  destruct ws as [|wk' [|? ?]]; cbn; intros Hl Hi; [done| |lia].
  destruct i; [|done]. by injection Hi as ->.
Qed.

Lemma elem_of_insert_worker (ws : list Worker) i x y :
  x ∈ <[i := y]> ws → x = y ∨ x ∈ ws.
Proof.
  intros [j Hj]%list_elem_of_lookup.
  apply list_lookup_insert_Some in Hj as [(-> & -> & _)|[_ Hj]]; [by left|].
  right. apply list_elem_of_lookup. eauto.
Qed.

Lemma os_Close_wf f w : wf_world w → wf_world (snd (os_Close f w)).
Proof.
  intros [Hn Hh]. destruct (os_Close_fields f w) as (_ & HN & HB & _). cbv zeta in *.
  split; rewrite HB.
  - by rewrite HN.
  - intros g h Hg. destruct (handles w !! g) as [[i o]|] eqn:H0.
    + destruct (os_Close_inode f g w i o H0) as (o' & Ho'). rewrite Ho' in Hg.
      injection Hg as <-. cbn. apply (Hh _ _ H0).
    + apply lookup_ge_None in H0. apply lookup_lt_Some in Hg.
      destruct (os_Close_fields f w) as (_ & _ & _ & _ & _ & _ & _ & HL).
      cbv zeta in HL. lia.
Qed.

Lemma os_Close_disk w0 l w ds f :
  disk_inv w0 l w ds → disk_inv w0 l (snd (os_Close f w)) ds.
Proof.
  intros (segs & errs & fw & c & o & Hwf & Hg & Hf & Hfw & Hh & Htl & Hn & Hl & Hlines & Herr).
  destruct (os_Close_fields f w) as (_ & HN & HB & _ & HE & _). cbv zeta in *.
  destruct (os_Close_inode f fw w c o Hh) as (o' & Ho').
  exists segs, errs, fw, c, o'. rewrite HN, HE. split_and!; try done.
  - by apply os_Close_wf.
  - by eapply grown_same.
Qed.

Lemma boot_inv path lv mb con w l w0 :
  wf_world w → NewLogger Dir path lv mb con w = (inl l, w0) → sys_inv w0 (boot l w0).
Proof.
  intros Hwf Hnew.
  destruct (NewLogger_disk _ _ _ _ _ _ _ Hwf Hnew) as (Hd & Hch & Hwg & _).
  unfold sys_inv, boot. cbn. rewrite Hch, Hwg. cbn. split_and!; try done.
  intros H. by apply elem_of_nil in H.
Qed.

Ltac sys_proj :=
  cbn [exec lg os workers close_pc accepted dispatched logChan wg level file fileWriter
       filePath buf closed cap with_logChan with_wg with_level SetLevel with_currentSize
       consoleOut maxSize currentSize] in *.

Ltac sys_simpl :=
  sys_proj; unfold StartWorker, wg_Done, Close_close, Close_wait in *; sys_proj.

(** Every step keeps the invariant. *)
Lemma exec_inv w0 a s s' :
  sys_inv w0 s → exec Dir a s = Done s' → sys_inv w0 s'.
Proof.
  intros (Hcl & Hwg & Hex & Hq & Hd) Hexec.
  destruct s as [l w ws pc acc dis]. sys_simpl.
  destruct a as [lv msg|lv| |i|i|i| | |t r]; sys_simpl.
  - (* log *)
    unfold log, send in Hexec.
    case_bool_decide as Hlv.
    { injection Hexec as <-. unfold sys_inv. sys_simpl. rewrite drop_all, app_nil_r. by split_and!. }
    destruct (closed (logChan l)) eqn:Hc; [done|].
    case_bool_decide as Hroom; [|done]. injection Hexec as <-. unfold sys_inv. sys_simpl.
    rewrite drop_app_length. split_and!; try done.
    + intros Hx. apply Hex in Hx as [? _]. congruence.
    + intros Hl. rewrite (Hq Hl), <- !app_assoc. done.
  - (* SetLevel *)
    injection Hexec as <-. unfold sys_inv. sys_simpl. by split_and!.
  - (* StartWorker *)
    injection Hexec as <-. unfold sys_inv. sys_simpl. split_and!; try done.
    + rewrite running_app, Hwg. change (running [Idle]) with 1. lia.
    + intros [Hx|Hx]%elem_of_app; [by apply Hex|]. by apply list_elem_of_singleton in Hx.
    + rewrite length_app. cbn. intros Hl. destruct ws; [|cbn in Hl; lia]. by apply Hq; cbn; lia.
  - (* receive *)
    destruct (ws !! i) as [[|e|]|] eqn:Hi; try done.
    unfold recv in Hexec. destruct (buf (logChan l)) as [|e rest] eqn:Hb;
      [by destruct (closed (logChan l))|].
    injection Hexec as <-. unfold sys_inv. sys_simpl. split_and!; try done.
    + pose proof (running_insert ws i Idle (Holding e) Hi) as Hr. cbn in Hr. lia.
    + intros Hx. exfalso. apply elem_of_insert_worker in Hx as [Hx|Hx]; [done|].
      apply Hex in Hx as [_ Hx]. done.
    + rewrite length_insert. intros Hl. destruct (single_worker ws i Idle Hl Hi) as [-> ->].
      cbn. rewrite (Hq Hl). done.
  - (* write *)
    destruct (ws !! i) as [[|e|]|] eqn:Hi; try done.
    destruct (write Dir e l w) as [[l' w']| |] eqn:Hw; try done.
    injection Hexec as <-. unfold sys_inv. sys_simpl.
    destruct (write_frame _ _ _ _ _ Hw) as (_ & _ & _ & _ & Hch & Hwg').
    rewrite Hch, Hwg'. split_and!; try done.
    + pose proof (running_insert ws i (Holding e) Idle Hi) as Hr. cbn in Hr. lia.
    + intros Hx. apply elem_of_insert_worker in Hx as [Hx|Hx]; [done|]. by apply Hex.
    + rewrite length_insert. intros Hl. destruct (single_worker ws i _ Hl Hi) as [-> ->].
      cbn. rewrite (Hq Hl). cbn. by rewrite <- app_assoc.
    + by eapply write_disk.
  - (* end of the loop *)
    destruct (ws !! i) as [[|e|]|] eqn:Hi; try done.
    unfold recv in Hexec. destruct (buf (logChan l)) as [|e rest] eqn:Hb; [|done].
    destruct (closed (logChan l)) eqn:Hc; [|done].
    injection Hexec as <-. unfold sys_inv. sys_simpl. rewrite Hb, Hc. split_and!; try done.
    + pose proof (running_insert ws i Idle Exited Hi) as Hr. cbn in Hr. lia.
    + rewrite length_insert. intros Hl. destruct (single_worker ws i _ Hl Hi) as [-> ->].
      cbn. rewrite (Hq Hl). done.
  - (* close(logChan) *)
    unfold close in Hexec. destruct (closed (logChan l)) eqn:Hc; cbn in Hexec; [done|].
    injection Hexec as <-. unfold sys_inv. sys_simpl. split_and!; try done.
    intros Hx. apply Hex in Hx as [? _]. congruence.
  - (* Wait returns *)
    destruct pc; try done. case_bool_decide; [|done].
    injection Hexec as <-. unfold sys_inv. sys_simpl. split_and!; try done.
    + split; [done|]. intros _. by apply Hcl.
    + destruct (file l); [|done]. by apply os_Close_disk.
  - (* environment *)
    injection Hexec as <-. unfold sys_inv. sys_simpl. by split_and!.
Qed.

Lemma run_app sched1 sched2 s :
  run Dir (sched1 ++ sched2) s =
  match run Dir sched1 s with
  | Done s' => run Dir sched2 s'
  | Blocked => Blocked
  | Panic => Panic
  end.
Proof.
  revert s. induction sched1 as [|a sched1 IH]; intros s; [done|].
  cbn. destruct (exec Dir a s); [apply IH|done..].
Qed.

(** An invariant of the steps a schedule takes is an invariant of the
    schedule. *)
Lemma run_ind (P : System → Prop) (ok : Action → Prop) :
  (∀ a s s', ok a → P s → exec Dir a s = Done s' → P s') →
  ∀ sched s s', Forall ok sched → P s → run Dir sched s = Done s' → P s'.
Proof.
  intros Hstep sched. induction sched as [|a sched IH]; intros s s' Hok HP Hrun.
  - by injection Hrun as <-.
  - cbn in Hrun. destruct (exec Dir a s) as [s1| |] eqn:He; try done.
    apply Forall_cons in Hok as [Ha Hok].
    apply (IH s1 s'); [done| |done]. by apply (Hstep a s s1).
Qed.

Lemma run_inv w0 sched s s' :
  sys_inv w0 s → run Dir sched s = Done s' → sys_inv w0 s'.
Proof.
  intros HP Hrun.
  apply (run_ind (sys_inv w0) (λ _, True)) with sched s; try done.
  - intros a s1 s2 _. apply exec_inv.
  - by apply Forall_true.
Qed.

Lemma count_starts_cons a sched :
  count_starts (a :: sched) = (if is_start a then 1 else 0) + count_starts sched.
Proof.
  unfold count_starts. rewrite filter_cons. destruct (is_start a).
  - by rewrite decide_True.
  - by rewrite decide_False.
Qed.

Lemma count_starts_zero sched :
  count_starts sched = 0 → Forall (λ a, is_start a = false) sched.
Proof.
  induction sched as [|a sched IH]; [constructor|].
  rewrite count_starts_cons. destruct (is_start a) eqn:Ha; [lia|].
  intros H. constructor; [done|]. apply IH. lia.
Qed.

Lemma exec_workers_length a s s' :
  exec Dir a s = Done s' →
  length (workers s') = length (workers s) + (if is_start a then 1 else 0).
Proof.
  destruct a as [lv msg|lv| |i|i|i| | |t r]; cbn [exec is_start];
    unfold StartWorker, wg_Done, Close_close, Close_wait; intros H.
  - destruct (log _ _ _ _); [|done..]. injection H as <-. cbn. lia.
  - injection H as <-. cbn. lia.
  - injection H as <-. cbn. by rewrite length_app.
  - destruct (workers s !! i) as [[| |]|]; try done.
    destruct (recv _) as [[[e|] c]| |]; try done. injection H as <-. cbn.
    rewrite length_insert. lia.
  - destruct (workers s !! i) as [[| |]|]; try done.
    destruct (write _ _ _ _) as [[l' w']| |]; try done. injection H as <-. cbn.
    rewrite length_insert. lia.
  - destruct (workers s !! i) as [[| |]|]; try done.
    destruct (recv _) as [[[e|] c]| |]; try done. injection H as <-. cbn.
    rewrite length_insert. lia.
  - destruct (close _); [|done..]. injection H as <-. cbn. lia.
  - destruct (close_pc s); try done. case_bool_decide; [|done].
    injection H as <-. cbn. lia.
  - injection H as <-. cbn. lia.
Qed.

Lemma run_workers_length sched : ∀ s s',
  run Dir sched s = Done s' →
  length (workers s') = length (workers s) + count_starts sched.
Proof.
  induction sched as [|a sched IH]; intros s s' H.
  - injection H as <-. cbn. lia.
  - cbn in H. destruct (exec Dir a s) as [s1| |] eqn:He; try done.
    rewrite (IH _ _ H), (exec_workers_length _ _ _ He), count_starts_cons. lia.
Qed.

(** The entries a step accepts are its own call of [log], if it is one. *)
Lemma exec_accepted a s s' :
  exec Dir a s = Done s' →
  ∃ later, accepted s' = accepted s ++ later ∧
           call_of <$> later `sublist_of` emits [a] ∧
           (∀ lv msg, a = ALog lv msg →
              later = if bool_decide (lv < level (lg s))%Z then []
                      else [mkEntry lv msg (now (os s))]).
Proof.
  destruct a as [lv msg|lv| |i|i|i| | |t r]; cbn [exec emits];
    unfold StartWorker, wg_Done, Close_close, Close_wait; intros H;
    try (exists []; rewrite app_nil_r; split_and!; [|done|done]).
  - unfold log, send in H. case_bool_decide as Hlv.
    + injection H as <-. exists []. cbn. rewrite drop_all.
      split_and!; [done|apply sublist_nil_l|].
      intros ? ? [= <- <-]. by rewrite bool_decide_eq_true_2.
    + destruct (closed _); [done|]. case_bool_decide; [|done]. injection H as <-.
      exists [mkEntry lv msg (now (os s))]. cbn. rewrite drop_app_length.
      split_and!; [done|done|].
      intros ? ? [= <- <-]. by rewrite bool_decide_eq_false_2.
  - by injection H as <-.
  - by injection H as <-.
  - destruct (workers s !! i) as [[| |]|]; try done.
    destruct (recv _) as [[[e|] c]| |]; try done. by injection H as <-.
  - destruct (workers s !! i) as [[| |]|]; try done.
    destruct (write _ _ _ _) as [[l' w']| |]; try done. by injection H as <-.
  - destruct (workers s !! i) as [[| |]|]; try done.
    destruct (recv _) as [[[e|] c]| |]; try done. by injection H as <-.
  - destruct (close _); [|done..]. by injection H as <-.
  - destruct (close_pc s); try done. case_bool_decide; [|done]. by injection H as <-.
  - by injection H as <-.
Qed.

Lemma emits_app sched1 sched2 : emits (sched1 ++ sched2) = emits sched1 ++ emits sched2.
Proof.
  induction sched1 as [|a sched1 IH]; [done|].
  destruct a; cbn; rewrite ?IH; done.
Qed.

Lemma run_accepted sched : ∀ s s',
  run Dir sched s = Done s' →
  ∃ later, accepted s' = accepted s ++ later ∧ call_of <$> later `sublist_of` emits sched.
Proof.
  induction sched as [|a sched IH]; intros s s' H.
  - injection H as <-. exists []. by rewrite app_nil_r.
  - cbn in H. destruct (exec Dir a s) as [s1| |] eqn:He; try done.
    destruct (exec_accepted _ _ _ He) as (l1 & H1 & S1 & _).
    destruct (IH _ _ H) as (l2 & H2 & S2).
    exists (l1 ++ l2). rewrite H2, H1, app_assoc. split; [done|].
    rewrite fmap_app. change (a :: sched) with ([a] ++ sched). rewrite emits_app.
    by apply sublist_app.
Qed.

(** The steps other than [StartWorker] keep [closed_inv]. *)
Lemma exec_closed_inv w0 a s s' :
  is_start a = false → sys_inv w0 s ∧ closed_inv s → exec Dir a s = Done s' →
  sys_inv w0 s' ∧ closed_inv s'.
Proof.
  intros Ha [Hinv Hc] He. split; [by eapply exec_inv|].
  destruct Hinv as (Hcl & Hwg & _ & _ & Hd).
  destruct s as [l w ws pc acc dis]. unfold closed_inv in *. sys_simpl.
  destruct a as [lv msg|lv| |i|i|i| | |t r]; sys_simpl; try done.
  - destruct (log _ _ _ _) as [l'| |] eqn:Hl; try done. injection He as <-. sys_simpl.
    intros Hpc. destruct (Hc Hpc) as (Hr & fw & c & Hf & Hh). split; [done|].
    exists fw, c. split; [|done].
    unfold log in Hl. case_bool_decide; [by injection Hl as <-|].
    destruct (send _ _); try done. by injection Hl as <-.
  - injection He as <-. done.
  - destruct (ws !! i) as [[|e|]|] eqn:Hi; try done.
    destruct (recv _) as [[[e|] ch]| |]; try done. injection He as <-. sys_simpl.
    intros Hpc. destruct (Hc Hpc) as (Hr & _). by pose proof (running_zero _ Hr _ _ Hi).
  - destruct (ws !! i) as [[|e|]|] eqn:Hi; try done.
    destruct (write _ _ _ _) as [[l' w']| |]; try done. injection He as <-. sys_simpl.
    intros Hpc. destruct (Hc Hpc) as (Hr & _). by pose proof (running_zero _ Hr _ _ Hi).
  - destruct (ws !! i) as [[|e|]|] eqn:Hi; try done.
    destruct (recv _) as [[[e|] ch]| |]; try done. injection He as <-. sys_simpl.
    intros Hpc. destruct (Hc Hpc) as (Hr & _). by pose proof (running_zero _ Hr _ _ Hi).
  - destruct (close _) as [ch| |]; try done. by injection He as <-.
  - destruct pc; try done. case_bool_decide as Hz; [|done]. injection He as <-. sys_simpl.
    intros _. split; [by rewrite <- Hwg|].
    destruct Hd as (segs & errs & fw & c & o & _ & _ & Hf & _ & Hh & _).
    exists fw, c. rewrite Hf. split; [done|]. by eapply os_Close_closes.
  - injection He as <-. done.
Qed.

(** Drain on close, for any state the invariant holds of: if the
    schedule starts one worker before [Close] closes the channel and none
    after, then once [Close] has returned the worker has left its loop,
    the queue is empty, everything accepted has gone through [write] in
    the order of acceptance, and the handle is closed. *)
Lemma drained w0 pre post s0 s :
  sys_inv w0 s0 → workers s0 = [] → close_pc s0 = NotCalled →
  count_starts pre = 1 → count_starts post = 0 →
  run Dir (pre ++ ACloseChan :: post) s0 = Done s → close_pc s = Returned →
  sys_inv w0 s ∧ workers s = [Exited] ∧ buf (logChan (lg s)) = [] ∧
  dispatched s = accepted s ∧
  ∃ fw c, file (lg s) = Some fw ∧ handles (os s) !! fw = Some (mkHandle c false).
Proof.
  intros Hinv Hws Hpc Hpre Hpost Hrun Hret.
  rewrite run_app in Hrun. destruct (run Dir pre s0) as [s1| |] eqn:H1; try done.
  cbn [run] in Hrun. destruct (exec Dir ACloseChan s1) as [s2| |] eqn:H2; try done.
  pose proof (run_inv _ _ _ _ Hinv H1) as Hinv1.
  pose proof (exec_inv _ _ _ _ Hinv1 H2) as Hinv2.
  assert (length (workers s2) = 1) as Hlen2.
  { rewrite (exec_workers_length _ _ _ H2), (run_workers_length _ _ _ H1), Hws, Hpre. done. }
  assert (closed_inv s2) as Hc2.
  { intros Hx. cbn in H2. unfold Close_close in H2.
    destruct (close _); try done. by injection H2 as <-. }
  destruct (run_ind (λ s, sys_inv w0 s ∧ closed_inv s) (λ a, is_start a = false)
              (exec_closed_inv w0) post s2 s) as [Hinv3 Hc3];
    [by apply count_starts_zero|done|done|].
  assert (length (workers s) = 1) as Hlen.
  { rewrite (run_workers_length _ _ _ Hrun), Hlen2, Hpost. done. }
  destruct (Hc3 Hret) as (Hrun0 & Hfile).
  assert (workers s = [Exited]) as Hex.
  { destruct (workers s) as [|wk [|? ?]] eqn:Hw; try done.
    by rewrite (running_zero _ Hrun0 0 wk). }
  pose proof Hinv3 as (Hcl & Hwg & Hexi & Hq & Hd).
  destruct Hexi as [_ Hbuf]; [rewrite Hex; by left|].
  split_and!; try done.
  rewrite Hq by (rewrite Hex; done). rewrite Hex, Hbuf. cbn. by rewrite app_nil_r.
Qed.

Lemma holding_length ws : length (holding ws) ≤ length ws.
Proof. induction ws as [|[|e|] ws IH]; cbn; lia. Qed.


(** *** The claims about the running program *)





(** C5. With the worker started at most once, at every point of every
    run the entries [write] has been called on, followed by the one the
    worker holds and by the queue, are the accepted entries in the order
    of acceptance, which is the order of the calls of [log]; at most one
    entry is being written. The lines added to the files, read body after
    body in the order the bodies were created, are the stamped lines of
    a subsequence of the accepted entries, in that same order. *)
Theorem fifo_order path lv mb con w l w0 sched s :
  wf_world w → NewLogger Dir path lv mb con w = (inl l, w0) →
  count_starts sched ≤ 1 →
  run Dir sched (boot l w0) = Done s →
  accepted s = dispatched s ++ holding (workers s) ++ buf (logChan (lg s)) ∧
  length (holding (workers s)) ≤ 1 ∧
  call_of <$> accepted s `sublist_of` emits sched ∧
  ∃ segs errs,
    grown w0 (os s) segs ∧ length errs = length (dispatched s) ∧
    Forall2 line_of (concat segs) (persisted_of (dispatched s) errs) ∧
    persisted_of (dispatched s) errs `sublist_of` accepted s.
Proof.
  intros Hwf Hnew Hstarts Hrun.
  pose proof (boot_inv _ _ _ _ _ _ _ Hwf Hnew) as Hinv0.
  pose proof (run_inv _ _ _ _ Hinv0 Hrun) as (_ & _ & _ & Hq & Hd).
  pose proof (run_workers_length _ _ _ Hrun) as Hlen. cbn in Hlen.
  specialize (Hq ltac:(lia)).
  destruct (run_accepted _ _ _ Hrun) as (later & Hl & Hsub). cbn in Hl. subst later.
  split_and!; try done.
  - pose proof (holding_length (workers s)). lia.
  - destruct Hd as (segs & errs & fw & c & o & _ & Hg & _ & _ & _ & _ & _ & Hle & Hlines & _).
    exists segs, errs. split_and!; try done.
    rewrite Hq. apply sublist_inserts_r, persisted_of_sublist.
Qed.

(** C9. If [StartWorker] was never called, [Close] returns at once: the
    wait finds the counter of the wait group at 0. Every accepted entry is
    still in the queue, [write] was called on none, nothing was added to
    any file or to the console streams, and the handle is closed. *)
Theorem close_without_worker path lv mb con w l w0 sched s :
  wf_world w → NewLogger Dir path lv mb con w = (inl l, w0) →
  count_starts sched = 0 →
  run Dir sched (boot l w0) = Done s →
  close_pc s = NotCalled →
  ∃ s', run Dir [ACloseChan; ACloseWait] s = Done s' ∧
    close_pc s' = Returned ∧ wg (lg s) = 0 ∧
    buf (logChan (lg s')) = accepted s ∧ accepted s' = accepted s ∧
    dispatched s' = [] ∧
    bodies (os s') = bodies w0 ∧ stdout (os s') = stdout w0 ∧ stderr (os s') = stderr w0 ∧
    ∃ fw c, file (lg s') = Some fw ∧ handles (os s') !! fw = Some (mkHandle c false).
Proof.
  intros Hwf Hnew Hstarts Hrun Hpc.
  pose proof (boot_inv _ _ _ _ _ _ _ Hwf Hnew) as Hinv0.
  pose proof (run_inv _ _ _ _ Hinv0 Hrun) as (Hcl & Hwg & _ & Hq & Hd).
  pose proof (run_workers_length _ _ _ Hrun) as Hlen. cbn in Hlen.
  rewrite Hstarts in Hlen. destruct (workers s) as [|? ?] eqn:Hws; [|done].
  specialize (Hq ltac:(cbn; lia)). cbn in Hq, Hwg.
  assert (dispatched s = [] ∧ bodies (os s) = bodies w0 ∧ stdout (os s) = stdout w0 ∧
          stderr (os s) = stderr w0) as (Hdis & Hb & Ho & He).
  { apply (run_ind (λ s, workers s = [] → dispatched s = [] ∧ bodies (os s) = bodies w0 ∧
                         stdout (os s) = stdout w0 ∧ stderr (os s) = stderr w0)
                   (λ a, is_start a = false)) with sched (boot l w0);
      [|by apply count_starts_zero|done|done|done].
    intros a s1 s2 Ha HP He. pose proof (exec_workers_length _ _ _ He) as Hl.
    rewrite Ha in Hl. intros Hw2. rewrite Hw2 in Hl.
    destruct (workers s1) as [|? ?] eqn:Hw1; [|cbn in Hl; lia].
    specialize (HP eq_refl).
    destruct a as [lv' msg'|lv'| |i|i|i| | |t r]; cbn [exec] in He;
      unfold StartWorker, wg_Done, Close_close, Close_wait in He; try done.
    - destruct (log _ _ _ _); try done. by injection He as <-.
    - by injection He as <-.
    - by rewrite Hw1 in He.
    - by rewrite Hw1 in He.
    - by rewrite Hw1 in He.
    - destruct (close _); try done. by injection He as <-.
    - destruct (close_pc s1); try done. case_bool_decide; [|done]. injection He as <-.
      cbn. destruct (file (lg s1)) as [f|]; [|done].
      destruct (os_Close_fields f (os s1)) as (_ & _ & -> & -> & -> & _). done.
    - by injection He as <-. }
  destruct Hd as (segs & errs & fw & c & o & _ & _ & Hf & _ & Hh & _).
  assert (closed (logChan (lg s)) = false) as Hopen.
  { destruct (closed (logChan (lg s))); [|done]. by destruct (proj1 Hcl). }
  destruct s as [l1 w1 ws pc acc dis]. cbn in *. subst.
  unfold Close_close, Close_wait, close. rewrite Hopen. cbn. rewrite Hwg. cbn. rewrite Hf.
  eexists. split; [done|]. cbn.
  destruct (os_Close_fields fw w1) as (_ & _ & -> & -> & -> & _).
  split_and!; try done. exists fw, c. split; [done|]. by eapply os_Close_closes.
Qed.

(** *** The housekeeping of [rotate], read off the world before it *)

Lemma housekeeping_path l w :
  names (housekeeping Dir l w) !! filePath l =
  if refused w SysStat || refused w SysRename then names w !! filePath l else None.
Proof.
  unfold housekeeping. cbv zeta.
  set (w1 := match file l with Some g => snd (os_Close g w) | None => w end).
  assert (names w1 = names w ∧ refused w1 = refused w) as (HN1 & HR1).
  { subst w1. destruct (file l) as [g|]; [|done].
    destruct (os_Close_fields g w) as (_ & ? & _ & _ & _ & _ & ? & _). done. }
  destruct (os_MkdirAll_fields (Dir (filePath l)) w1) as (HN2 & _ & _ & _ & _ & _ & HR2 & _).
  cbv zeta in *. set (w2 := snd (os_MkdirAll (Dir (filePath l)) w1)) in *.
  set (np := Sprintf _ _).
  assert (np ≠ filePath l) as Hnp.
  { subst np. rewrite retired_name_eq. apply retired_name_fresh. }
  clearbody np. unfold os_Stat, os_Rename. rewrite HR2, HR1, HN2, HN1.
  destruct (refused w SysStat); cbn; [by rewrite HN2, HN1|].
  destruct (names w !! filePath l) as [i|] eqn:Hi.
  - destruct (refused w SysRename); cbn; [by rewrite HN2, HN1|].
    by rewrite lookup_insert_ne, lookup_delete_eq.
  - rewrite HN2, HN1, Hi. by destruct (refused w SysRename).
Qed.

Lemma housekeeping_dirs_eq l w :
  dirs (housekeeping Dir l w) =
  if refused w SysMkdirAll then dirs w else {[Dir (filePath l)]} ∪ dirs w.
Proof.
  unfold housekeeping. cbv zeta.
  set (w1 := match file l with Some g => snd (os_Close g w) | None => w end).
  assert (dirs w1 = dirs w ∧ refused w1 = refused w) as (HD1 & HR1).
  { subst w1. destruct (file l) as [g|]; [|done].
    destruct (os_Close_fields g w) as (? & _ & _ & _ & _ & _ & ? & _). done. }
  set (w2 := snd (os_MkdirAll (Dir (filePath l)) w1)).
  assert (dirs w2 = if refused w SysMkdirAll then dirs w else {[Dir (filePath l)]} ∪ dirs w)
    as HD2.
  { subst w2. unfold os_MkdirAll. rewrite HR1.
    destruct (refused w SysMkdirAll); cbn; by rewrite HD1. }
  set (np := Sprintf _ _).
  destruct (os_Stat (filePath l) w2); [done|].
  by destruct (os_Rename_fields (filePath l) np w2) as (-> & _).
Qed.

Lemma housekeeping_handles_nil l w :
  file l = None → handles (housekeeping Dir l w) = handles w.
Proof.
  intros Hf. unfold housekeeping. rewrite Hf. cbv zeta.
  destruct (os_MkdirAll_fields (Dir (filePath l)) w) as (_ & _ & HH & _).
  cbv zeta in HH. set (w2 := snd (os_MkdirAll (Dir (filePath l)) w)) in *.
  set (np := Sprintf _ _).
  destruct (os_Stat (filePath l) w2); [done|].
  by destruct (os_Rename_fields (filePath l) np w2) as (_ & _ & -> & _).
Qed.

Lemma housekeeping_renames l w i :
  names w !! filePath l = Some i →
  refused w SysStat = false → refused w SysRename = false →
  names (housekeeping Dir l w) =
    <[retired_name (filePath l) (now w) := i]> (delete (filePath l) (names w)).
Proof.
  intros Hn Hs Hr. unfold housekeeping. cbv zeta.
  set (w1 := match file l with Some g => snd (os_Close g w) | None => w end).
  assert (names w1 = names w ∧ now w1 = now w ∧ refused w1 = refused w) as (HN1 & HT1 & HR1).
  { subst w1. destruct (file l) as [g|]; [|done].
    destruct (os_Close_fields g w) as (_ & ? & _ & _ & _ & ? & ? & _). done. }
  destruct (os_MkdirAll_fields (Dir (filePath l)) w1) as (HN2 & _ & _ & _ & _ & HT2 & HR2 & _).
  cbv zeta in *. set (w2 := snd (os_MkdirAll (Dir (filePath l)) w1)) in *.
  unfold os_Stat, os_Rename. rewrite HR2, HR1, Hs, Hr, HN2, HN1, Hn. cbn.
  by rewrite retired_name_eq, HT2, HT1.
Qed.

Lemma housekeeping_names_kept l w :
  names w !! filePath l = None ∨ refused w SysStat = true ∨ refused w SysRename = true →
  names (housekeeping Dir l w) = names w.
Proof.
  intros H. unfold housekeeping. cbv zeta.
  set (w1 := match file l with Some g => snd (os_Close g w) | None => w end).
  assert (names w1 = names w ∧ refused w1 = refused w) as (HN1 & HR1).
  { subst w1. destruct (file l) as [g|]; [|done].
    destruct (os_Close_fields g w) as (_ & ? & _ & _ & _ & _ & ? & _). done. }
  destruct (os_MkdirAll_fields (Dir (filePath l)) w1) as (HN2 & _ & _ & _ & _ & _ & HR2 & _).
  cbv zeta in *. set (w2 := snd (os_MkdirAll (Dir (filePath l)) w1)) in *.
  set (np := Sprintf _ _). clearbody np.
  unfold os_Stat, os_Rename. rewrite HR2, HR1, HN2, HN1.
  destruct (refused w SysStat); [by rewrite HN2, HN1|].
  destruct (names w !! filePath l) as [i|] eqn:Hi; [|by rewrite HN2, HN1].
  destruct (refused w SysRename); cbn; [by rewrite HN2, HN1|].
  by destruct H as [?|[?|?]].
Qed.

Lemma rotate_names_other l w r l' w' p :
  rotate Dir l w = (r, l', w') → p ≠ filePath l →
  names w' !! p = names (housekeeping Dir l w) !! p.
Proof.
  rewrite rotate_stages.
  destruct (os_OpenFile_cases (filePath l) (housekeeping Dir l w))
    as [[e ->]|[(i & _ & ->)|[_ ->]]]; intros [= <- <- <-] Hp; cbn; [done..|].
  by rewrite lookup_insert_ne.
Qed.

Lemma openable_dec path w : Decision (openable Dir path w).
Proof. unfold openable. apply _. Defined.

(** Whether [rotate] succeeds is decided by the world it starts from. *)
Lemma rotate_openable l w :
  (openable Dir (filePath l) w → ∃ l' w', rotate Dir l w = (None, l', w')) ∧
  (¬ openable Dir (filePath l) w →
   rotate Dir l w =
     (Some (if refused w SysOpenFile then ErrRefused SysOpenFile else ErrNotExist),
      l, housekeeping Dir l w)).
Proof.
  rewrite rotate_stages.
  pose proof (housekeeping_fields l w) as (_ & _ & _ & _ & HR & _).
  pose proof (housekeeping_path l w) as HP.
  pose proof (housekeeping_dirs_eq l w) as HD.
  unfold os_OpenFile, openable. rewrite HR, HP.
  set (hk := housekeeping Dir l w) in *. clearbody hk.
  destruct (refused w SysOpenFile); [split; [by intros [? _]|done]|].
  assert (Dir (filePath l) ∈ dirs hk ↔
          Dir (filePath l) ∈ dirs w ∨ refused w SysMkdirAll = false) as Hdir.
  { rewrite HD. destruct (refused w SysMkdirAll).
    - split; [auto|]. by intros [?|?].
    - split; [auto|]. intros _. apply elem_of_union_l. by apply elem_of_singleton. }
  destruct (if refused w SysStat || refused w SysRename then names w !! filePath l else None)
    as [i|] eqn:HX.
  - assert (is_Some (names w !! filePath l) ∧
            (refused w SysStat = true ∨ refused w SysRename = true)) as Hkept.
    { destruct (refused w SysStat), (refused w SysRename); cbn in HX; try done; eauto. }
    split; [eauto|]. intros Hn. exfalso. apply Hn. split; [done|]. right. right. done.
  - case_bool_decide as Hd.
    + split; [eauto|]. intros Hn. exfalso. apply Hn. split; [done|].
      apply Hdir in Hd. tauto.
    + split; [|done]. intros [_ [?|[?|[[j Hj] Hb]]]]; exfalso.
      * apply Hd, Hdir. by left.
      * apply Hd, Hdir. by right.
      * rewrite Hj in HX. destruct Hb as [Hb|Hb]; rewrite Hb in HX; [done|].
        by rewrite orb_true_r in HX.
Qed.

(** X1. [NewLogger] returns a logger exactly when the [os.OpenFile]
    that ends its first [rotate] returns a file, and that call's error,
    with no logger, exactly when it returns an error; what
    [os.MkdirAll], [os.Stat] and [os.Rename] did before it never
    surfaces. The logger then has the level, the console flag and the
    path it was given, a threshold of [maxSizeMB * 1024 * 1024] in 64-bit
    arithmetic, a counter of 0, an empty open queue of capacity 2000, no
    worker, and as file and writer the handle the open returned, which is
    new, open, and on the file the path names. Up to the open no handle
    is made and no file content changes, and that is the world a failed
    [NewLogger] leaves. Nothing is printed either way. *)
Theorem NewLogger_outcome path lv mb con w :
  let l0 := mkLogger lv con None None (int64_mul (int64_mul mb 1024) 1024) path 0%Z
              (mkChan [] 2000 false) 0 in
  let w1 := housekeeping Dir l0 w in
  handles w1 = handles w ∧ bodies w1 = bodies w ∧
  stdout w1 = stdout w ∧ stderr w1 = stderr w ∧
  (∀ e, (os_OpenFile Dir path w1).1 = inr e ↔
        NewLogger Dir path lv mb con w = (inr e, w1)) ∧
  (∀ f, (os_OpenFile Dir path w1).1 = inl f ↔
        ∃ w', NewLogger Dir path lv mb con w =
          (inl (mkLogger lv con (Some f) (Some f) (wrap64 (wrap64 (mb * 1024) * 1024))
                         path 0%Z (mkChan [] 2000 false) 0), w')) ∧
  (∀ l w', NewLogger Dir path lv mb con w = (inl l, w') →
     ∃ i, file l = Some (length (handles w)) ∧
       handles w' = handles w ++ [mkHandle i true] ∧ names w' !! path = Some i ∧
       stdout w' = stdout w ∧ stderr w' = stderr w).
Proof.
  cbv zeta.
  set (l0 := mkLogger lv con None None (int64_mul (int64_mul mb 1024) 1024) path 0%Z
               (mkChan [] 2000 false) 0).
  pose proof (housekeeping_fields l0 w) as (HB & HO & HE & _ & _ & HL).
  pose proof (housekeeping_handles_nil l0 w eq_refl) as HH.
  assert (NewLogger Dir path lv mb con w =
          match rotate Dir l0 w with
          | (Some err, _, w') => (inr err, w')
          | (None, l, w') => (inl l, w')
          end) as -> by reflexivity.
  rewrite rotate_stages. change (filePath l0) with path.
  set (w1 := housekeeping Dir l0 w) in *.
  split_and!; try done.
  - intros e.
    destruct (os_OpenFile_cases path w1) as [[e' ->]|[(i & Hi & ->)|[Hi ->]]]; cbn;
      split; intros [=]; congruence.
  - intros f.
    destruct (os_OpenFile_cases path w1) as [[e' ->]|[(i & Hi & ->)|[Hi ->]]]; cbn; split.
    + intros [=].
    + intros [w' [=]].
    + intros [= <-]. by eexists.
    + intros [w' [= <- _]]. done.
    + intros [= <-]. by eexists.
    + intros [w' [= <- _]]. done.
  - intros l w'.
    destruct (os_OpenFile_cases path w1) as [[e' ->]|[(i & Hi & ->)|[Hi ->]]]; cbn;
      intros [= <- <-]; cbn.
    + exists i. rewrite HL, HH, HO, HE. done.
    + exists (length (bodies w1)). rewrite HL, HH, HO, HE, lookup_insert_eq. done.
Qed.

(** X2. A log file that exists at the path when [NewLogger] is called
    is renamed to the path followed by the time stamp before the open
    is tried (the stat and the rename being honoured). When the open
    succeeds the logger starts on a new, empty file; the success depends
    only on the open being permitted and the directory existing or being
    creatable. When the open fails, [NewLogger] returns the error and the
    path is left without a file, the old one keeping its content under
    the stamped name. *)
Theorem NewLogger_retires_existing path lv mb con w i :
  names w !! path = Some i →
  refused w SysStat = false → refused w SysRename = false →
  ∃ r w', NewLogger Dir path lv mb con w = (r, w') ∧
    names w' !! retired_name path (now w) = Some i ∧
    (∀ l, r = inl l →
       names w' !! path = Some (length (bodies w)) ∧ bodies w' = bodies w ++ [[]] ∧
       handles w' = handles w ++ [mkHandle (length (bodies w)) true] ∧
       file l = Some (length (handles w)) ∧ fileWriter l = Some (length (handles w))) ∧
    (∀ e, r = inr e →
       names w' !! path = None ∧ bodies w' = bodies w ∧ handles w' = handles w) ∧
    ((∃ l, r = inl l) ↔
     refused w SysOpenFile = false ∧ (Dir path ∈ dirs w ∨ refused w SysMkdirAll = false)).
Proof.
  intros Hn Hs Hr. unfold NewLogger.
  set (l0 := mkLogger lv con None None (int64_mul (int64_mul mb 1024) 1024) path 0%Z
               (mkChan [] 2000 false) 0).
  pose proof (housekeeping_renames l0 w i Hn Hs Hr) as Hnames.
  pose proof (housekeeping_path l0 w) as Hpath. rewrite Hs, Hr in Hpath. cbn in Hpath.
  pose proof (housekeeping_fields l0 w) as (HB & _).
  pose proof (housekeeping_handles_nil l0 w eq_refl) as HH.
  destruct (rotate_openable l0 w) as [Hyes Hno]. change (filePath l0) with path in *.
  assert (openable Dir path w ↔
          refused w SysOpenFile = false ∧ (Dir path ∈ dirs w ∨ refused w SysMkdirAll = false))
    as Hop.
  { unfold openable. rewrite Hs, Hr. split; intros [? Hx]; (split; [done|]).
    - destruct Hx as [?|[?|[_ [?|?]]]]; auto; done.
    - destruct Hx; auto. }
  destruct (rotate Dir l0 w) as [[[e|] l1] w1] eqn:Hrot.
  - apply rotate_failed in Hrot as [-> ->]. eexists _, _. split; [done|]. split_and!.
    + rewrite Hnames. apply lookup_insert_eq.
    + intros l [=].
    + intros e' _. done.
    + split; [by intros [l [=]]|]. intros Hx. apply Hop in Hx.
      destruct (Hyes Hx) as (l' & w' & [=]).
  - pose proof Hrot as Hrot'.
    apply rotate_succeeded in Hrot' as (j & -> & Hh & Hnj & [(_ & -> & Hb)|(Hsome & _)]);
      [|change (filePath l0) with path in Hsome; congruence].
    eexists _, _. split; [done|]. split_and!.
    + rewrite (rotate_names_other _ _ _ _ _ _ Hrot) by apply retired_name_fresh.
      rewrite Hnames. apply lookup_insert_eq.
    + intros l [= <-]. cbn. rewrite HH in Hh. done.
    + intros e' [=].
    + split; [|eauto]. intros _. apply Hop.
      destruct (openable_dec path w) as [?|Hx]; [done|]. by specialize (Hno Hx).
Qed.

(** *** The level *)

Lemma rotate_with_level lv l w :
  rotate Dir (with_level lv l) w =
  let r := rotate Dir l w in (r.1.1, with_level lv r.1.2, r.2).
Proof.
  rewrite !rotate_stages.
  change (housekeeping Dir (with_level lv l) w) with (housekeeping Dir l w).
  change (filePath (with_level lv l)) with (filePath l).
  destruct (os_OpenFile Dir (filePath l) (housekeeping Dir l w)) as [[f|e] w1]; reflexivity.
Qed.

(** [write] never reads the level. *)
Lemma write_with_level lv e l w :
  write Dir e (with_level lv l) w =
  match write Dir e l w with
  | Done (l', w') => Done (with_level lv l', w')
  | Blocked => Blocked
  | Panic => Panic
  end.
Proof.
  destruct (fileWriter l) as [fw|] eqn:Hfw.
  - rewrite (write_stages e (with_level lv l) w fw) by done.
    rewrite (write_stages e l w fw) by done.
    change (maxSize (with_level lv l)) with (maxSize l).
    change (counted e (with_level lv l)) with (counted e l).
    change (written fw e (with_level lv l) w) with (written fw e l w).
    change (with_currentSize (counted e l) (with_level lv l))
      with (with_level lv (with_currentSize (counted e l) l)).
    case_bool_decide; [|done].
    by rewrite rotate_with_level.
  - unfold write. cbn [consoleOut with_level fileWriter]. by rewrite Hfw.
Qed.

(** X3. [SetLevel] replaces the minimum severity and nothing else: the
    queue, the files, the histories, the goroutines and every other
    field of the logger are as before. The new level decides the calls
    of [log] made after it: below it a call changes nothing, at or
    above it the call that returns has queued its entry. It has no say
    over entries that are already queued: [write] does the same with an
    entry whatever the level is. Setting the same level again changes
    nothing. *)
Theorem SetLevel_governs_later_calls lv s :
  ∃ s1, exec Dir (ASetLevel lv) s = Done s1 ∧
    lg s1 = mkLogger lv (consoleOut (lg s)) (file (lg s)) (fileWriter (lg s)) (maxSize (lg s))
              (filePath (lg s)) (currentSize (lg s)) (logChan (lg s)) (wg (lg s)) ∧
    os s1 = os s ∧ workers s1 = workers s ∧ close_pc s1 = close_pc s ∧
    accepted s1 = accepted s ∧ dispatched s1 = dispatched s ∧
    (∀ lv' msg, (lv' < lv)%Z → exec Dir (ALog lv' msg) s1 = Done s1) ∧
    (∀ lv' msg s2, (lv ≤ lv')%Z → exec Dir (ALog lv' msg) s1 = Done s2 →
       accepted s2 = accepted s ++ [mkEntry lv' msg (now (os s))] ∧
       buf (logChan (lg s2)) = buf (logChan (lg s)) ++ [mkEntry lv' msg (now (os s))]) ∧
    (∀ e l w, write Dir e (SetLevel lv l) w =
              match write Dir e l w with
              | Done (l', w') => Done (SetLevel lv l', w')
              | Blocked => Blocked
              | Panic => Panic
              end) ∧
    exec Dir (ASetLevel lv) s1 = Done s1.
Proof.
  destruct s as [l w ws pc acc dis]. eexists. split; [reflexivity|]. sys_simpl.
  split_and!; try done.
  - intros lv' msg Hlv. unfold log. sys_simpl. rewrite bool_decide_eq_true_2 by done.
    by rewrite drop_all, app_nil_r.
  - intros lv' msg s2 Hlv. unfold log, send. sys_simpl.
    rewrite bool_decide_eq_false_2 by lia.
    destruct (closed (logChan l)); [done|]. case_bool_decide; [|done].
    intros [= <-]. sys_simpl. by rewrite drop_app_length.
  - intros e l0 w0. apply write_with_level.
Qed.

(** *** The channel *)

Lemma exec_closed_mono a s s' :
  exec Dir a s = Done s' →
  closed (logChan (lg s)) = true → closed (logChan (lg s')) = true.
Proof.
  destruct a as [lv msg|lv| |i|i|i| | |t r]; cbn [exec];
    unfold StartWorker, wg_Done, Close_close, Close_wait; intros H Hc.
  - unfold log, send in H. rewrite Hc in H. case_bool_decide; [|done]. by injection H as <-.
  - by injection H as <-.
  - by injection H as <-.
  - destruct (workers s !! i) as [[| |]|]; try done.
    unfold recv in H. destruct (buf _) as [|e rest]; [by rewrite Hc in H|].
    by injection H as <-.
  - destruct (workers s !! i) as [[|e|]|]; try done.
    destruct (write _ _ _ _) as [[l' w']| |] eqn:Hw; try done. injection H as <-. cbn.
    by destruct (write_frame _ _ _ _ _ Hw) as (_ & _ & _ & _ & -> & _).
  - destruct (workers s !! i) as [[| |]|]; try done.
    destruct (recv _) as [[[e|] c]| |]; try done. by injection H as <-.
  - unfold close in H. by rewrite Hc in H.
  - destruct (close_pc s); try done. case_bool_decide; [|done]. by injection H as <-.
  - by injection H as <-.
Qed.

Lemma run_closed_mono sched : ∀ s s',
  run Dir sched s = Done s' →
  closed (logChan (lg s)) = true → closed (logChan (lg s')) = true.
Proof.
  induction sched as [|a sched IH]; intros s s' H Hc.
  - by injection H as <-.
  - cbn in H. destruct (exec Dir a s) as [s1| |] eqn:He; try done.
    apply (IH s1 s' H). by apply (exec_closed_mono a s).
Qed.

(** Once [close(l.logChan)] has run the channel stays closed. *)
Lemma run_after_close sched : ∀ s s',
  ACloseChan ∈ sched → run Dir sched s = Done s' → closed (logChan (lg s')) = true.
Proof.
  induction sched as [|a sched IH]; intros s s' Hin H.
  - by apply elem_of_nil in Hin.
  - cbn in H. destruct (exec Dir a s) as [s1| |] eqn:He; try done.
    apply elem_of_cons in Hin as [<-|Hin]; [|by apply (IH s1)].
    apply (run_closed_mono sched s1 s' H).
    cbn in He. unfold Close_close, close in He.
    destruct (closed (logChan (lg s))); [done|]. by injection He as <-.
Qed.

(** X4. After [Close] has closed the channel, whatever else has happened
    since, a call of [log] at or above the minimum severity panics (a
    send on a closed channel); a call below it still returns and changes
    nothing. *)
Theorem log_after_Close_panics sched s0 s lv msg :
  ACloseChan ∈ sched → run Dir sched s0 = Done s →
  exec Dir (ALog lv msg) s =
    if bool_decide (lv < level (lg s))%Z then Done s else Panic.
Proof.
  intros Hin Hrun. pose proof (run_after_close _ _ _ Hin Hrun) as Hc.
  destruct s as [l w ws pc acc dis]. sys_simpl. unfold log, send. rewrite Hc.
  case_bool_decide; [|done]. by rewrite drop_all, app_nil_r.
Qed.

(** X5. A second call of [Close] panics at its first statement (the
    channel is already closed), at whatever point after the first it
    comes: no schedule that closes the channel twice runs to its end. *)
Theorem second_Close_panics sched s0 s :
  ACloseChan ∈ sched → run Dir sched s0 = Done s →
  exec Dir ACloseChan s = Panic ∧
  ∀ rest, run Dir (sched ++ ACloseChan :: rest) s0 = Panic.
Proof.
  intros Hin Hrun. pose proof (run_after_close _ _ _ Hin Hrun) as Hc.
  assert (exec Dir ACloseChan s = Panic) as He.
  { cbn. unfold Close_close, close. by rewrite Hc. }
  split; [done|]. intros rest. rewrite run_app, Hrun. cbn [run]. by rewrite He.
Qed.

Lemma exec_chan_inv a s s' : chan_inv s → exec Dir a s = Done s' → chan_inv s'.
Proof.
  unfold chan_inv, queue_capacity. intros [Hcap Hlen].
  destruct a as [lv msg|lv| |i|i|i| | |t r]; cbn [exec];
    unfold StartWorker, wg_Done, Close_close, Close_wait; intros H.
  - unfold log, send in H. case_bool_decide; [by injection H as <-|].
    destruct (closed _); [done|]. case_bool_decide; [|done]. injection H as <-. cbn.
    rewrite length_app. cbn. lia.
  - by injection H as <-.
  - by injection H as <-.
  - destruct (workers s !! i) as [[| |]|]; try done.
    unfold recv in H. destruct (buf (logChan (lg s))) as [|e rest] eqn:Hb;
      [by destruct (closed _)|].
    injection H as <-. cbn in *. split; [done|lia].
  - destruct (workers s !! i) as [[|e|]|]; try done.
    destruct (write _ _ _ _) as [[l' w']| |] eqn:Hw; try done. injection H as <-. cbn.
    by destruct (write_frame _ _ _ _ _ Hw) as (_ & _ & _ & _ & -> & _).
  - destruct (workers s !! i) as [[| |]|]; try done.
    destruct (recv _) as [[[e|] c]| |]; try done. by injection H as <-.
  - unfold close in H. destruct (closed _); [done|]. by injection H as <-.
  - destruct (close_pc s); try done. case_bool_decide; [|done]. by injection H as <-.
  - by injection H as <-.
Qed.

Lemma NewLogger_logChan path lv mb con w l w0 :
  NewLogger Dir path lv mb con w = (inl l, w0) →
  logChan l = mkChan [] 2000 false ∧ consoleOut l = con ∧ level l = lv ∧
  stdout w0 = stdout w ∧ stderr w0 = stderr w.
Proof.
  unfold NewLogger. destruct (rotate _ _ _) as [[[e|] l1] w1] eqn:Hrot; [done|].
  intros [= <- <-].
  apply rotate_frame in Hrot as (-> & -> & _ & _ & _ & -> & -> & _ & _ & -> & _). done.
Qed.

(** X6. The queue of a logger made by [NewLogger] never holds more than
    2000 entries. A call of [log] at or above the minimum severity, on
    the open channel, blocks when 2000 entries are waiting and returns
    with its entry queued when fewer are. *)
Theorem queue_bounded path lv mb con w l w0 sched s :
  NewLogger Dir path lv mb con w = (inl l, w0) →
  run Dir sched (boot l w0) = Done s →
  length (buf (logChan (lg s))) ≤ 2000 ∧
  ∀ lv' msg, (level (lg s) ≤ lv')%Z → closed (logChan (lg s)) = false →
    (length (buf (logChan (lg s))) = 2000 → exec Dir (ALog lv' msg) s = Blocked) ∧
    (length (buf (logChan (lg s))) < 2000 →
     ∃ s', exec Dir (ALog lv' msg) s = Done s' ∧
       buf (logChan (lg s')) = buf (logChan (lg s)) ++ [mkEntry lv' msg (now (os s))]).
Proof.
  intros Hnew Hrun.
  destruct (NewLogger_logChan _ _ _ _ _ _ _ Hnew) as (Hch & _).
  assert (chan_inv s) as [Hcap Hlen].
  { apply (run_ind chan_inv (λ _, True)) with sched (boot l w0);
      [|by apply Forall_true| |done].
    - intros a s1 s2 _. apply exec_chan_inv.
    - unfold chan_inv, boot. cbn. rewrite Hch. cbn. unfold queue_capacity. lia. }
  unfold queue_capacity in *. split; [done|]. intros lv' msg Hlv Hopen.
  destruct s as [l1 w1 ws pc acc dis]. sys_simpl. unfold log, send.
  rewrite bool_decide_eq_false_2 by lia. rewrite Hopen, Hcap. split; intros Hn.
  - rewrite bool_decide_eq_false_2 by lia. done.
  - rewrite bool_decide_eq_true_2 by lia. eexists. split; [done|]. done.
Qed.

(** *** The console *)

Lemma write_stdout e l w l' w' :
  write Dir e l w = Done (l', w') →
  stdout w' = stdout w ++ (if consoleOut l then [echo_line e] else []).
Proof.
  intros Hw. destruct (fileWriter l) as [fw|] eqn:Hfw;
    [|by unfold write in Hw; rewrite Hfw in Hw].
  rewrite (write_stages _ _ _ _ Hfw) in Hw.
  pose proof (written_cases fw e l w) as (_ & _ & _ & _ & _ & Hout & _). cbv zeta in Hout.
  rewrite echoed_stdout in Hout.
  case_bool_decide; injection Hw as <- <-; [|done].
  destruct (rotate _ _ _) as [[err l1] w1] eqn:Hrot. cbn.
  apply rotate_frame in Hrot as (-> & _). done.
Qed.

Lemma exec_console_inv out0 con a s s' :
  console_inv out0 con s → exec Dir a s = Done s' → console_inv out0 con s'.
Proof.
  unfold console_inv. intros [Hcon Hout].
  destruct a as [lv msg|lv| |i|i|i| | |t r]; cbn [exec];
    unfold StartWorker, wg_Done, Close_close, Close_wait; intros H.
  - unfold log in H. case_bool_decide; [by injection H as <-|].
    destruct (send _ _); try done. by injection H as <-.
  - by injection H as <-.
  - by injection H as <-.
  - destruct (workers s !! i) as [[| |]|]; try done.
    destruct (recv _) as [[[e|] c]| |]; try done. by injection H as <-.
  - destruct (workers s !! i) as [[|e|]|]; try done.
    destruct (write _ _ _ _) as [[l' w']| |] eqn:Hw; try done. injection H as <-. cbn.
    destruct (write_frame _ _ _ _ _ Hw) as (_ & -> & _).
    rewrite (write_stdout _ _ _ _ _ Hw), Hcon, Hout. split; [done|].
    destruct con; [|by rewrite app_nil_r]. by rewrite fmap_app, app_assoc.
  - destruct (workers s !! i) as [[| |]|]; try done.
    destruct (recv _) as [[[e|] c]| |]; try done. by injection H as <-.
  - destruct (close _); try done. by injection H as <-.
  - destruct (close_pc s); try done. case_bool_decide; [|done]. injection H as <-. cbn.
    split; [done|]. destruct (file (lg s)) as [f|]; [|done].
    by destruct (os_Close_fields f (os s)) as (_ & _ & _ & -> & _).
  - by injection H as <-.
Qed.

(** X7. The console mirrors the calls of [write]: at every point of
    every run, what has been printed on standard output since
    [NewLogger] was called is, for a logger made with the console flag
    set, one line per entry [write] has handled, in that order, whether
    or not its file write succeeded, and nothing at all for a logger made
    without the flag. The line is the rendered entry between the colour
    of its severity and the reset sequence; the colours are cyan, green,
    yellow and red for the four severities, and a severity outside the
    table gets no colour code and the name UNKNOWN. *)
Theorem console_mirrors_dispatch path lv mb con w l w0 sched s :
  NewLogger Dir path lv mb con w = (inl l, w0) →
  run Dir sched (boot l w0) = Done s →
  stdout (os s) = stdout w ++ (if con then echo_line <$> dispatched s else []) ∧
  (∀ e, echo_line e =
        default "" (levelColors !! e_level e) +:+ formatted e +:+ resetColor +:+ nl) ∧
  levelColors !! DEBUG = Some (esc +:+ "[36m") ∧ levelColors !! INFO = Some (esc +:+ "[32m") ∧
  levelColors !! WARN = Some (esc +:+ "[33m") ∧ levelColors !! ERROR = Some (esc +:+ "[31m") ∧
  (∀ e, (e_level e < DEBUG ∨ ERROR < e_level e)%Z →
        echo_line e = "[UNKNOWN] " +:+ e_msg e +:+ resetColor +:+ nl).
Proof.
  intros Hnew Hrun.
  destruct (NewLogger_logChan _ _ _ _ _ _ _ Hnew) as (_ & Hcon & _ & Hout & _).
  split_and!; try done.
  - assert (console_inv (stdout w) con s) as [_ H]; [|done].
    apply (run_ind (console_inv (stdout w) con) (λ _, True)) with sched (boot l w0);
      [|by apply Forall_true| |done].
    + intros a s1 s2 _. apply exec_console_inv.
    + unfold console_inv, boot. cbn. rewrite Hcon, Hout. split; [done|].
      destruct con; by rewrite app_nil_r.
  - intros e He. unfold echo_line.
    assert (levelColors !! e_level e = None) as ->.
    { unfold levelColors, DEBUG, INFO, WARN, ERROR in *.
      rewrite !lookup_insert_ne by lia. apply lookup_empty. }
    rewrite formatted_eq. unfold levelString, DEBUG, INFO, WARN, ERROR in *.
    repeat case_bool_decide; try lia. reflexivity.
Qed.

(** *** The threshold *)

(** X8. With a positive threshold, [write] never returns with the
    counter at or over it and a usable file: either the counter is below
    the threshold, or the rotation this [write] tried has failed and the
    logger is left on its closed handle. *)
Theorem counter_stays_below_threshold e l w fw i o :
  (0 < maxSize l)%Z →
  file l = Some fw → fileWriter l = Some fw → handles w !! fw = Some (mkHandle i o) →
  ∃ l' w', write Dir e l w = Done (l', w') ∧ maxSize l' = maxSize l ∧
    ((currentSize l' < maxSize l)%Z ∨ stuck l' w').
Proof.
  intros Hpos Hf Hfw Hh.
  pose proof (written_cases fw e l w) as (_ & _ & HH & _). cbv zeta in HH.
  rewrite (write_stages _ _ _ _ Hfw). case_bool_decide as Hc.
  - destruct (rotate _ _ _) as [[[err|] l'] w'] eqn:Hrot; eexists _, _; (split; [done|]); cbn.
    + eapply (rotate_failed_stuck _ _ fw i o) in Hrot as (-> & _ & Hst & _);
        [|done|done|by rewrite HH|done].
      split; [done|]. by right.
    + apply rotate_succeeded in Hrot as (j & -> & _). cbn. split; [done|]. by left.
  - eexists _, _. split; [done|]. cbn. split; [done|]. left. lia.
Qed.

(** X9. A threshold of 0 or less makes every [write] rotate: whatever
    the line, the handle it was written to is closed when [write]
    returns, and the logger is on a new open handle with the counter at
    0, or, the rotation having failed, left on the closed one.
    [NewLogger] computes such a threshold from a size between -2^43 and 0
    megabytes. It does not from every size of 0 or less: for a size
    below -2^43 (and above -2^44) the 64-bit product wraps around to a
    positive threshold. *)
Theorem nonpositive_threshold_rotates_every_write e l w fw i o :
  (maxSize l ≤ 0)%Z →
  (0 ≤ currentSize l)%Z → (currentSize l + len (formatted e) + 1 < 2 ^ 63)%Z →
  file l = Some fw → fileWriter l = Some fw → handles w !! fw = Some (mkHandle i o) →
  (∃ l' w', write Dir e l w = Done (l', w') ∧
     handles w' !! fw = Some (mkHandle i false) ∧ maxSize l' = maxSize l ∧
     (file l' = Some (length (handles w)) ∧ fileWriter l' = Some (length (handles w)) ∧
      currentSize l' = 0%Z ∧
      (∃ j, handles w' !! length (handles w) = Some (mkHandle j true))
      ∨ l' = with_currentSize (counted e l) l ∧ stuck l' w')) ∧
  (∀ path lv mb con w0 l0 w1,
     NewLogger Dir path lv mb con w0 = (inl l0, w1) → (- 2 ^ 43 ≤ mb ≤ 0)%Z →
     (maxSize l0 ≤ 0)%Z) ∧
  (∀ path lv mb con w0 l0 w1,
     NewLogger Dir path lv mb con w0 = (inl l0, w1) → (- 2 ^ 44 < mb < - 2 ^ 43)%Z →
     maxSize l0 = (mb * 1024 * 1024 + 2 ^ 64)%Z ∧ (0 < maxSize l0)%Z).
Proof.
  intros Hmax H0 Hlt Hf Hfw Hh. split_and!.
  - pose proof (written_cases fw e l w) as (_ & _ & HH & _). cbv zeta in HH.
    pose proof (counted_exact e l H0 Hlt) as Hcnt. pose proof (len_nonneg (formatted e)).
    rewrite (write_stages _ _ _ _ Hfw). rewrite bool_decide_eq_true_2 by lia.
    set (l1 := with_currentSize (counted e l) l). set (w1 := written fw e l w) in *.
    assert (handles w1 !! fw = Some (mkHandle i o)) as Hh1 by (by rewrite HH).
    destruct (housekeeping_handles l1 w1 fw _ Hh1) as (o' & Ho' & Hcl & _).
    rewrite (Hcl Hf) in Ho'. cbn in Ho'.
    pose proof (housekeeping_fields l1 w1) as (_ & _ & _ & _ & _ & HL).
    destruct (rotate Dir l1 w1) as [[[err|] l'] w'] eqn:Hrot; eexists _, _; (split; [done|]); cbn.
    + eapply (rotate_failed_stuck _ _ fw i o) in Hrot as (-> & Hc & Hst & _);
        [|done|done|done|cbn; lia].
      split_and!; try done. by right.
    + apply rotate_succeeded in Hrot as (j & -> & Hh' & _). cbn. rewrite Hh', HH.
      split_and!; try done.
      * rewrite lookup_app_l by (by eapply lookup_lt_Some). done.
      * left. split_and!; try done. exists j.
        rewrite lookup_app_r, HL, HH, Nat.sub_diag by (rewrite HL, HH; lia). done.
  - intros path lv mb con w0 l0 w1 Hnew Hmb.
    destruct (NewLogger_maxSize _ _ _ _ _ _ _ Hnew) as [-> _].
    rewrite (wrap64_id (mb * 1024)) by lia. rewrite wrap64_id by lia. lia.
  - intros path lv mb con w0 l0 w1 Hnew Hmb.
    destruct (NewLogger_maxSize _ _ _ _ _ _ _ Hnew) as [-> _].
    rewrite (wrap64_id (mb * 1024)) by lia.
    assert (wrap64 (mb * 1024 * 1024) = mb * 1024 * 1024 + 2 ^ 64)%Z as ->; [|lia].
    unfold wrap64.
    rewrite <- (Z_mod_plus_full (mb * 1024 * 1024 + 2 ^ 63) 1 (2 ^ 64)).
    rewrite Z.mod_small; lia.
Qed.

(** X10. A logger left on a closed handle by a failed rotation
    recovers by itself once the file can be opened again: the next
    [write] still fails on the closed handle, so its entry is reported as
    an error and not written, but the rotation it goes on to try
    succeeds, and the logger is on a new open handle on the file at the
    configured path with the counter at 0. The entry after that is
    appended to that file. *)
Theorem stuck_logger_recovers e l w :
  stuck l w →
  (0 ≤ currentSize l)%Z → (currentSize l + len (formatted e) + 1 < 2 ^ 63)%Z →
  openable Dir (filePath l) w →
  ∃ l' w' j, write Dir e l w = Done (l', w') ∧
    stderr w' = stderr w ++ [report ErrClosed] ∧
    (bodies w' = bodies w ∨ bodies w' = bodies w ++ [[]]) ∧
    file l' = Some (length (handles w)) ∧ fileWriter l' = Some (length (handles w)) ∧
    handles w' !! length (handles w) = Some (mkHandle j true) ∧
    names w' !! filePath l = Some j ∧ currentSize l' = 0%Z ∧
    ∀ e2 old, refused w SysWrite = false → bodies w' !! j = Some old →
      ∃ l2 w2, write Dir e2 l' w' = Done (l2, w2) ∧
        bodies w2 !! j = Some (old ++ [std_line (now w) (formatted e2)]).
Proof.
  intros Hst H0 Hlt Hop.
  destruct (stuck_write e l w Hst H0 Hlt)
    as (fw & Hfw & Hf & _ & Hs & Hb & Hh & Hr & _ & Hw).
  pose proof (written_cases fw e l w) as (HD & HN & _ & HT & _). cbv zeta in *.
  set (l1 := with_currentSize (counted e l) l) in *. set (w1 := written fw e l w) in *.
  assert (openable Dir (filePath l1) w1) as Hop1.
  { unfold openable in *. change (filePath l1) with (filePath l). by rewrite Hr, HD, HN. }
  destruct (rotate_openable l1 w1) as [Hyes _].
  destruct (Hyes Hop1) as (l' & w' & Hrot).
  pose proof (rotate_frame _ _ _ _ _ Hrot) as (_ & He & HT' & HR' & Hbod & _).
  pose proof (housekeeping_fields l1 w1) as (_ & _ & _ & _ & _ & HL).
  pose proof Hrot as Hrot'.
  apply rotate_succeeded in Hrot' as (j & -> & Hh' & Hn & _).
  assert (handles w' !! length (handles w) = Some (mkHandle j true)) as Hnew.
  { rewrite Hh', lookup_app_r, HL, Hh, Nat.sub_diag by (rewrite HL, Hh; lia). done. }
  rewrite Hw, Hrot. eexists _, w', j. cbn [fst snd]. split; [reflexivity|].
  cbn [file fileWriter currentSize]. rewrite Hh. split_and!; try done.
  - by rewrite He, Hs.
  - by rewrite <- Hb.
  - intros e2 old Hwr Hold.
    destruct (write_appends e2 (mkLogger (level l1) (consoleOut l1) (Some (length (handles w)))
                                  (Some (length (handles w))) (maxSize l1) (filePath l1) 0%Z
                                  (logChan l1) (wg l1))
                w' (length (handles w)) j old) as (l2 & w2 & Hw2 & Hb2 & _); try done.
    + by rewrite HR', Hr.
    + exists l2, w2. split; [done|]. by rewrite Hb2, HT', HT.
Qed.

(** *** File handles *)

Lemma handle_inv_logger hs0 l l' w :
  file l' = file l → fileWriter l' = fileWriter l →
  handle_inv hs0 l w → handle_inv hs0 l' w.
Proof. unfold handle_inv. intros -> ->. done. Qed.

Lemma rotate_handle_inv hs0 l w r l' w' :
  handle_inv hs0 l w → rotate Dir l w = (r, l', w') → handle_inv hs0 l' w'.
Proof.
  intros (Hold & (fw & Hf & Hfw & Hlo & Hhi) & Hone) Hrot.
  pose proof (housekeeping_fields l w) as (_ & _ & _ & _ & _ & HL).
  assert (∀ f h, hs0 !! f = Some h → handles (housekeeping Dir l w) !! f = Some h) as Hold'.
  { intros f h Hh. pose proof (Hold f h Hh) as Hw.
    destruct (housekeeping_handles l w f h Hw) as (o & Ho & _ & Hk).
    rewrite Ho. rewrite Hk; [by destruct h|]. rewrite Hf. intros [= <-].
    apply lookup_lt_Some in Hh. lia. }
  assert (∀ f h, length hs0 ≤ f → handles (housekeeping Dir l w) !! f = Some h →
            fh_open h = false) as Hclosed.
  { intros f h Hge Hh. destruct (handles w !! f) as [h0|] eqn:H0.
    - destruct (housekeeping_handles l w f h0 H0) as (o & Ho & Hc & Hk).
      rewrite Ho in Hh. injection Hh as <-. cbn.
      destruct (decide (file l = Some f)) as [Heq|Hne]; [by apply Hc|].
      rewrite (Hk Hne). destruct (fh_open h0) eqn:Hopen; [|done].
      by specialize (Hone f h0 Hge H0 Hopen).
    - apply lookup_ge_None in H0. apply lookup_lt_Some in Hh. lia. }
  destruct r as [err|].
  - apply rotate_failed in Hrot as [-> ->]. split_and!; [done| |].
    + exists fw. rewrite HL. done.
    + intros f h Hge Hh Ho. by rewrite (Hclosed f h Hge Hh) in Ho.
  - apply rotate_succeeded in Hrot as (i & -> & Hh' & _). cbn [file fileWriter]. split_and!.
    + intros f h Hh. rewrite Hh'. apply lookup_app_l_Some. by apply Hold'.
    + exists (length (handles w)). rewrite Hh', length_app, HL. cbn.
      split_and!; [done|done|lia|lia].
    + intros f h Hge Hh Ho. rewrite Hh' in Hh.
      apply lookup_app_Some in Hh as [Hh|[Hlen Hh]].
      * by rewrite (Hclosed f h Hge Hh) in Ho.
      * apply list_lookup_singleton_Some in Hh as [Hz _]. cbn. f_equal. lia.
Qed.

Lemma write_handle_inv hs0 e l w l' w' :
  handle_inv hs0 l w → write Dir e l w = Done (l', w') → handle_inv hs0 l' w'.
Proof.
  intros Hinv Hw. pose proof Hinv as (_ & (fw & _ & Hfw & _) & _).
  rewrite (write_stages _ _ _ _ Hfw) in Hw.
  pose proof (written_cases fw e l w) as (_ & _ & HH & _). cbv zeta in HH.
  assert (handle_inv hs0 (with_currentSize (counted e l) l) (written fw e l w)) as H1.
  { unfold handle_inv in *. rewrite HH. exact Hinv. }
  case_bool_decide; injection Hw as <- <-; [|done].
  destruct (rotate _ _ _) as [[err l1] w1] eqn:Hrot. by eapply rotate_handle_inv.
Qed.

Lemma os_Close_handle_inv hs0 l w fw :
  file l = Some fw → handle_inv hs0 l w → handle_inv hs0 l (snd (os_Close fw w)).
Proof.
  intros Hf (Hold & (fw' & Hf' & Hfw & Hlo & Hhi) & Hone).
  assert (fw' = fw) as -> by congruence.
  destruct (os_Close_fields fw w) as (_ & _ & _ & _ & _ & _ & _ & HL). cbv zeta in HL.
  split_and!.
  - intros f h Hh. rewrite os_Close_other; [by apply Hold|].
    intros <-. apply lookup_lt_Some in Hh. lia.
  - exists fw. rewrite HL. done.
  - intros f h Hge Hh Ho. destruct (decide (fw = f)) as [<-|Hne]; [done|].
    rewrite os_Close_other in Hh by done. by apply (Hone f h).
Qed.

Lemma exec_handle_inv hs0 a s s' :
  handle_inv hs0 (lg s) (os s) → exec Dir a s = Done s' → handle_inv hs0 (lg s') (os s').
Proof.
  intros Hinv.
  destruct a as [lv msg|lv| |i|i|i| | |t r]; cbn [exec];
    unfold StartWorker, wg_Done, Close_close, Close_wait; intros H.
  - unfold log in H. case_bool_decide; [by injection H as <-|].
    destruct (send _ _); try done. by injection H as <-.
  - by injection H as <-.
  - by injection H as <-.
  - destruct (workers s !! i) as [[| |]|]; try done.
    destruct (recv _) as [[[e|] c]| |]; try done. by injection H as <-.
  - destruct (workers s !! i) as [[|e|]|]; try done.
    destruct (write _ _ _ _) as [[l' w']| |] eqn:Hw; try done. injection H as <-. cbn.
    by eapply write_handle_inv.
  - destruct (workers s !! i) as [[| |]|]; try done.
    destruct (recv _) as [[[e|] c]| |]; try done. by injection H as <-.
  - destruct (close _); try done. by injection H as <-.
  - destruct (close_pc s); try done. case_bool_decide; [|done]. injection H as <-. cbn.
    destruct (file (lg s)) as [f|] eqn:Hf; [|done]. by apply os_Close_handle_inv.
  - by injection H as <-.
Qed.

Lemma NewLogger_handle_inv path lv mb con w l w0 :
  NewLogger Dir path lv mb con w = (inl l, w0) → handle_inv (handles w) l w0.
Proof.
  unfold NewLogger.
  set (l0 := mkLogger lv con None None (int64_mul (int64_mul mb 1024) 1024) path 0%Z
               (mkChan [] 2000 false) 0).
  destruct (rotate Dir l0 w) as [[[e|] l1] w1] eqn:Hrot; [done|]. intros [= <- <-].
  apply rotate_succeeded in Hrot as (i & -> & Hh & _).
  rewrite (housekeeping_handles_nil l0 w eq_refl) in Hh. cbn [file fileWriter].
  split_and!.
  - intros f h Hf. rewrite Hh. by apply lookup_app_l_Some.
  - exists (length (handles w)). rewrite Hh, length_app. cbn. split_and!; [done|done|lia|lia].
  - intros f h Hge Hf _. rewrite Hh in Hf.
    apply lookup_app_Some in Hf as [Hf|[_ Hf]].
    + apply lookup_lt_Some in Hf. lia.
    + apply list_lookup_singleton_Some in Hf as [Hz _]. cbn. f_equal. lia.
Qed.

(** X11. The logger keeps at most one file open. At every point of
    every run, of the handles made since [NewLogger] was called the only
    one that can be open is the current file of the logger, which is also
    the one its writer targets: a rotation closes the old handle before it
    opens the new one, whether or not the open succeeds. The handles that
    existed before are never touched. *)
Theorem one_open_handle path lv mb con w l w0 sched s :
  NewLogger Dir path lv mb con w = (inl l, w0) →
  run Dir sched (boot l w0) = Done s →
  (∀ f h, handles w !! f = Some h → handles (os s) !! f = Some h) ∧
  (∃ fw, file (lg s) = Some fw ∧ fileWriter (lg s) = Some fw ∧
         length (handles w) ≤ fw ∧ fw < length (handles (os s))) ∧
  (∀ f h, length (handles w) ≤ f → handles (os s) !! f = Some h → fh_open h = true →
     file (lg s) = Some f).
Proof.
  intros Hnew Hrun.
  apply (run_ind (λ s, handle_inv (handles w) (lg s) (os s)) (λ _, True))
    with sched (boot l w0); [|by apply Forall_true| |done].
  - intros a s1 s2 _. apply exec_handle_inv.
  - by apply (NewLogger_handle_inv path lv mb con).
Qed.

(** *** Two rotations in one second *)

Lemma rotate_names_path l w r l' w' :
  rotate Dir l w = (r, l', w') →
  names w' !! filePath l = names (housekeeping Dir l w) !! filePath l ∨
  names w' !! filePath l = Some (length (bodies w)).
Proof.
  rewrite rotate_stages.
  pose proof (housekeeping_fields l w) as (HB & _).
  destruct (os_OpenFile_cases (filePath l) (housekeeping Dir l w))
    as [[e ->]|[(i & _ & ->)|[_ ->]]]; intros [= <- <- <-]; cbn; [by left..|].
  right. by rewrite lookup_insert_eq, HB.
Qed.

(** X12. The name a file is retired under has a resolution of one
    second and is not checked: if a file already has that name when
    [write] rotates, which is where a rotation earlier in the same second
    has put the file it retired, the rename replaces it. After the
    [write] the active file has taken the stamped name and no name at all
    refers to the file that had it before, though nothing was written to
    that file. *)
Theorem rotation_replaces_file_at_retired_name e l w fw i o j :
  file l = Some fw → fileWriter l = Some fw → handles w !! fw = Some (mkHandle i o) →
  wf_world w → (maxSize l ≤ counted e l)%Z →
  names w !! filePath l = Some i →
  refused w SysStat = false → refused w SysRename = false →
  names w !! retired_name (filePath l) (now w) = Some j →
  (∀ p, names w !! p = Some j → p = retired_name (filePath l) (now w)) →
  ∃ l' w', write Dir e l w = Done (l', w') ∧
    names w' !! retired_name (filePath l) (now w) = Some i ∧
    (∀ p, names w' !! p ≠ Some j) ∧
    bodies w' !! j = bodies w !! j.
Proof.
  intros Hf Hfw Hh Hwf Hc Hn Hs Hr Hj Honly.
  pose proof (written_cases fw e l w) as (_ & HN & HH & HT & HR & _ & Hbod). cbv zeta in *.
  set (l1 := with_currentSize (counted e l) l) in *.
  set (w1 := written fw e l w) in *.
  assert (i ≠ j) as Hij.
  { intros <-. apply Honly in Hn. symmetry in Hn. by apply retired_name_fresh in Hn. }
  assert (j < length (bodies w)) as Hjlt by (destruct Hwf as [Hw _]; apply (Hw _ _ Hj)).
  assert (length (bodies w1) = length (bodies w) ∧ bodies w1 !! j = bodies w !! j)
    as [HBL Hbj].
  { destruct Hbod as [(_ & (k & Hk & ->) & _)|(err & _ & -> & _)]; [|done].
    rewrite Hh in Hk. injection Hk as <- _.
    by rewrite length_alter, list_lookup_alter_ne. }
  assert (names (housekeeping Dir l1 w1) =
          <[retired_name (filePath l) (now w) := i]> (delete (filePath l) (names w))) as Hhk.
  { rewrite <- HN, <- HT. apply (housekeeping_renames l1 w1 i); by rewrite ?HN, ?HR. }
  rewrite (write_stages _ _ _ _ Hfw). fold l1 w1. rewrite bool_decide_eq_true_2 by done.
  destruct (rotate Dir l1 w1) as [[r l'] w'] eqn:Hrot.
  eexists _, _. split; [done|]. cbn [fst snd].
  pose proof (λ p, rotate_names_other _ _ _ _ _ p Hrot) as Hother.
  pose proof (rotate_names_path _ _ _ _ _ Hrot) as Hpath.
  pose proof (rotate_frame _ _ _ _ _ Hrot) as (_ & _ & _ & _ & Hb' & _).
  change (filePath l1) with (filePath l) in *. rewrite Hhk in *. split_and!.
  - rewrite Hother by apply retired_name_fresh. apply lookup_insert_eq.
  - intros p Hp. destruct (decide (p = filePath l)) as [->|Hne].
    + destruct Hpath as [Hq|Hq]; rewrite Hq in Hp.
      * rewrite lookup_insert_ne in Hp by apply retired_name_fresh.
        by rewrite lookup_delete_eq in Hp.
      * injection Hp as Hp. lia.
    + rewrite (Hother p Hne) in Hp.
      destruct (decide (retired_name (filePath l) (now w) = p)) as [<-|Hne'].
      * rewrite lookup_insert_eq in Hp. congruence.
      * rewrite lookup_insert_ne, lookup_delete_ne in Hp by done.
        apply Honly in Hp. congruence.
  - rewrite <- Hbj. destruct Hb' as [->| ->]; [done|].
    apply lookup_app_l. lia.
Qed.

(** *** More than one worker *)

Lemma write_returns e l w fw :
  fileWriter l = Some fw → ∃ l' w', write Dir e l w = Done (l', w').
Proof. intros H. rewrite (write_stages _ _ _ _ H). case_bool_decide; eauto. Qed.

Lemma write_fileWriter e l w fw l' w' :
  fileWriter l = Some fw → write Dir e l w = Done (l', w') → is_Some (fileWriter l').
Proof.
  intros Hfw Hw. rewrite (write_stages _ _ _ _ Hfw) in Hw.
  case_bool_decide; injection Hw as <- <-; [|by cbn; eauto].
  destruct (rotate _ _ _) as [[[err|] l1] w1] eqn:Hrot; cbn.
  - apply rotate_failed in Hrot as [-> _]. cbn. eauto.
  - apply rotate_succeeded in Hrot as (i & -> & _). cbn. eauto.
Qed.

(** X13. Calling [StartWorker] twice gives up the order of the log:
    with two idle workers and two entries at the head of the queue, each
    worker can take one and the one that took the later entry can run
    [write] first, so the later entry goes through [write] before the
    earlier one. *)
Theorem two_workers_can_reorder s fw i j e1 e2 rest :
  fileWriter (lg s) = Some fw →
  workers s !! i = Some Idle → workers s !! j = Some Idle → i ≠ j →
  buf (logChan (lg s)) = e1 :: e2 :: rest →
  ∃ s', run Dir [ARecv i; ARecv j; AWrite j; AWrite i] s = Done s' ∧
    dispatched s' = dispatched s ++ [e2; e1] ∧
    buf (logChan (lg s')) = rest ∧ accepted s' = accepted s.
Proof.
  intros Hfw Hi Hj Hij Hbuf. destruct s as [l w ws pc acc dis]. sys_simpl.
  cbn [run exec]. sys_simpl. unfold recv. rewrite Hi, Hbuf. sys_simpl.
  rewrite list_lookup_insert_ne, Hj by done. sys_simpl.
  rewrite list_lookup_insert_eq by (rewrite length_insert; by eapply lookup_lt_Some).
  set (l1 := with_logChan _ _).
  destruct (write_returns e2 l1 w fw Hfw) as (l2 & w2 & Hw2). rewrite Hw2. sys_simpl.
  rewrite list_lookup_insert_ne, list_lookup_insert_ne by done.
  rewrite list_lookup_insert_eq by (by eapply lookup_lt_Some).
  destruct (write_fileWriter e2 l1 w fw l2 w2 Hfw Hw2) as [fw2 Hfw2].
  destruct (write_returns e1 l2 w2 fw2 Hfw2) as (l3 & w3 & Hw3). rewrite Hw3. sys_simpl.
  eexists. split; [done|]. sys_simpl.
  destruct (write_frame _ _ _ _ _ Hw2) as (_ & _ & _ & _ & Hc2 & _).
  destruct (write_frame _ _ _ _ _ Hw3) as (_ & _ & _ & _ & Hc3 & _).
  rewrite Hc3, Hc2, <- app_assoc. done.
Qed.

Lemma holding_receive ws i e :
  ws !! i = Some Idle → holding (<[i := Holding e]> ws) ≡ₚ e :: holding ws.
Proof.
  revert i. induction ws as [|wk ws IH]; intros [|i] H; try done.
  - by injection H as ->.
  - change (<[S i := Holding e]> (wk :: ws)) with (wk :: <[i := Holding e]> ws).
    specialize (IH i H). destruct wk; cbn; rewrite ?IH; [done| |done].
    apply Permutation_swap.
Qed.

Lemma holding_write ws i e :
  ws !! i = Some (Holding e) → holding ws ≡ₚ e :: holding (<[i := Idle]> ws).
Proof.
  revert i. induction ws as [|wk ws IH]; intros [|i] H; try done.
  - by injection H as ->.
  - change (<[S i := Idle]> (wk :: ws)) with (wk :: <[i := Idle]> ws).
    specialize (IH i H). destruct wk; cbn; rewrite ?IH; [done| |done].
    apply Permutation_swap.
Qed.

Lemma holding_exit ws i :
  ws !! i = Some Idle → holding (<[i := Exited]> ws) = holding ws.
Proof.
  revert i. induction ws as [|wk ws IH]; intros [|i] H; try done.
  - by injection H as ->.
  - change (<[S i := Exited]> (wk :: ws)) with (wk :: <[i := Exited]> ws).
    specialize (IH i H). destruct wk; cbn; by rewrite ?IH.
Qed.

Lemma holding_start ws : holding (ws ++ [Idle]) = holding ws.
Proof. induction ws as [|[|e|] ws IH]; cbn; by rewrite ?IH. Qed.

Lemma exec_perm_inv a s s' : perm_inv s → exec Dir a s = Done s' → perm_inv s'.
Proof.
  unfold perm_inv. intros HP.
  destruct a as [lv msg|lv| |i|i|i| | |t r]; cbn [exec];
    unfold StartWorker, wg_Done, Close_close, Close_wait; intros H.
  - unfold log, send in H. case_bool_decide.
    { injection H as <-. cbn. by rewrite drop_all, app_nil_r. }
    destruct (closed _); [done|]. case_bool_decide; [|done]. injection H as <-. cbn.
    rewrite drop_app_length, HP, <- !app_assoc. done.
  - by injection H as <-.
  - injection H as <-. cbn. by rewrite holding_start.
  - destruct (workers s !! i) as [[| |]|] eqn:Hi; try done.
    unfold recv in H. destruct (buf (logChan (lg s))) as [|e rest] eqn:Hb;
      [by destruct (closed _)|].
    injection H as <-. cbn. rewrite HP, (holding_receive _ _ e Hi). cbn.
    by rewrite <- Permutation_middle.
  - destruct (workers s !! i) as [[|e|]|] eqn:Hi; try done.
    destruct (write _ _ _ _) as [[l' w']| |] eqn:Hw; try done. injection H as <-. cbn.
    destruct (write_frame _ _ _ _ _ Hw) as (_ & _ & _ & _ & -> & _).
    rewrite HP, (holding_write _ _ e Hi), <- app_assoc. done.
  - destruct (workers s !! i) as [[| |]|] eqn:Hi; try done.
    unfold recv in H. destruct (buf (logChan (lg s))) as [|e rest] eqn:Hb; [|done].
    destruct (closed _); [|done]. injection H as <-. cbn.
    by rewrite (holding_exit _ _ Hi), Hb.
  - destruct (close _) as [c| |] eqn:Hc; try done. injection H as <-. cbn.
    unfold close in Hc. destruct (closed _); [done|]. by injection Hc as <-.
  - destruct (close_pc s); try done. case_bool_decide; [|done]. by injection H as <-.
  - by injection H as <-.
Qed.

Lemma holding_exited ws : (∀ i wk, ws !! i = Some wk → wk = Exited) → holding ws = [].
Proof.
  induction ws as [|wk ws IH]; intros H; [done|].
  rewrite (H 0 wk eq_refl). cbn. apply IH. intros i wk'. apply (H (S i)).
Qed.

(** Up to the step that closes the channel and from there on. *)
Lemma closing_run w0 pre post s0 s :
  sys_inv w0 s0 → close_pc s0 = NotCalled → count_starts post = 0 →
  run Dir (pre ++ ACloseChan :: post) s0 = Done s →
  ∃ s1 s2, run Dir pre s0 = Done s1 ∧ exec Dir ACloseChan s1 = Done s2 ∧
    run Dir post s2 = Done s ∧ sys_inv w0 s1 ∧ sys_inv w0 s2 ∧ closed_inv s2 ∧
    sys_inv w0 s ∧ closed_inv s ∧ (ACloseChan ∉ pre) ∧
    lg s2 = with_logChan (mkChan (buf (logChan (lg s1))) (cap (logChan (lg s1))) true) (lg s1) ∧
    os s2 = os s1 ∧ workers s2 = workers s1 ∧ close_pc s2 = Waiting ∧
    accepted s2 = accepted s1 ∧ dispatched s2 = dispatched s1.
Proof.
  intros Hinv Hpc Hpost Hrun.
  rewrite run_app in Hrun. destruct (run Dir pre s0) as [s1| |] eqn:H1; try done.
  cbn [run] in Hrun. destruct (exec Dir ACloseChan s1) as [s2| |] eqn:H2; try done.
  pose proof (run_inv _ _ _ _ Hinv H1) as Hinv1.
  pose proof (exec_inv _ _ _ _ Hinv1 H2) as Hinv2.
  assert (ACloseChan ∉ pre) as Hnot.
  { intros Hin. pose proof (run_after_close _ _ _ Hin H1) as Hc.
    cbn in H2. unfold Close_close, close in H2. by rewrite Hc in H2. }
  assert (lg s2 = with_logChan (mkChan (buf (logChan (lg s1))) (cap (logChan (lg s1))) true)
                    (lg s1) ∧
          os s2 = os s1 ∧ workers s2 = workers s1 ∧ close_pc s2 = Waiting ∧
          accepted s2 = accepted s1 ∧ dispatched s2 = dispatched s1) as Hs2.
  { cbn in H2. unfold Close_close, close in H2.
    destruct (closed _); [done|]. by injection H2 as <-. }
  assert (closed_inv s2) as Hc2.
  { intros Hx. destruct Hs2 as (_ & _ & _ & Hw & _). congruence. }
  destruct (run_ind (λ s, sys_inv w0 s ∧ closed_inv s) (λ a, is_start a = false)
              (exec_closed_inv w0) post s2 s) as [Hinv3 Hc3];
    [by apply count_starts_zero|done|done|].
  exists s1, s2. split_and!; try done; apply Hs2.
Qed.

(** X14. With any number of workers started before [Close] and none
    after, the shutdown leaves no accepted entry behind: once [Close] has
    returned every worker has left its loop, the queue is empty and
    [write] has been called on the accepted entries, on each one once,
    though with more than one worker not always in the order of
    acceptance. For each of these calls the stamped line was appended to
    the body of the file that was active then, or the failure was
    reported on the diagnostic stream. Whether that file still has a name
    afterwards is not part of the statement: a rotation can take it
    away. *)
Theorem many_workers_drain path lv mb con w l w0 pre post s :
  wf_world w → NewLogger Dir path lv mb con w = (inl l, w0) →
  1 ≤ count_starts pre → count_starts post = 0 →
  run Dir (pre ++ ACloseChan :: post) (boot l w0) = Done s →
  close_pc s = Returned →
  dispatched s ≡ₚ accepted s ∧ buf (logChan (lg s)) = [] ∧
  length (workers s) = count_starts pre ∧ Forall (λ wk, wk = Exited) (workers s) ∧
  ∃ segs errs,
    grown w0 (os s) segs ∧ length errs = length (dispatched s) ∧
    Forall2 line_of (concat segs) (persisted_of (dispatched s) errs) ∧
    stderr (os s) = stderr w0 ++ reports_of errs.
Proof.
  intros Hwf Hnew Hpre Hpost Hrun Hret.
  pose proof (boot_inv _ _ _ _ _ _ _ Hwf Hnew) as Hinv0.
  destruct (closing_run w0 pre post (boot l w0) s Hinv0 eq_refl Hpost Hrun)
    as (s1 & s2 & _ & _ & _ & _ & _ & _ & Hinv & Hc & _).
  assert (perm_inv s) as HP.
  { apply (run_ind perm_inv (λ _, True)) with (pre ++ ACloseChan :: post) (boot l w0);
      [|by apply Forall_true| |done].
    - intros a sa sb _. apply exec_perm_inv.
    - unfold perm_inv, boot. cbn.
      destruct (NewLogger_logChan _ _ _ _ _ _ _ Hnew) as (-> & _). done. }
  destruct (Hc Hret) as (Hrun0 & _).
  pose proof (running_zero _ Hrun0) as Hall.
  assert (length (workers s) = count_starts pre) as Hlen.
  { rewrite (run_workers_length _ _ _ Hrun). cbn.
    unfold count_starts. rewrite filter_app, length_app, filter_cons.
    rewrite decide_False by done. fold (count_starts post). rewrite Hpost. lia. }
  destruct Hinv as (_ & _ & Hexi & _ & Hd).
  assert (buf (logChan (lg s)) = []) as Hbuf.
  { apply Hexi. destruct (workers s) as [|wk ws] eqn:Hws; [cbn in Hlen; lia|].
    rewrite (Hall 0 wk eq_refl). by left. }
  unfold perm_inv in HP. rewrite (holding_exited _ Hall), Hbuf, !app_nil_r in HP.
  split_and!; try done.
  - apply Forall_lookup. intros i wk. apply Hall.
  - destruct Hd as (segs & errs & fw & c & o & _ & Hg & _ & _ & _ & _ & _ & Hl & Hlines & Herr).
    by exists segs, errs.
Qed.

(** *** Runs without refusals *)

Lemma persisted_of_all ds errs :
  length errs = length ds → reports_of errs = [] → persisted_of ds errs = ds.
Proof.
  revert errs. induction ds as [|d ds IH]; intros [|[e|] errs] Hl Hr; try done.
  cbn in *. f_equal. apply IH; [lia|done].
Qed.

Lemma write_calm e l w fw c :
  (∀ x, refused w x = false) →
  file l = Some fw → fileWriter l = Some fw → handles w !! fw = Some (mkHandle c true) →
  ∃ l' w' fw' c', write Dir e l w = Done (l', w') ∧
    (∀ x, refused w' x = false) ∧ stderr w' = stderr w ∧
    file l' = Some fw' ∧ fileWriter l' = Some fw' ∧
    handles w' !! fw' = Some (mkHandle c' true).
Proof.
  intros Hcalm Hf Hfw Hh.
  pose proof (written_cases fw e l w) as (HD & HN & HH & _ & HR & _ & Hcs). cbv zeta in *.
  set (w1 := written fw e l w) in *.
  assert (stderr w1 = stderr w) as HE.
  { destruct Hcs as [(_ & _ & _ & ?)|(err & _ & _ & _ & [[_ Hx]|[_ Hx]])]; [done| |].
    - by destruct (Hx c).
    - by rewrite Hcalm in Hx. }
  rewrite (write_stages _ _ _ _ Hfw). fold w1. case_bool_decide.
  - set (l1 := with_currentSize (counted e l) l).
    destruct (rotate_openable l1 w1) as [Hyes _].
    destruct Hyes as (l' & w' & Hrot).
    { split; [by rewrite HR|]. right. left. by rewrite HR. }
    rewrite Hrot. cbn.
    pose proof (rotate_frame _ _ _ _ _ Hrot) as (_ & He & _ & Hr' & _).
    pose proof (housekeeping_fields l1 w1) as (_ & _ & _ & _ & _ & HL).
    apply rotate_succeeded in Hrot as (j & -> & Hh' & _).
    eexists _, w', (length (handles w1)), j. split; [done|]. cbn. split_and!; try done.
    + intros x. by rewrite Hr', HR.
    + by rewrite He.
    + rewrite Hh', lookup_app_r, HL, Nat.sub_diag by (rewrite HL; lia). done.
  - eexists _, w1, fw, c. split; [done|]. cbn. split_and!; try done.
    + intros x. by rewrite HR.
    + by rewrite HH.
Qed.

Lemma exec_calm_inv w0 err0 a s s' :
  calm a → sys_inv w0 s → calm_inv err0 s →
  (∀ i e, workers s !! i = Some (Holding e) → close_pc s ≠ Returned) →
  exec Dir a s = Done s' → calm_inv err0 s'.
Proof.
  unfold calm_inv. intros Ha (Hcl & _) (Hr & He & Hopen) Hbusy.
  destruct a as [lv msg|lv| |i|i|i| | |t r]; cbn [exec];
    unfold StartWorker, wg_Done, Close_close, Close_wait; intros H.
  - unfold log in H. case_bool_decide; [by injection H as <-|].
    destruct (send _ _); try done. by injection H as <-.
  - by injection H as <-.
  - by injection H as <-.
  - destruct (workers s !! i) as [[| |]|]; try done.
    destruct (recv _) as [[[e|] c]| |]; try done. by injection H as <-.
  - destruct (workers s !! i) as [[|e|]|] eqn:Hi; try done.
    destruct (Hopen (Hbusy i e Hi)) as (fw & c & Hf & Hfw & Hh).
    destruct (write_calm e _ _ fw c Hr Hf Hfw Hh)
      as (l' & w' & fw' & c' & Hw & Hr' & He' & Hf' & Hfw' & Hh').
    rewrite Hw in H. injection H as <-. cbn. split_and!; [done|congruence|eauto].
  - destruct (workers s !! i) as [[| |]|]; try done.
    destruct (recv _) as [[[e|] c]| |]; try done. by injection H as <-.
  - unfold close in H. destruct (closed (logChan (lg s))) eqn:Hc; [done|].
    injection H as <-. cbn. split_and!; [done|done|]. intros _. apply Hopen.
    intros Hpc. destruct Hcl as [_ Hcl]. rewrite Hpc in Hcl. by specialize (Hcl ltac:(done)).
  - destruct (close_pc s); try done. case_bool_decide; [|done]. injection H as <-. cbn.
    split_and!; [| |done].
    + destruct (file (lg s)) as [f|]; [|done].
      by destruct (os_Close_fields f (os s)) as (_ & _ & _ & _ & _ & _ & -> & _).
    + destruct (file (lg s)) as [f|]; [|done].
      by destruct (os_Close_fields f (os s)) as (_ & _ & _ & _ & -> & _).
  - injection H as <-. cbn. done.
Qed.

Lemma exec_pc_NotCalled a s s' :
  a ≠ ACloseChan → close_pc s = NotCalled → exec Dir a s = Done s' →
  close_pc s' = NotCalled.
Proof.
  intros Ha Hpc.
  destruct a as [lv msg|lv| |i|i|i| | |t r]; cbn [exec];
    unfold StartWorker, wg_Done, Close_close, Close_wait; intros H; try done.
  - destruct (log _ _ _ _); try done. by injection H as <-.
  - by injection H as <-.
  - by injection H as <-.
  - destruct (workers s !! i) as [[| |]|]; try done.
    destruct (recv _) as [[[e|] c]| |]; try done. by injection H as <-.
  - destruct (workers s !! i) as [[|e|]|]; try done.
    destruct (write _ _ _ _) as [[l' w']| |]; try done. by injection H as <-.
  - destruct (workers s !! i) as [[| |]|]; try done.
    destruct (recv _) as [[[e|] c]| |]; try done. by injection H as <-.
  - by rewrite Hpc in H.
  - by injection H as <-.
Qed.

Lemma NewLogger_calm path lv mb con w l w0 :
  NewLogger Dir path lv mb con w = (inl l, w0) →
  refused w0 = refused w ∧
  ∃ fw c, file l = Some fw ∧ fileWriter l = Some fw ∧
          handles w0 !! fw = Some (mkHandle c true).
Proof.
  unfold NewLogger.
  set (l0 := mkLogger lv con None None (int64_mul (int64_mul mb 1024) 1024) path 0%Z
               (mkChan [] 2000 false) 0).
  destruct (rotate Dir l0 w) as [[[e|] l1] w1] eqn:Hrot; [done|]. intros [= <- <-].
  pose proof (rotate_frame _ _ _ _ _ Hrot) as (_ & _ & _ & Hr & _).
  pose proof (housekeeping_fields l0 w) as (_ & _ & _ & _ & _ & HL).
  apply rotate_succeeded in Hrot as (i & -> & Hh & _). split; [done|].
  exists (length (handles w)), i. cbn. split_and!; try done.
  rewrite Hh, lookup_app_r, HL, Nat.sub_diag by (rewrite HL; lia). done.
Qed.

Lemma exec_passes lv0 a s s' :
  passes lv0 a → level (lg s) = lv0 → exec Dir a s = Done s' →
  level (lg s') = lv0 ∧ call_of <$> accepted s' = (call_of <$> accepted s) ++ emits [a].
Proof.
  intros Ha Hlv.
  destruct a as [lv msg|lv| |i|i|i| | |t r]; cbn [exec emits];
    unfold StartWorker, wg_Done, Close_close, Close_wait; intros H;
    rewrite ?app_nil_r; try done.
  - cbn in Ha. unfold log, send in H. rewrite bool_decide_eq_false_2 in H by lia.
    destruct (closed _); [done|]. case_bool_decide; [|done]. injection H as <-. cbn.
    by rewrite drop_app_length, fmap_app.
  - by injection H as <-.
  - destruct (workers s !! i) as [[| |]|]; try done.
    destruct (recv _) as [[[e|] c]| |]; try done. by injection H as <-.
  - destruct (workers s !! i) as [[|e|]|]; try done.
    destruct (write _ _ _ _) as [[l' w']| |] eqn:Hw; try done. injection H as <-. cbn.
    by destruct (write_frame _ _ _ _ _ Hw) as (-> & _).
  - destruct (workers s !! i) as [[| |]|]; try done.
    destruct (recv _) as [[[e|] c]| |]; try done. by injection H as <-.
  - destruct (close _); try done. by injection H as <-.
  - destruct (close_pc s); try done. case_bool_decide; [|done]. by injection H as <-.
  - by injection H as <-.
Qed.

Lemma run_passes lv0 sched : ∀ s s',
  Forall (passes lv0) sched → level (lg s) = lv0 → run Dir sched s = Done s' →
  call_of <$> accepted s' = (call_of <$> accepted s) ++ emits sched.
Proof.
  induction sched as [|a sched IH]; intros s s' Hok Hlv H.
  - injection H as <-. by rewrite app_nil_r.
  - cbn in H. destruct (exec Dir a s) as [s1| |] eqn:He; try done.
    apply Forall_cons in Hok as [Ha Hok].
    destruct (exec_passes _ _ _ _ Ha Hlv He) as [Hlv1 Hacc].
    rewrite (IH _ _ Hok Hlv1 H), Hacc, <- app_assoc.
    change (a :: sched) with ([a] ++ sched). by rewrite emits_app.
Qed.

(** X15. As long as the environment refuses nothing, every file write
    succeeds. Take a logger made by [NewLogger] in such a world, one
    worker started before [Close], and any interleaving of callers, worker
    and clock in which no call gets refused: once [Close] has returned,
    the diagnostic stream is as it was before [NewLogger], and what has
    been appended to the file bodies, read body after body in the order
    they were created, is exactly one stamped line per accepted entry, in
    the order of acceptance, across any rotations. This is about what was
    written, not about what the directory still lists: a body can have
    lost its name to a later rotation in the same second. If moreover the
    level is never changed and every call of [log] is at or above the
    level given to [NewLogger], the accepted entries are all the calls of
    [log], in program order. *)
Theorem calm_run_writes_every_entry path lv mb con w l w0 pre post s :
  wf_world w → (∀ c, refused w c = false) →
  NewLogger Dir path lv mb con w = (inl l, w0) →
  Forall calm (pre ++ post) →
  count_starts pre = 1 → count_starts post = 0 →
  run Dir (pre ++ ACloseChan :: post) (boot l w0) = Done s →
  close_pc s = Returned →
  stderr (os s) = stderr w ∧
  (∃ segs, grown w0 (os s) segs ∧ Forall2 line_of (concat segs) (accepted s)) ∧
  (Forall (passes lv) (pre ++ post) → call_of <$> accepted s = emits (pre ++ post)).
Proof.
  intros Hwf Hcalm Hnew Hsched Hpre Hpost Hrun Hret.
  apply Forall_app in Hsched as [Hcpre Hcpost].
  pose proof (boot_inv _ _ _ _ _ _ _ Hwf Hnew) as Hinv0.
  destruct (NewLogger_logChan _ _ _ _ _ _ _ Hnew) as (_ & _ & Hlv & _ & Herr0).
  destruct (NewLogger_calm _ _ _ _ _ _ _ Hnew) as (Hr0 & Hopen0).
  destruct (closing_run w0 pre post (boot l w0) s Hinv0 eq_refl Hpost Hrun)
    as (s1 & s2 & H1 & H2 & H3 & Hinv1 & Hinv2 & Hc2 & Hinv & Hc & Hnot & _).
  assert (calm_inv (stderr w) (boot l w0)) as Hq0.
  { unfold calm_inv, boot. cbn. split_and!; [by intros c; rewrite Hr0|done|by intros _]. }
  assert (sys_inv w0 s1 ∧ close_pc s1 = NotCalled ∧ calm_inv (stderr w) s1)
    as (_ & Hpc1 & Hq1).
  { apply (run_ind (λ s, sys_inv w0 s ∧ close_pc s = NotCalled ∧ calm_inv (stderr w) s)
                   (λ a, calm a ∧ a ≠ ACloseChan)) with pre (boot l w0); [| |done|done].
    - intros a sa sb [Ha Hne] (Hi & Hp & Hq) He. split_and!.
      + by eapply exec_inv.
      + by eapply exec_pc_NotCalled.
      + eapply exec_calm_inv; [done|done|done| |done]. intros. by rewrite Hp.
    - apply Forall_forall. intros a Ha. split.
      + by eapply Forall_forall in Hcpre.
      + intros ->. done. }
  assert (calm_inv (stderr w) s2) as Hq2.
  { eapply (exec_calm_inv w0 _ ACloseChan s1); [done|done|done| |done].
    intros. by rewrite Hpc1. }
  assert ((sys_inv w0 s ∧ closed_inv s) ∧ calm_inv (stderr w) s) as (_ & _ & Herr & _).
  { apply (run_ind (λ s, (sys_inv w0 s ∧ closed_inv s) ∧ calm_inv (stderr w) s)
                   (λ a, is_start a = false ∧ calm a)) with post s2; [| |done|done].
    - intros a sa sb [Hns Ha] (Hic & Hq) He. split.
      + by eapply exec_closed_inv.
      + destruct Hic as [Hi Hcl]. eapply exec_calm_inv; [done|done|done| |done].
        intros i e Hw Hpc. destruct (Hcl Hpc) as (Hz & _).
        by pose proof (running_zero _ Hz _ _ Hw).
    - apply Forall_forall. intros a Ha. split.
      + pose proof (count_starts_zero _ Hpost) as Hz. by eapply Forall_forall in Hz.
      + by eapply Forall_forall in Hcpost. }
  destruct (drained w0 pre post (boot l w0) s) as (_ & _ & _ & Hd & _); try done.
  split_and!; [done| |].
  - destruct Hinv as (_ & _ & _ & _ & (segs & errs & fw & c & o & _ & Hg & _ & _ & _ & _ & _ &
                                        Hl & Hlines & Hrep)).
    exists segs. split; [done|].
    assert (reports_of errs = []) as Hnone.
    { rewrite Herr, <- Herr0 in Hrep. rewrite <- (app_nil_r (stderr w0)) in Hrep at 1.
      by apply app_inv_head in Hrep. }
    rewrite (persisted_of_all _ _ Hl Hnone), Hd in Hlines. done.
  - intros Hpass. apply Forall_app in Hpass as [Hp1 Hp2].
    assert (Forall (passes lv) (pre ++ ACloseChan :: post)) as Hall.
    { apply Forall_app. split; [done|]. by constructor. }
    rewrite (run_passes lv _ (boot l w0) s Hall Hlv Hrun). cbn.
    by rewrite !emits_app.
Qed.

(** *** [Close] comes to an end *)

Lemma finish_idle es : ∀ s fw,
  workers s = [Idle] → closed (logChan (lg s)) = true → buf (logChan (lg s)) = es →
  fileWriter (lg s) = Some fw → wg (lg s) = 1 → close_pc s = Waiting →
  ∃ s', run Dir (flat_map (λ _, [ARecv 0; AWrite 0]) es ++ [AExit 0; ACloseWait]) s = Done s' ∧
    close_pc s' = Returned ∧ accepted s' = accepted s ∧
    dispatched s' = dispatched s ++ es ∧ workers s' = [Exited] ∧
    buf (logChan (lg s')) = [].
Proof.
  induction es as [|e es IH]; intros [l w ws pc acc dis] fw; cbn [lg os workers close_pc
    accepted dispatched]; intros -> Hc Hb Hfw Hwg ->.
  - cbn [flat_map app run exec workers lg os close_pc accepted dispatched lookup list_lookup].
    unfold recv, wg_Done, Close_wait. rewrite Hb, Hc.
    cbn [run exec workers lg os close_pc accepted dispatched insert list_insert wg with_wg].
    unfold Close_wait. cbn [wg with_wg]. rewrite Hwg. cbn [bool_decide decide_rel].
    rewrite bool_decide_eq_true_2 by done.
    eexists. split; [reflexivity|]. cbn. by rewrite app_nil_r.
  - cbn [flat_map app run exec workers lg os close_pc accepted dispatched lookup list_lookup].
    unfold recv. rewrite Hb.
    cbn [run exec workers lg os close_pc accepted dispatched insert list_insert
         lookup list_lookup].
    set (l1 := with_logChan _ l).
    destruct (write_returns e l1 w fw Hfw) as (l2 & w2 & Hw). rewrite Hw.
    destruct (write_frame _ _ _ _ _ Hw) as (_ & _ & _ & _ & Hch & Hwg2).
    destruct (write_fileWriter e l1 w fw l2 w2 Hfw Hw) as [fw2 Hfw2].
    cbn [insert list_insert].
    destruct (IH (mkSystem l2 w2 [Idle] Waiting acc (dis ++ [e])) fw2)
      as (s' & Hrun & Hpc & Hacc & Hdis & Hws & Hbuf); cbn; try done.
    + by rewrite Hch.
    + by rewrite Hch.
    + by rewrite Hwg2.
    + exists s'. split; [exact Hrun|]. cbn in *. rewrite Hdis, <- app_assoc. done.
Qed.

(** X16. [Close] cannot hang once the worker has been started: from
    every state a run with one [StartWorker] reaches before [Close], the
    steps of [Close] and of the worker alone, with no help from any
    caller and whatever the files do, bring [Close] to return: the
    channel is closed, the worker writes the entry it holds and those of
    the queue, leaves its loop, and the wait ends. Every accepted entry
    has then gone through [write]. *)
Theorem Close_returns path lv mb con w l w0 sched s :
  wf_world w → NewLogger Dir path lv mb con w = (inl l, w0) →
  count_starts sched = 1 →
  run Dir sched (boot l w0) = Done s → close_pc s = NotCalled →
  ∃ wk s', workers s = [wk] ∧
    run Dir (ACloseChan :: finish_worker wk (buf (logChan (lg s))) ++ [ACloseWait]) s
      = Done s' ∧
    close_pc s' = Returned ∧ accepted s' = accepted s ∧ dispatched s' = accepted s ∧
    workers s' = [Exited] ∧ buf (logChan (lg s')) = [].
Proof.
  intros Hwf Hnew Hstarts Hrun Hpc.
  pose proof (boot_inv _ _ _ _ _ _ _ Hwf Hnew) as Hinv0.
  pose proof (run_inv _ _ _ _ Hinv0 Hrun) as (Hcl & Hwg & Hex & Hq & Hd).
  pose proof (run_workers_length _ _ _ Hrun) as Hlen. cbn in Hlen. rewrite Hstarts in Hlen.
  destruct (workers s) as [|wk [|? ?]] eqn:Hws; try done. clear Hlen.
  specialize (Hq ltac:(cbn; lia)).
  assert (closed (logChan (lg s)) = false) as Hopen.
  { destruct (closed (logChan (lg s))); [|done]. by destruct (proj1 Hcl). }
  assert (wk ≠ Exited) as Hwk.
  { intros ->. destruct Hex as [Hx _]; [by left|]. congruence. }
  destruct Hd as (_ & _ & fw & _ & _ & _ & _ & _ & Hfw & _).
  exists wk. destruct s as [l1 w1 ws pc acc dis].
  cbn [lg os workers close_pc accepted dispatched] in *. subst ws pc.
  unfold finish_worker. rewrite <- !app_assoc.
  cbn [run exec lg os workers close_pc accepted dispatched]. unfold Close_close, close.
  rewrite Hopen.
  set (l2 := with_logChan _ l1).
  destruct wk as [|e|]; [| |done].
  - cbn [app]. cbn in Hwg, Hq.
    destruct (finish_idle (buf (logChan l1)) (mkSystem l2 w1 [Idle] Waiting acc dis) fw)
      as (s' & Hr & Hp & Ha & Hdi & Hw' & Hb); try done.
    exists s'. split; [done|]. change (([AExit 0] ++ [ACloseWait])) with [AExit 0; ACloseWait].
    split; [exact Hr|]. cbn in *. split_and!; try done. by rewrite Hdi, Hq.
  - cbn [app run exec lg os workers close_pc accepted dispatched lookup list_lookup].
    cbn in Hwg, Hq.
    destruct (write_returns e l2 w1 fw Hfw) as (l3 & w3 & Hw). rewrite Hw.
    destruct (write_frame _ _ _ _ _ Hw) as (_ & _ & _ & _ & Hch & Hwg3).
    destruct (write_fileWriter e l2 w1 fw l3 w3 Hfw Hw) as [fw3 Hfw3].
    cbn [insert list_insert].
    destruct (finish_idle (buf (logChan l1)) (mkSystem l3 w3 [Idle] Waiting acc (dis ++ [e])) fw3)
      as (s' & Hr & Hp & Ha & Hdi & Hw' & Hb); cbn; try done.
    + by rewrite Hch.
    + by rewrite Hch.
    + by rewrite Hwg3.
    + exists s'. split; [done|]. change (([AExit 0] ++ [ACloseWait])) with [AExit 0; ACloseWait].
      split; [exact Hr|]. cbn in *. split_and!; try done.
      by rewrite Hdi, Hq, <- app_assoc.
Qed.

(** *** [write] on a logger made by [NewLogger] *)

(** X17. [write] always returns on a logger made by [NewLogger]: at
    every point of every run the writer is set, so whatever the file
    write and the rotation do, the worker that holds an entry can take
    its step and is idle again afterwards. The panic of [write] belongs
    to a logger that never went through [NewLogger], whose writer is
    nil. *)
Theorem write_never_panics path lv mb con w l w0 sched s :
  NewLogger Dir path lv mb con w = (inl l, w0) →
  run Dir sched (boot l w0) = Done s →
  (∀ e, ∃ l' w', write Dir e (lg s) (os s) = Done (l', w')) ∧
  (∀ i e, workers s !! i = Some (Holding e) →
     ∃ s', exec Dir (AWrite i) s = Done s' ∧ workers s' !! i = Some Idle ∧
           dispatched s' = dispatched s ++ [e]) ∧
  (∀ e l0 w1, fileWriter l0 = None → write Dir e l0 w1 = Panic).
Proof.
  intros Hnew Hrun.
  assert (handle_inv (handles w) (lg s) (os s)) as (_ & (fw & _ & Hfw & _) & _).
  { apply (run_ind (λ s, handle_inv (handles w) (lg s) (os s)) (λ _, True))
      with sched (boot l w0); [|by apply Forall_true| |done].
    - intros a s1 s2 _. apply exec_handle_inv.
    - by apply (NewLogger_handle_inv path lv mb con). }
  split_and!.
  - intros e. by apply (write_returns e _ _ fw).
  - intros i e Hi. destruct (write_returns e (lg s) (os s) fw Hfw) as (l' & w' & Hw).
    cbn [exec]. rewrite Hi, Hw. eexists. split; [done|]. cbn. split; [|done].
    apply list_lookup_insert_eq. by eapply lookup_lt_Some.
  - intros e l0 w1 Hnil. unfold write. by rewrite Hnil.
Qed.

(** *** A rotation whose rename is refused *)

(** X18. When the stat or the rename of a rotation is refused, the
    error is dropped and the rotation goes on: the same file is opened
    again under the configured path and the counter starts from 0. So the
    file is not retired; the entries that follow are appended to it
    after what it already holds, and it grows past the threshold. *)
Theorem refused_rename_keeps_the_file e l w fw i o :
  file l = Some fw → fileWriter l = Some fw → handles w !! fw = Some (mkHandle i o) →
  (maxSize l ≤ counted e l)%Z →
  names w !! filePath l = Some i →
  refused w SysStat = true ∨ refused w SysRename = true →
  refused w SysOpenFile = false →
  ∃ l' w', write Dir e l w = Done (l', w') ∧
    names w' = names w ∧ length (bodies w') = length (bodies w) ∧
    file l' = Some (length (handles w)) ∧ fileWriter l' = Some (length (handles w)) ∧
    handles w' !! length (handles w) = Some (mkHandle i true) ∧
    handles w' !! fw = Some (mkHandle i false) ∧
    currentSize l' = 0%Z ∧
    ∀ e2 old, refused w SysWrite = false → bodies w' !! i = Some old →
      ∃ l2 w2, write Dir e2 l' w' = Done (l2, w2) ∧
        bodies w2 !! i = Some (old ++ [std_line (now w) (formatted e2)]).
Proof.
  intros Hf Hfw Hh Hc Hn Hren Hopen.
  pose proof (written_cases fw e l w) as (_ & HN & HH & HT & HR & _ & Hbod). cbv zeta in *.
  set (l1 := with_currentSize (counted e l) l) in *.
  set (w1 := written fw e l w) in *.
  assert (length (bodies w1) = length (bodies w)) as HBL.
  { destruct Hbod as [(_ & (k & _ & ->) & _)|(err & _ & -> & _)];
      [apply length_alter|done]. }
  assert (names (housekeeping Dir l1 w1) = names w) as Hhk.
  { rewrite <- HN. apply housekeeping_names_kept. rewrite HR. tauto. }
  pose proof (housekeeping_fields l1 w1) as (HB2 & _ & _ & HT2 & HR2 & HL2).
  assert (handles w1 !! fw = Some (mkHandle i o)) as Hh1 by (by rewrite HH).
  destruct (housekeeping_handles l1 w1 fw _ Hh1) as (o' & Ho' & Hcl & _).
  rewrite (Hcl Hf) in Ho'. cbn in Ho'.
  rewrite (write_stages _ _ _ _ Hfw). fold l1 w1. rewrite bool_decide_eq_true_2 by done.
  rewrite rotate_stages.
  set (hk := housekeeping Dir l1 w1) in *. clearbody hk.
  unfold os_OpenFile. change (filePath l1) with (filePath l).
  rewrite HR2, HR, Hopen, Hhk, Hn.
  eexists _, _. split; [reflexivity|]. cbn [fst snd].
  set (l3 := mkLogger _ _ _ _ _ _ _ _ _). set (w3 := set_handles _ _).
  assert (names w3 = names w ∧ bodies w3 = bodies w1 ∧ now w3 = now w ∧
          refused w3 = refused w ∧
          handles w3 = handles hk ++ [mkHandle i true]) as (Hn3 & Hb3 & Ht3 & Hr3 & Hh3).
  { subst w3. cbn. by rewrite Hhk, HB2, HT2, HT, HR2, HR. }
  assert (file l3 = Some (length (handles w)) ∧ fileWriter l3 = Some (length (handles w)) ∧
          currentSize l3 = 0%Z) as (Hf3 & Hfw3 & Hc3).
  { subst l3. cbn. by rewrite HL2, HH. }
  assert (handles w3 !! length (handles w) = Some (mkHandle i true)) as Hnew.
  { rewrite Hh3, lookup_app_r, HL2, HH, Nat.sub_diag by (rewrite HL2, HH; lia). done. }
  clearbody l3 w3. split_and!; try done.
  - by rewrite Hb3.
  - rewrite Hh3, lookup_app_l by (by eapply lookup_lt_Some). done.
  - intros e2 old Hwr Hold.
    destruct (write_appends e2 l3 w3 (length (handles w)) i old) as (l2 & w2 & Hw2 & Hb2 & _);
      try done.
    + by rewrite Hr3.
    + exists l2, w2. split; [done|]. by rewrite Hb2, Ht3.
Qed.

(** *** The bytes the counter does not see *)

Lemma digits_length w : ∀ n, String.length (digits w n) = w.
Proof.
  induction w as [|w IH]; intros n; [done|].
  change (digits (S w) n)
    with (digits w (n / 10) +:+ String (ascii_of_nat (48 + n mod 10)) "").
  rewrite string_app_length, IH. cbn. lia.
Qed.

Lemma std_line_length t s :
  len (std_line t s) = (len s + 20 + (if ends_with_newline s then 0 else 1))%Z.
Proof.
  unfold len, std_line, LstdFlags_header.
  rewrite !string_app_length, !digits_length.
  destruct (ends_with_newline s); cbn; lia.
Qed.

(** X19. The counter that triggers the rotation is not the size of
    the file. For a line that is written, the file grows by the rendered
    text, the 20 bytes of the date and time the file writer puts in
    front, and a newline unless the text already ends in one, while the
    counter grows by the length of the rendered text plus one. *)
Theorem counter_ignores_the_header e l w fw i old :
  fileWriter l = Some fw → handles w !! fw = Some (mkHandle i true) →
  refused w SysWrite = false → bodies w !! i = Some old →
  (0 ≤ currentSize l)%Z → (currentSize l + len (formatted e) + 1 < 2 ^ 63)%Z →
  ∃ l' w' line, write Dir e l w = Done (l', w') ∧
    bodies w' !! i = Some (old ++ [line]) ∧
    len line =
      (len (formatted e) + 20 + (if ends_with_newline (formatted e) then 0 else 1))%Z ∧
    counted e l = (currentSize l + len (formatted e) + 1)%Z ∧
    (currentSize l' = counted e l ∨ currentSize l' = 0%Z).
Proof.
  intros Hfw Hh Hr Hold H0 Hlt.
  destruct (write_appends e l w fw i old Hfw Hh Hr Hold) as (l' & w' & Hw & Hb & _).
  exists l', w', (std_line (now w) (formatted e)).
  split_and!; [done|done|apply std_line_length|by apply counted_exact|].
  rewrite (write_stages _ _ _ _ Hfw) in Hw. case_bool_decide.
  - destruct (rotate _ _ _) as [[[err|] l1] w1] eqn:Hrot; injection Hw as <- <-.
    + apply rotate_failed in Hrot as [-> _]. by left.
    + apply rotate_succeeded in Hrot as (j & -> & _). by right.
  - injection Hw as <- <-. by left.
Qed.

(** *** The wait group *)

Lemma running_pos ws i wk : ws !! i = Some wk → wk ≠ Exited → 0 < running ws.
Proof.
  revert i. induction ws as [|wk' ws IH]; intros [|i] H Hne; try done; rewrite running_cons.
  - injection H as ->. destruct wk; cbn; [lia|lia|done].
  - specialize (IH i H Hne). lia.
Qed.

Lemma exec_wg a s s' :
  wg (lg s) = running (workers s) → exec Dir a s = Done s' →
  wg (lg s') = running (workers s').
Proof.
  intros Hwg.
  destruct a as [lv msg|lv| |i|i|i| | |t r]; cbn [exec];
    unfold StartWorker, wg_Done, Close_close, Close_wait; intros H.
  - unfold log in H. case_bool_decide; [by injection H as <-|].
    destruct (send _ _); try done. by injection H as <-.
  - by injection H as <-.
  - injection H as <-. cbn [lg workers wg with_wg with_logChan]. rewrite running_app, Hwg. change (running [Idle]) with 1. lia.
  - destruct (workers s !! i) as [[| |]|] eqn:Hi; try done.
    destruct (recv _) as [[[e|] c]| |]; try done. injection H as <-. cbn [lg workers wg with_wg with_logChan].
    pose proof (running_insert _ i Idle (Holding e) Hi) as Hr. cbn in Hr. lia.
  - destruct (workers s !! i) as [[|e|]|] eqn:Hi; try done.
    destruct (write _ _ _ _) as [[l' w']| |] eqn:Hw; try done. injection H as <-. cbn [lg workers wg with_wg with_logChan].
    destruct (write_frame _ _ _ _ _ Hw) as (_ & _ & _ & _ & _ & ->).
    pose proof (running_insert _ i (Holding e) Idle Hi) as Hr. cbn in Hr. lia.
  - destruct (workers s !! i) as [[| |]|] eqn:Hi; try done.
    destruct (recv _) as [[[e|] c]| |]; try done. injection H as <-. cbn [lg workers wg with_wg with_logChan].
    pose proof (running_insert _ i Idle Exited Hi) as Hr. cbn in Hr.
    pose proof (running_pos _ _ _ Hi ltac:(done)). lia.
  - destruct (close _); try done. by injection H as <-.
  - destruct (close_pc s); try done. case_bool_decide; [|done]. by injection H as <-.
  - by injection H as <-.
Qed.

(** X20. The counter of the wait group is the number of workers that
    have not left their loop: [StartWorker] adds one before the goroutine
    starts and each worker takes one off when its loop ends. So at every
    point of every run the wait of [Close] is blocked as long as any
    worker is idle or holds an entry, and once all of them have left
    their loop a [Close] that is waiting returns. *)
Theorem Close_waits_for_workers path lv mb con w l w0 sched s :
  NewLogger Dir path lv mb con w = (inl l, w0) →
  run Dir sched (boot l w0) = Done s →
  wg (lg s) = running (workers s) ∧
  (∀ i wk, workers s !! i = Some wk → wk ≠ Exited → exec Dir ACloseWait s = Blocked) ∧
  (running (workers s) = 0 → close_pc s = Waiting →
   ∃ s', exec Dir ACloseWait s = Done s' ∧ close_pc s' = Returned).
Proof.
  intros Hnew Hrun.
  assert (wg (lg s) = running (workers s)) as Hwg.
  { apply (run_ind (λ s, wg (lg s) = running (workers s)) (λ _, True))
      with sched (boot l w0); [|by apply Forall_true| |done].
    - intros a s1 s2 _. apply exec_wg.
    - unfold NewLogger in Hnew. destruct (rotate _ _ _) as [[[e|] l1] w1] eqn:Hrot; [done|].
      injection Hnew as <- <-.
      apply rotate_frame in Hrot as (_ & _ & _ & _ & _ & _ & _ & _ & _ & _ & Hwg0).
      unfold boot. cbn [lg workers]. by rewrite Hwg0. }
  split_and!; [done| |].
  - intros i wk Hi Hne. pose proof (running_pos _ _ _ Hi Hne) as Hpos.
    cbn [exec]. destruct (close_pc s); try done. unfold Close_wait.
    rewrite bool_decide_eq_false_2 by lia. done.
  - intros Hz Hpc. cbn [exec]. rewrite Hpc. unfold Close_wait.
    rewrite bool_decide_eq_true_2 by lia. eexists. split; [done|]. done.
Qed.

(** *** Two rotations, one after the other *)

(** A [write] that reaches the threshold in a world that honours the
    calls of the rotation: the logger and the world it leaves. *)
Lemma rotating_write e l w fw i o :
  file l = Some fw → fileWriter l = Some fw → handles w !! fw = Some (mkHandle i o) →
  (maxSize l ≤ counted e l)%Z →
  names w !! filePath l = Some i →
  refused w SysStat = false → refused w SysRename = false →
  refused w SysOpenFile = false → refused w SysMkdirAll = false →
  ∃ l' w', write Dir e l w = Done (l', w') ∧
    l' = mkLogger (level l) (consoleOut l) (Some (length (handles w)))
           (Some (length (handles w))) (maxSize l) (filePath l) 0%Z (logChan l) (wg l) ∧
    names w' = <[filePath l := length (bodies w)]>
                 (<[retired_name (filePath l) (now w) := i]> (delete (filePath l) (names w))) ∧
    bodies w' = bodies (written fw e l w) ++ [[]] ∧
    length (bodies (written fw e l w)) = length (bodies w) ∧
    handles w' !! length (handles w) = Some (mkHandle (length (bodies w)) true) ∧
    now w' = now w ∧ refused w' = refused w.
Proof.
  intros Hf Hfw Hh Hc Hn Hs Hr Ho Hm.
  pose proof (written_cases fw e l w) as (_ & HN & HH & HT & HR & _ & Hbod). cbv zeta in *.
  set (l1 := with_currentSize (counted e l) l) in *.
  set (w1 := written fw e l w) in *.
  assert (length (bodies w1) = length (bodies w)) as HBL.
  { destruct Hbod as [(_ & (k & _ & ->) & _)|(err & _ & -> & _)];
      [apply length_alter|done]. }
  assert (names (housekeeping Dir l1 w1) =
          <[retired_name (filePath l) (now w) := i]> (delete (filePath l) (names w))) as Hhk.
  { rewrite <- HN, <- HT. apply (housekeeping_renames l1 w1 i); by rewrite ?HN, ?HR. }
  assert (names (housekeeping Dir l1 w1) !! filePath l = None) as Hnone.
  { rewrite Hhk, lookup_insert_ne by apply retired_name_fresh. apply lookup_delete_eq. }
  assert (Dir (filePath l) ∈ dirs (housekeeping Dir l1 w1)) as Hdir.
  { rewrite housekeeping_dirs_eq, HR, Hm. apply elem_of_union_l. by apply elem_of_singleton. }
  pose proof (housekeeping_fields l1 w1) as (HB2 & _ & _ & HT2 & HR2 & HL2).
  rewrite (write_stages _ _ _ _ Hfw). fold l1 w1. rewrite bool_decide_eq_true_2 by done.
  rewrite rotate_stages.
  set (hk := housekeeping Dir l1 w1) in *. clearbody hk.
  unfold os_OpenFile. change (filePath l1) with (filePath l).
  rewrite HR2, HR, Ho, Hnone, bool_decide_eq_true_2 by done.
  eexists _, _. split; [reflexivity|]. cbn [fst snd].
  cbn [names bodies handles now refused set_handles set_names set_bodies
       level consoleOut maxSize filePath logChan wg l1 with_currentSize].
  rewrite HB2, HL2, HH, HBL, Hhk, HT2, HT, HR2, HR. split_and!; try done.
  rewrite lookup_app_r, HL2, HH, Nat.sub_diag by (rewrite HL2, HH; lia). done.
Qed.

(** X21. Two rotations in the same second lose a file. In a world that
    refuses nothing, let a [write] reach the threshold, and let the next
    entry reach it again before the clock has moved on (a threshold no
    larger than a line): the first rotation retires the active file under
    the stamped name, the second retires its successor under the same
    name. The line of the first entry is then in a file that no name
    refers to; the stamped name holds the second entry alone. *)
Theorem same_second_rotations_lose_a_file e1 e2 l w fw i old :
  file l = Some fw → fileWriter l = Some fw → handles w !! fw = Some (mkHandle i true) →
  wf_world w → (∀ c, refused w c = false) →
  names w !! filePath l = Some i → (∀ p, names w !! p = Some i → p = filePath l) →
  bodies w !! i = Some old →
  (maxSize l ≤ counted e1 l)%Z → (maxSize l ≤ counted e2 (with_currentSize 0 l))%Z →
  ∃ l1 w1 l2 w2,
    write Dir e1 l w = Done (l1, w1) ∧ write Dir e2 l1 w1 = Done (l2, w2) ∧
    bodies w2 !! i = Some (old ++ [std_line (now w) (formatted e1)]) ∧
    (∀ p, names w2 !! p ≠ Some i) ∧
    names w2 !! retired_name (filePath l) (now w) = Some (length (bodies w)) ∧
    bodies w2 !! length (bodies w) = Some [std_line (now w) (formatted e2)].
Proof.
  intros Hf Hfw Hh Hwf Hcalm Hn Honly Hold Hc1 Hc2.
  assert (i < length (bodies w)) as Hi by (destruct Hwf as [Hw _]; apply (Hw _ _ Hn)).
  destruct (rotating_write e1 l w fw i true) as (l1 & w1 & Hw1 & Hl1 & Hn1 & Hb1 & HBL1 & Hh1 & Ht1 & Hr1);
    try done.
  pose proof (written_cases fw e1 l w) as (_ & _ & _ & _ & _ & _ & Hcs1). cbv zeta in Hcs1.
  assert (bodies (written fw e1 l w) !! i = Some (old ++ [std_line (now w) (formatted e1)]))
    as Hline1.
  { destruct Hcs1 as [(_ & (k & Hk & ->) & _)|(err & _ & _ & _ & [[_ Hx]|[_ Hx]])].
    - rewrite Hh in Hk. injection Hk as <-. by rewrite list_lookup_alter_eq, Hold.
    - by destruct (Hx i).
    - by rewrite Hcalm in Hx. }
  set (n := length (bodies w)) in *. set (m := length (handles w)) in *.
  assert (names w1 !! filePath l1 = Some n) as Hn1'.
  { rewrite Hl1, Hn1. cbn. apply lookup_insert_eq. }
  assert (length (bodies w1) = S n) as HBL1'.
  { rewrite Hb1, length_app, HBL1. cbn. lia. }
  assert (file l1 = Some m ∧ fileWriter l1 = Some m ∧ filePath l1 = filePath l ∧
          maxSize l1 = maxSize l ∧ counted e2 l1 = counted e2 (with_currentSize 0 l))
    as (Hf1 & Hfw1 & Hp1 & Hm1 & Hcnt1) by (by rewrite Hl1).
  destruct (rotating_write e2 l1 w1 m n true) as (l2 & w2 & Hw2 & Hl2 & Hn2 & Hb2 & HBL2 & _);
    try done; rewrite ?Hr1; try done.
  { by rewrite Hm1, Hcnt1. }
  pose proof (written_cases m e2 l1 w1) as (_ & _ & _ & _ & _ & _ & Hcs2). cbv zeta in Hcs2.
  assert (bodies (written m e2 l1 w1) =
          alter (λ b, b ++ [std_line (now w) (formatted e2)]) n (bodies w1)) as Hline2.
  { destruct Hcs2 as [(_ & (k & Hk & ->) & _)|(err & _ & _ & _ & [[_ Hx]|[_ Hx]])].
    - rewrite Hh1 in Hk. injection Hk as <-. by rewrite Ht1.
    - by destruct (Hx n).
    - by rewrite Hr1, Hcalm in Hx. }
  exists l1, w1, l2, w2. rewrite Hp1, Ht1 in Hn2. split_and!; try done.
  - rewrite Hb2, lookup_app_l by (rewrite HBL2, HBL1'; lia).
    rewrite Hline2, list_lookup_alter_ne by lia.
    rewrite Hb1, lookup_app_l by (rewrite HBL1; lia). done.
  - intros p. rewrite Hn2, Hn1.
    destruct (decide (p = filePath l)) as [->|Hne].
    { rewrite lookup_insert_eq. intros [=]. lia. }
    rewrite lookup_insert_ne by done.
    destruct (decide (p = retired_name (filePath l) (now w))) as [->|Hne'].
    { rewrite lookup_insert_eq. intros [=]. lia. }
    rewrite lookup_insert_ne, lookup_delete_ne by done.
    rewrite lookup_insert_ne, lookup_insert_ne, lookup_delete_ne by done.
    intros Hp. by apply Honly in Hp.
  - rewrite Hn2, lookup_insert_ne
      by (intros Heq; symmetry in Heq; by apply retired_name_fresh in Heq).
    apply lookup_insert_eq.
  - rewrite Hb2, lookup_app_l by (rewrite HBL2, HBL1'; lia).
    rewrite Hline2, list_lookup_alter_eq, Hb1, lookup_app_r by (rewrite HBL1; lia).
    rewrite HBL1. subst n. rewrite Nat.sub_diag. done.
Qed.

End Facts.

(** *** The package's test, evaluated *)

Lemma NewLogger_test :
  NewLogger slash_dir "logs/app.log" DEBUG 1 true world0 = (inl test_logger, test_world).
Proof. vm_compute. reflexivity. Qed.

Lemma wf_world0 : wf_world world0.
Proof. split; intros ? ? H; cbn in H; [by rewrite lookup_empty in H|done]. Qed.

Lemma wf_test_world : wf_world test_world.
Proof.
  split.
  - intros p i H. cbn in H. apply lookup_singleton_Some in H as [_ <-]. cbn. lia.
  - intros [|f] h H; [|done]. injection H as <-. cbn. lia.
Qed.

Lemma test_run :
  run slash_dir (test_pre ++ ACloseChan :: test_post) (boot test_logger test_world) =
  Done test_final.
Proof. vm_compute. reflexivity. Qed.

Lemma idle_run : run slash_dir idle_sched (boot test_logger test_world) = Done idle_state.
Proof. vm_compute. reflexivity. Qed.

(** The three accepted entries went through [write] in order; the info and
    the error line are in the file, the warning is on the diagnostic
    stream, the debug line was dropped. *)
Example test_final_disk :
  bodies (os test_final) =
    [[ "2026/10/30 22:54:00 [INFO] This is an info message" +:+ nl;
       "2026/10/30 22:54:01 [ERROR] This is an error" +:+ nl ]] ∧
  stderr (os test_final) = [ "log write error: write: input/output error" +:+ nl ] ∧
  call_of <$> dispatched test_final =
    [(INFO, "This is an info message"); (WARN, "This is a warning");
     (ERROR, "This is an error")].
Proof. vm_compute. done. Qed.

(** The rotation of the full logger retires the file under a stamped
    name and starts an empty one. *)
Example full_logger_rotates :
  ∃ l' w', write slash_dir hello full_logger test_world = Done (l', w') ∧
    map_to_list (names w') =
      [("logs/app.log.20261030_225400.log", 0); ("logs/app.log", 1)] ∧
    bodies w' = [[ "2026/10/30 22:54:00 [INFO] hello" +:+ nl ]; []] ∧
    currentSize l' = 0%Z ∧ file l' = Some 1.
Proof. eexists _, _. split; [vm_compute; reflexivity|]. vm_compute. done. Qed.

(** *** Witnesses *)


Lemma rotation_trigger_witness :
  file full_logger = Some 0 ∧ handles test_world !! 0 = Some (mkHandle 0 true) ∧
  (maxSize full_logger ≤ counted hello full_logger)%Z ∧
  ∃ l' w', write slash_dir hello full_logger test_world = Done (l', w') ∧
    names w' !! retired_name "logs/app.log" (now test_world) = Some 0 ∧
    names w' !! "logs/app.log" = Some 1 ∧ currentSize l' = 0%Z.
Proof.
  assert ((maxSize full_logger ≤ counted hello full_logger)%Z) as Hc
    by (vm_compute; discriminate).
  split_and!; [reflexivity|reflexivity|exact Hc|].
  destruct (rotation_trigger slash_dir hello full_logger test_world 0 0 true
              eq_refl eq_refl eq_refl wf_test_world) as (l' & w' & Hw & _ & _ & Hrot & _).
  destruct (Hrot Hc eq_refl eq_refl eq_refl eq_refl (or_intror eq_refl))
    as (Hr & Hn & _ & _ & _ & _ & _ & Hz & _).
  exists l', w'. split_and!; [exact Hw|exact Hr|exact Hn|exact Hz].
Defined.


Lemma counter_counts_every_dispatch_witness :
  fileWriter test_logger = Some 0 ∧
  write_error 0 hello test_logger (refusing [SysWrite] test_world) =
    Some (ErrRefused SysWrite) ∧
  ∃ l' w', write slash_dir hello test_logger (refusing [SysWrite] test_world) = Done (l', w') ∧
    currentSize l' = counted hello test_logger.
Proof.
  split_and!; [reflexivity|reflexivity|].
  destruct (counter_counts_every_dispatch slash_dir hello test_logger
              (refusing [SysWrite] test_world) 0 eq_refl)
    as (_ & _ & l' & w' & Hw & Hlt & _).
  exists l', w'. split; [exact Hw|]. apply Hlt. vm_compute. reflexivity.
Defined.





(** The counter does move on a failed file write: with the disk refusing
    the write, [Output] returns an error and the counter still goes from 0
    to 13, the length of the line plus one. *)
Lemma counter_unchanged_on_failed_write_counterexample :
  write_error 0 hello test_logger (refusing [SysWrite] test_world) =
    Some (ErrRefused SysWrite) ∧
  ∃ l' w', write slash_dir hello test_logger (refusing [SysWrite] test_world) = Done (l', w') ∧
    currentSize test_logger = 0%Z ∧ currentSize l' = 13%Z ∧
    currentSize l' ≠ currentSize test_logger.
Proof.
  split; [reflexivity|]. eexists _, _. split; [vm_compute; reflexivity|].
  vm_compute. split_and!; [reflexivity|reflexivity|discriminate].
Qed.

Lemma fifo_order_witness :
  count_starts (test_pre ++ ACloseChan :: test_post) ≤ 1 ∧
  call_of <$> accepted test_final `sublist_of` emits (test_pre ++ ACloseChan :: test_post) ∧
  accepted test_final =
    dispatched test_final ++ holding (workers test_final) ++ buf (logChan (lg test_final)).
Proof.
  assert (count_starts (test_pre ++ ACloseChan :: test_post) ≤ 1) as H by (vm_compute; lia).
  split; [exact H|].
  destruct (fifo_order slash_dir "logs/app.log" DEBUG 1 true world0 test_logger test_world
              (test_pre ++ ACloseChan :: test_post) test_final wf_world0 NewLogger_test H
              test_run) as (Hq & _ & Hs & _).
  split; [exact Hs|exact Hq].
Defined.


(** Not every write after a failed rotation fails. The rotation of the
    full logger fails because the open is refused; the open is then
    permitted again; the next entry is still reported and not written, but
    its rotation succeeds; and the entry after that is written to the new
    file, with no report and with no rotation tried. *)
Lemma subsequent_write_succeeds_counterexample :
  ∃ l1 w1 l2 w2 l3 w3,
    write slash_dir hello full_logger (refusing [SysOpenFile] test_world) = Done (l1, w1) ∧
    (rotate slash_dir (with_currentSize (counted hello full_logger) full_logger)
       (written 0 hello full_logger (refusing [SysOpenFile] test_world))).1.1 =
      Some (ErrRefused SysOpenFile) ∧
    stuck l1 w1 ∧
    write slash_dir hello l1 (refusing [] w1) = Done (l2, w2) ∧
    stderr w2 = [report ErrClosed] ∧
    fileWriter l2 = Some 1 ∧ write_error 1 hello l2 w2 = None ∧
    write slash_dir hello l2 w2 = Done (l3, w3) ∧
    stderr w3 = stderr w2 ∧
    bodies w3 !! 1 = Some ["2026/10/30 22:54:00 [INFO] hello" +:+ nl] ∧
    file l3 = file l2 ∧ currentSize l3 = 13%Z.
Proof.
  eexists _, _, _, _, _, _. split_and!.
  - vm_compute. reflexivity.
  - reflexivity.
  - exists 0, 0. split_and!; [reflexivity..|]. vm_compute. discriminate.
  - vm_compute. reflexivity.
  - vm_compute. reflexivity.
  - reflexivity.
  - vm_compute. reflexivity.
  - vm_compute. reflexivity.
  - reflexivity.
  - vm_compute. reflexivity.
  - reflexivity.
  - reflexivity.
Qed.

Lemma failed_rotation_sticks_witness :
  (maxSize full_logger ≤ counted hello full_logger)%Z ∧
  (rotate slash_dir (with_currentSize (counted hello full_logger) full_logger)
     (written 0 hello full_logger (refusing [SysOpenFile] test_world))).1.1 =
    Some (ErrRefused SysOpenFile) ∧
  ∃ w1, write slash_dir hello full_logger (refusing [SysOpenFile] test_world) =
          Done (with_currentSize (counted hello full_logger) full_logger, w1) ∧
        stderr w1 = [] ∧ handles w1 !! 0 = Some (mkHandle 0 false).
Proof.
  assert ((maxSize full_logger ≤ counted hello full_logger)%Z) as Hc
    by (vm_compute; discriminate).
  split_and!; [exact Hc|reflexivity|].
  destruct (failed_rotation_sticks slash_dir hello full_logger
              (refusing [SysOpenFile] test_world) 0 0 true (ErrRefused SysOpenFile)
              eq_refl eq_refl eq_refl Hc eq_refl) as (w1 & Hw & He & Hh & _).
  exists w1. split_and!; [exact Hw|exact He|exact Hh].
Defined.

Lemma close_without_worker_witness :
  count_starts idle_sched = 0 ∧ close_pc idle_state = NotCalled ∧
  ∃ s', run slash_dir [ACloseChan; ACloseWait] idle_state = Done s' ∧
    close_pc s' = Returned ∧ length (buf (logChan (lg s'))) = 2 ∧ dispatched s' = [] ∧
    bodies (os s') = [[]].
Proof.
  split_and!; [reflexivity|reflexivity|].
  destruct (close_without_worker slash_dir "logs/app.log" DEBUG 1 true world0 test_logger
              test_world idle_sched idle_state wf_world0 NewLogger_test eq_refl idle_run
              eq_refl) as (s' & Hr & Hpc & _ & Hb & _ & Hd & Hbod & _).
  exists s'. split_and!; [exact Hr|exact Hpc| |exact Hd|exact Hbod].
  rewrite Hb. reflexivity.
Defined.

Lemma write_ignores_creation_time_witness :
  e_level hello = e_level (mkEntry INFO "hello" one_second_later) ∧
  e_msg hello = e_msg (mkEntry INFO "hello" one_second_later) ∧
  e_time hello ≠ e_time (mkEntry INFO "hello" one_second_later) ∧
  write slash_dir hello test_logger test_world =
  write slash_dir (mkEntry INFO "hello" one_second_later) test_logger test_world.
Proof.
  split_and!; [reflexivity|reflexivity|discriminate|].
  apply (write_ignores_creation_time slash_dir hello (mkEntry INFO "hello" one_second_later)
           test_logger test_world eq_refl eq_refl).
Defined.

Lemma rendering_contract_witness :
  fileWriter test_logger = Some 0 ∧
  handles test_world !! 0 = Some (mkHandle 0 true) ∧
  refused test_world SysWrite = false ∧
  bodies test_world !! 0 = Some [] ∧
  ∃ l' w', write slash_dir hello test_logger test_world = Done (l', w') ∧
    bodies w' !! 0 = Some [ "2026/10/30 22:54:00 [INFO] hello" +:+ nl ].
Proof.
  split_and!; [reflexivity..|].
  destruct (rendering_contract slash_dir hello test_logger test_world 0 0 []
              eq_refl eq_refl eq_refl eq_refl) as (_ & (l' & w' & Hw & Hb & _) & _).
  exists l', w'. split; [exact Hw|exact Hb].
Defined.

(** *** The further properties, evaluated *)

Lemma closed_run :
  run slash_dir [ACloseChan] (boot test_logger test_world) = Done closed_state.
Proof. vm_compute. reflexivity. Qed.

Lemma full_queue_run :
  run slash_dir full_queue_sched (boot test_logger test_world) = Done full_queue_state.
Proof. vm_compute. reflexivity. Qed.

Lemma two_workers_run :
  run slash_dir (two_workers_pre ++ ACloseChan :: two_workers_post)
    (boot test_logger test_world) = Done two_workers_final.
Proof. vm_compute. reflexivity. Qed.

Lemma TestLogxV2_run :
  run slash_dir (TestLogxV2_pre ++ ACloseChan :: TestLogxV2_post)
    (boot test_logger test_world) = Done TestLogxV2_final.
Proof. vm_compute. reflexivity. Qed.

Lemma warn_pre_run :
  run slash_dir warn_pre (boot test_logger test_world) = Done before_warn.
Proof. vm_compute. reflexivity. Qed.

Lemma TestLogxV2_calm : Forall calm (TestLogxV2_pre ++ TestLogxV2_post).
Proof. vm_compute. repeat constructor. Qed.

Lemma TestLogxV2_passes : Forall (passes DEBUG) (TestLogxV2_pre ++ TestLogxV2_post).
Proof. vm_compute. repeat (constructor; try discriminate). Qed.

Lemma wf_collide_world : wf_world collide_world.
Proof.
  split.
  - intros p i H. cbn in H.
    apply lookup_insert_Some in H as [[_ <-]|[_ H]]; [cbn; lia|].
    apply lookup_singleton_Some in H as [_ <-]. cbn. lia.
  - intros [|f] h H; [|done]. injection H as <-. cbn. lia.
Qed.

Lemma collide_world_only p :
  names collide_world !! p = Some 0 → p = retired_name "logs/app.log" (now collide_world).
Proof.
  intros H. cbn in H. apply lookup_insert_Some in H as [[_ [=]]|[_ H]].
  by apply lookup_singleton_Some in H as [<- _].
Qed.

Lemma test_world_only p : names test_world !! p = Some 0 → p = "logs/app.log".
Proof. intros H. cbn in H. by apply lookup_singleton_Some in H as [<- _]. Qed.

Lemma stuck_logger_stuck : stuck stuck_logger stuck_world.
Proof. exists 0, 0. split_and!; [reflexivity..|]. vm_compute. discriminate. Qed.

(** The test of the package, run on an empty disk that refuses nothing:
    thirteen lines in the file, in program order, thirteen on the
    console, none on the diagnostic stream. *)
Example TestLogxV2_disk :
  bodies (os TestLogxV2_final) =
    [ (λ s, "2026/10/30 22:54:00 " +:+ s +:+ nl) <$>
      [ "[INFO] This is an info message"; "[WARN] This is a warning";
        "[ERROR] This is an error";
        "[DEBUG] Log line 0"; "[DEBUG] Log line 1"; "[DEBUG] Log line 2";
        "[DEBUG] Log line 3"; "[DEBUG] Log line 4"; "[DEBUG] Log line 5";
        "[DEBUG] Log line 6"; "[DEBUG] Log line 7"; "[DEBUG] Log line 8";
        "[DEBUG] Log line 9" ] ] ∧
  length (stdout (os TestLogxV2_final)) = 13 ∧ stderr (os TestLogxV2_final) = [].
Proof. vm_compute. done. Qed.

(** With two workers the second entry was written first. *)
Example two_workers_disk :
  call_of <$> accepted two_workers_final = [(INFO, "first"); (INFO, "second")] ∧
  call_of <$> dispatched two_workers_final = [(INFO, "second"); (INFO, "first")] ∧
  bodies (os two_workers_final) =
    [[ "2026/10/30 22:54:00 [INFO] second" +:+ nl;
       "2026/10/30 22:54:00 [INFO] first" +:+ nl ]].
Proof. vm_compute. done. Qed.

(** *** Witnesses of the further properties *)

Lemma NewLogger_outcome_witness :
  (os_OpenFile slash_dir "logs/app.log"
     (housekeeping slash_dir
        (mkLogger DEBUG true None None (int64_mul (int64_mul 1 1024) 1024) "logs/app.log" 0%Z
                  (mkChan [] 2000 false) 0) world0)).1 = inl 0 ∧
  ∃ w', NewLogger slash_dir "logs/app.log" DEBUG 1 true world0 =
      (inl (mkLogger DEBUG true (Some 0) (Some 0) (wrap64 (wrap64 (1 * 1024) * 1024))
                     "logs/app.log" 0%Z (mkChan [] 2000 false) 0), w').
Proof.
  assert ((os_OpenFile slash_dir "logs/app.log"
             (housekeeping slash_dir
                (mkLogger DEBUG true None None (int64_mul (int64_mul 1 1024) 1024)
                          "logs/app.log" 0%Z (mkChan [] 2000 false) 0) world0)).1 = inl 0)
    as H by (vm_compute; reflexivity).
  split; [exact H|].
  destruct (NewLogger_outcome slash_dir "logs/app.log" DEBUG 1 true world0)
    as (_ & _ & _ & _ & _ & Hyes & _).
  exact (proj1 (Hyes 0) H).
Defined.

Lemma NewLogger_retires_existing_witness :
  names used_world !! "logs/app.log" = Some 0 ∧
  ∃ r w', NewLogger slash_dir "logs/app.log" DEBUG 1 true used_world = (r, w') ∧
    names w' !! retired_name "logs/app.log" (now used_world) = Some 0.
Proof.
  split; [reflexivity|].
  destruct (NewLogger_retires_existing slash_dir "logs/app.log" DEBUG 1 true used_world 0
              eq_refl eq_refl eq_refl) as (r & w' & Hn & Hr & _).
  exists r, w'. split; [exact Hn|exact Hr].
Defined.

Lemma log_after_Close_panics_witness :
  ACloseChan ∈ [ACloseChan] ∧
  run slash_dir [ACloseChan] (boot test_logger test_world) = Done closed_state ∧
  exec slash_dir (ALog ERROR "too late") closed_state = Panic.
Proof.
  assert (ACloseChan ∈ [ACloseChan]) as Hin by apply list_elem_of_here.
  split_and!; [exact Hin|exact closed_run|].
  exact (log_after_Close_panics slash_dir [ACloseChan] (boot test_logger test_world)
           closed_state ERROR "too late" Hin closed_run).
Defined.

Lemma second_Close_panics_witness :
  ACloseChan ∈ [ACloseChan] ∧
  run slash_dir [ACloseChan] (boot test_logger test_world) = Done closed_state ∧
  exec slash_dir ACloseChan closed_state = Panic.
Proof.
  assert (ACloseChan ∈ [ACloseChan]) as Hin by apply list_elem_of_here.
  split_and!; [exact Hin|exact closed_run|].
  apply (second_Close_panics slash_dir [ACloseChan] (boot test_logger test_world)
           closed_state Hin closed_run).
Defined.

Lemma queue_bounded_witness :
  length (buf (logChan (lg full_queue_state))) = 2000 ∧
  closed (logChan (lg full_queue_state)) = false ∧
  (level (lg full_queue_state) ≤ INFO)%Z ∧
  exec slash_dir (ALog INFO "one more") full_queue_state = Blocked.
Proof.
  assert (length (buf (logChan (lg full_queue_state))) = 2000) as Hlen
    by (vm_compute; reflexivity).
  assert ((level (lg full_queue_state) ≤ INFO)%Z) as Hlv by (vm_compute; discriminate).
  assert (closed (logChan (lg full_queue_state)) = false) as Hopen
    by (vm_compute; reflexivity).
  split_and!; [exact Hlen|exact Hopen|exact Hlv|].
  destruct (queue_bounded slash_dir "logs/app.log" DEBUG 1 true world0 test_logger test_world
              full_queue_sched full_queue_state NewLogger_test full_queue_run) as [_ Hq].
  destruct (Hq INFO "one more" Hlv Hopen) as [Hfull _]. exact (Hfull Hlen).
Defined.

Lemma console_mirrors_dispatch_witness :
  stdout (os test_final) = stdout world0 ++ (echo_line <$> dispatched test_final).
Proof.
  apply (console_mirrors_dispatch slash_dir "logs/app.log" DEBUG 1 true world0 test_logger
           test_world (test_pre ++ ACloseChan :: test_post) test_final NewLogger_test test_run).
Defined.

Lemma counter_stays_below_threshold_witness :
  (0 < maxSize test_logger)%Z ∧
  ∃ l' w', write slash_dir hello test_logger test_world = Done (l', w') ∧
    ((currentSize l' < maxSize test_logger)%Z ∨ stuck l' w').
Proof.
  assert ((0 < maxSize test_logger)%Z) as H by (vm_compute; reflexivity).
  split; [exact H|].
  destruct (counter_stays_below_threshold slash_dir hello test_logger test_world 0 0 true
              H eq_refl eq_refl eq_refl) as (l' & w' & Hw & _ & Hc).
  exists l', w'. split; [exact Hw|exact Hc].
Defined.

Lemma nonpositive_threshold_rotates_every_write_witness :
  (maxSize zero_logger ≤ 0)%Z ∧
  ∃ l' w', write slash_dir hello zero_logger test_world = Done (l', w') ∧
    handles w' !! 0 = Some (mkHandle 0 false).
Proof.
  assert ((maxSize zero_logger ≤ 0)%Z) as H by (vm_compute; discriminate).
  split; [exact H|].
  destruct (nonpositive_threshold_rotates_every_write slash_dir hello zero_logger test_world
              0 0 true H ltac:(vm_compute; discriminate) ltac:(vm_compute; reflexivity)
              eq_refl eq_refl eq_refl) as ((l' & w' & Hw & Hh & _) & _).
  exists l', w'. split; [exact Hw|exact Hh].
Defined.

Lemma stuck_logger_recovers_witness :
  stuck stuck_logger stuck_world ∧ openable slash_dir "logs/app.log" stuck_world ∧
  ∃ l' w' j, write slash_dir hello stuck_logger stuck_world = Done (l', w') ∧
    stderr w' = [report ErrClosed] ∧
    handles w' !! 1 = Some (mkHandle j true) ∧ currentSize l' = 0%Z.
Proof.
  assert (openable slash_dir "logs/app.log" stuck_world) as Hop
    by (split; [reflexivity|right; left; reflexivity]).
  split_and!; [exact stuck_logger_stuck|exact Hop|].
  destruct (stuck_logger_recovers slash_dir hello stuck_logger stuck_world stuck_logger_stuck
              ltac:(vm_compute; discriminate) ltac:(vm_compute; reflexivity) Hop)
    as (l' & w' & j & Hw & He & _ & _ & _ & Hh & _ & Hc & _).
  exists l', w', j. split_and!; [exact Hw|exact He|exact Hh|exact Hc].
Defined.

Lemma one_open_handle_witness :
  ∃ fw, file (lg test_final) = Some fw ∧ fileWriter (lg test_final) = Some fw ∧
    ∀ f h, handles (os test_final) !! f = Some h → fh_open h = true → f = fw.
Proof.
  destruct (one_open_handle slash_dir "logs/app.log" DEBUG 1 true world0 test_logger
              test_world (test_pre ++ ACloseChan :: test_post) test_final NewLogger_test
              test_run) as (_ & (fw & Hf & Hfw & _) & Hone).
  exists fw. split_and!; [exact Hf|exact Hfw|].
  intros f h Hh Ho. specialize (Hone f h (Nat.le_0_l f) Hh Ho).
  rewrite Hf in Hone. injection Hone as ->. reflexivity.
Defined.

Lemma rotation_replaces_file_at_retired_name_witness :
  names collide_world !! "logs/app.log" = Some 1 ∧
  names collide_world !! retired_name "logs/app.log" (now collide_world) = Some 0 ∧
  (maxSize full_logger ≤ counted hello full_logger)%Z ∧
  ∃ l' w', write slash_dir hello full_logger collide_world = Done (l', w') ∧
    names w' !! retired_name "logs/app.log" (now collide_world) = Some 1 ∧
    ∀ p, names w' !! p ≠ Some 0.
Proof.
  assert ((maxSize full_logger ≤ counted hello full_logger)%Z) as Hc
    by (vm_compute; discriminate).
  split_and!; [reflexivity|reflexivity|exact Hc|].
  destruct (rotation_replaces_file_at_retired_name slash_dir hello
              (mkLogger DEBUG true (Some 0) (Some 0) 1048576 "logs/app.log" 1048570
                        (mkChan [] 2000 false) 0)
              collide_world 0 1 true 0 eq_refl eq_refl eq_refl wf_collide_world Hc
              eq_refl eq_refl eq_refl eq_refl collide_world_only)
    as (l' & w' & Hw & Hr & Hnone & _).
  exists l', w'. split_and!; [exact Hw|exact Hr|exact Hnone].
Defined.

Lemma two_workers_can_reorder_witness :
  workers two_workers_state = [Idle; Idle] ∧
  call_of <$> buf (logChan (lg two_workers_state)) = [(INFO, "first"); (INFO, "second")] ∧
  ∃ s', run slash_dir [ARecv 0; ARecv 1; AWrite 1; AWrite 0] two_workers_state = Done s' ∧
    call_of <$> dispatched s' = [(INFO, "second"); (INFO, "first")].
Proof.
  split_and!; [reflexivity|reflexivity|].
  destruct (two_workers_can_reorder slash_dir two_workers_state 0 0 1
              (mkEntry INFO "first" (mkTime 2026 10 30 22 54 0))
              (mkEntry INFO "second" (mkTime 2026 10 30 22 54 0)) []
              eq_refl eq_refl eq_refl ltac:(discriminate) eq_refl) as (s' & Hr & Hd & _).
  exists s'. split; [exact Hr|]. rewrite Hd. reflexivity.
Defined.

Lemma many_workers_drain_witness :
  1 ≤ count_starts two_workers_pre ∧ count_starts two_workers_post = 0 ∧
  close_pc two_workers_final = Returned ∧
  dispatched two_workers_final ≡ₚ accepted two_workers_final ∧
  dispatched two_workers_final ≠ accepted two_workers_final.
Proof.
  assert (1 ≤ count_starts two_workers_pre) as H by (vm_compute; lia).
  split_and!; [exact H|reflexivity|reflexivity| |vm_compute; discriminate].
  apply (many_workers_drain slash_dir "logs/app.log" DEBUG 1 true world0 test_logger
           test_world two_workers_pre two_workers_post two_workers_final wf_world0
           NewLogger_test H eq_refl two_workers_run eq_refl).
Defined.

Lemma calm_run_writes_every_entry_witness :
  close_pc TestLogxV2_final = Returned ∧
  stderr (os TestLogxV2_final) = [] ∧
  call_of <$> accepted TestLogxV2_final = emits TestLogxV2_calls ∧
  ∃ segs, grown test_world (os TestLogxV2_final) segs ∧
    Forall2 line_of (concat segs) (accepted TestLogxV2_final).
Proof.
  destruct (calm_run_writes_every_entry slash_dir "logs/app.log" DEBUG 1 true world0
              test_logger test_world TestLogxV2_pre TestLogxV2_post TestLogxV2_final
              wf_world0 (λ _, eq_refl) NewLogger_test TestLogxV2_calm eq_refl eq_refl
              TestLogxV2_run eq_refl) as (He & Hs & Hall).
  split_and!; [reflexivity|exact He| |exact Hs].
  rewrite (Hall TestLogxV2_passes). reflexivity.
Defined.

Lemma Close_returns_witness :
  count_starts warn_pre = 1 ∧ close_pc before_warn = NotCalled ∧
  ∃ wk s', workers before_warn = [wk] ∧
    run slash_dir (ACloseChan :: finish_worker wk (buf (logChan (lg before_warn))) ++
                   [ACloseWait]) before_warn = Done s' ∧
    close_pc s' = Returned ∧ dispatched s' = accepted before_warn.
Proof.
  split_and!; [reflexivity|reflexivity|].
  destruct (Close_returns slash_dir "logs/app.log" DEBUG 1 true world0 test_logger test_world
              warn_pre before_warn wf_world0 NewLogger_test eq_refl warn_pre_run eq_refl)
    as (wk & s' & Hw & Hr & Hp & _ & Hd & _).
  exists wk, s'. split_and!; [exact Hw|exact Hr|exact Hp|exact Hd].
Defined.

Lemma write_never_panics_witness :
  ∃ l' w', write slash_dir hello (lg test_final) (os test_final) = Done (l', w').
Proof.
  destruct (write_never_panics slash_dir "logs/app.log" DEBUG 1 true world0 test_logger
              test_world (test_pre ++ ACloseChan :: test_post) test_final NewLogger_test
              test_run) as (Hw & _).
  exact (Hw hello).
Defined.

Lemma refused_rename_keeps_the_file_witness :
  refused (refusing [SysRename] test_world) SysRename = true ∧
  (maxSize full_logger ≤ counted hello full_logger)%Z ∧
  ∃ l' w', write slash_dir hello full_logger (refusing [SysRename] test_world) = Done (l', w') ∧
    names w' = names test_world ∧ currentSize l' = 0%Z ∧
    handles w' !! 1 = Some (mkHandle 0 true).
Proof.
  assert ((maxSize full_logger ≤ counted hello full_logger)%Z) as Hc
    by (vm_compute; discriminate).
  split_and!; [reflexivity|exact Hc|].
  destruct (refused_rename_keeps_the_file slash_dir hello full_logger
              (refusing [SysRename] test_world) 0 0 true eq_refl eq_refl eq_refl Hc eq_refl
              (or_intror eq_refl) eq_refl)
    as (l' & w' & Hw & Hn & _ & _ & _ & Hh & _ & Hz & _).
  exists l', w'. split_and!; [exact Hw|exact Hn|exact Hz|exact Hh].
Defined.

Lemma counter_ignores_the_header_witness :
  ∃ l' w' line, write slash_dir hello test_logger test_world = Done (l', w') ∧
    bodies w' !! 0 = Some [line] ∧ len line = 33%Z ∧ currentSize l' = 13%Z.
Proof.
  destruct (counter_ignores_the_header slash_dir hello test_logger test_world 0 0 []
              eq_refl eq_refl eq_refl eq_refl ltac:(vm_compute; discriminate)
              ltac:(vm_compute; reflexivity))
    as (l' & w' & line & Hw & Hb & Hl & Hc & [Hs|Hs]).
  - exists l', w', line. split_and!; [exact Hw|exact Hb|exact Hl|].
    rewrite Hs, Hc. reflexivity.
  - exfalso. pose proof Hw as Hw'. vm_compute in Hw'. injection Hw' as <- _.
    vm_compute in Hs. discriminate Hs.
Defined.

Lemma Close_waits_for_workers_witness :
  workers before_warn !! 0 = Some Idle ∧ exec slash_dir ACloseWait before_warn = Blocked.
Proof.
  split; [reflexivity|].
  destruct (Close_waits_for_workers slash_dir "logs/app.log" DEBUG 1 true world0 test_logger
              test_world warn_pre before_warn NewLogger_test warn_pre_run) as (_ & Hb & _).
  apply (Hb 0 Idle eq_refl). discriminate.
Defined.

Lemma same_second_rotations_lose_a_file_witness :
  (maxSize zero_logger ≤ counted hello zero_logger)%Z ∧
  ∃ l1 w1 l2 w2, write slash_dir hello zero_logger test_world = Done (l1, w1) ∧
    write slash_dir hello l1 w1 = Done (l2, w2) ∧
    bodies w2 !! 0 = Some ["2026/10/30 22:54:00 [INFO] hello" +:+ nl] ∧
    ∀ p, names w2 !! p ≠ Some 0.
Proof.
  assert ((maxSize zero_logger ≤ counted hello zero_logger)%Z) as Hc
    by (vm_compute; discriminate).
  split; [exact Hc|].
  destruct (same_second_rotations_lose_a_file slash_dir hello hello zero_logger test_world
              0 0 [] eq_refl eq_refl eq_refl wf_test_world (λ _, eq_refl) eq_refl
              test_world_only eq_refl Hc Hc) as (l1 & w1 & l2 & w2 & H1 & H2 & Hb & Hn & _).
  exists l1, w1, l2, w2. split_and!; [exact H1|exact H2|exact Hb|exact Hn].
Defined.
